(** * AGV3D: a shallow embedding of the scene-interaction engine

    The development follows [src/app/agv/page.tsx] (the drag controller, the
    camera rig, the mesh picker, the attach/carry toggle and the undo stack)
    and [src/app/api/upload/route.ts] (the upload route).

    Conventions.
    - A JavaScript [number] is a rational [Q]: arithmetic is exact, so the
      rounding of IEEE doubles is left out.  Results computed by different
      expressions are compared with [==] ([Qeq]); copies are compared with [=].
    - [Number.POSITIVE_INFINITY] appears in one place (the picker) and is
      modelled there by [None] in [option Q].
    - A JavaScript string is a [string]: its code units are taken to be 8-bit
      characters.
    - Functions of the host libraries (three.js, node:path, [Math.pow]) are
      either modelled from their documented behaviour, and named after the
      method they stand for, or taken as parameters of a section.
    - React state is a record field; a [useRef] cell is a record field too.
      Every handler is a function from the state before to the state after. *)

From Stdlib Require Import QArith Qabs Qminmax Qround Lqa Lia ZArith List String Ascii.
From Stdlib Require Import DecimalString.
From stdpp Require Import base option list strings gmap.

(** ** The upload route: [src/app/api/upload/route.ts] *)

Module Upload.

Local Open Scope string_scope.
Local Open Scope char_scope.

Definition is_slash (c : ascii) : bool := Ascii.eqb c "/".

(** Segments of a path, cut at every ["/"]; never the empty list. *)
Fixpoint split_slash (s : string) : list string :=
  match s with
  | EmptyString => [EmptyString]
  | String c s' =>
      if is_slash c then EmptyString :: split_slash s'
      else match split_slash s' with
           | seg :: rest => String c seg :: rest
           | [] => [String c EmptyString]
           end
  end.

Definition nonempty (s : string) : bool :=
  match s with EmptyString => false | _ => true end.

(** [path.basename] of node:path (POSIX): trailing separators are dropped and
    the text after the last remaining separator is returned, that is the last
    non-empty segment, or the empty string when there is none. *)
Definition basename (p : string) : string :=
  List.last (List.filter nonempty (split_slash p)) EmptyString.

(** The character class [[a-zA-Z0-9._-]] of the regular expression. *)
Definition allowed (c : ascii) : bool :=
  let n := nat_of_ascii c in
  ((97 <=? n)%nat && (n <=? 122)%nat)
  || ((65 <=? n)%nat && (n <=? 90)%nat)
  || ((48 <=? n)%nat && (n <=? 57)%nat)
  || Ascii.eqb c "." || Ascii.eqb c "_" || Ascii.eqb c "-".

(** [.replace(/[^a-zA-Z0-9._-]/g, "_")] *)
Fixpoint replace_unsafe (s : string) : string :=
  match s with
  | EmptyString => EmptyString
  | String c s' => String (if allowed c then c else "_") (replace_unsafe s')
  end.

(** The template literal [`${stamp}`] of an integral number ([Date.now()] is
    a whole number of milliseconds, far below the range where JavaScript
    switches to exponent notation). *)
Definition show_number (n : Z) : string := NilZero.string_of_int (Z.to_int n).

(** [safeName], with the value of [Date.now()] passed in. *)
Definition safeName (now : Z) (name : string) : string :=
  let base := replace_unsafe (basename name) in
  let stamp := now in
  (show_number stamp ++ "-" ++ base)%string.

(** *** [path.join] of node:path (POSIX) *)

Definition is_dot (s : string) : bool := String.eqb s ".".
Definition is_dotdot (s : string) : bool := String.eqb s "..".

(** One segment of [normalizeString]: the result so far is a stack of
    segments, last one on top. *)
Definition norm_step (allowAboveRoot : bool) (res : list string) (seg : string)
  : list string :=
  if negb (nonempty seg) || is_dot seg then res
  else if is_dotdot seg then
    match List.rev res with
    | top :: below =>
        if is_dotdot top
        then (if allowAboveRoot then res ++ [seg] else res)
        else List.rev below
    | [] => if allowAboveRoot then [seg] else []
    end
  else res ++ [seg].

Definition normalizeString (allowAboveRoot : bool) (segs : list string)
  : list string :=
  List.fold_left (norm_step allowAboveRoot) segs [].

Definition isAbsolute (p : string) : bool :=
  match p with String c _ => is_slash c | EmptyString => false end.

Fixpoint ends_with_slash (p : string) : bool :=
  match p with
  | EmptyString => false
  | String c EmptyString => is_slash c
  | String _ p' => ends_with_slash p'
  end.

Definition normalize (p : string) : string :=
  if negb (nonempty p) then "."%string
  else
    let abs := isAbsolute p in
    let trailingSeparator := ends_with_slash p in
    let body := String.concat "/" (normalizeString (negb abs) (split_slash p)) in
    if negb (nonempty body) then
      (if abs then "/" else if trailingSeparator then "./" else ".")%string
    else
      let body := if trailingSeparator then (body ++ "/")%string else body in
      if abs then String "/" body else body.

Definition join (args : list string) : string :=
  match List.filter nonempty args with
  | [] => "."%string
  | parts => normalize (String.concat "/" parts)
  end.

(** *** The handler *)

Inductive FormValue :=
  | NoValue                                  (* [data.get] returned null *)
  | TextValue (s : string)                   (* a string field *)
  | FileValue (name : string) (bytes : list Byte.byte).

Inductive Response :=
  | BadRequest (error : string)              (* status 400 *)
  | Ok (url name : string).

(** What [POST] leaves behind: the file written, if any, and the response. *)
Record Outcome := {
  written : option (string * list Byte.byte);   (* path, content *)
  response : Response
}.

Definition uploadDir (cwd : string) : string :=
  join [cwd; "public"%string; "uploads"%string].

Definition POST (cwd : string) (now : Z) (file : FormValue) : Outcome :=
  match file with
  | NoValue | TextValue _ =>
      {| written := None; response := BadRequest "No file provided" |}
  | FileValue fname buf =>
      let name := safeName now fname in
      let filePath := join [uploadDir cwd; name] in
      {| written := Some (filePath, buf);
         response := Ok ("/uploads/" ++ name)%string name |}
  end.

Fixpoint slash_free (s : string) : bool :=
  match s with
  | EmptyString => true
  | String c s' => negb (is_slash c) && slash_free s'
  end.

(** A path lies directly inside [dir] when it is [dir], one separator and one
    segment: no separator in it, and neither empty nor a dot segment. *)
Definition directly_inside (dir path : string) : Prop :=
  exists seg, path = (dir ++ String "/" seg)%string
              /\ slash_free seg = true /\ seg <> EmptyString
              /\ seg <> "."%string /\ seg <> ".."%string.

(** *** Notions used to state the properties *)

Definition kept (s : string) : bool :=
  nonempty s && negb (is_dot s) && negb (is_dotdot s).

(** A proper segment: kept by [normalizeString], and without separator. *)
Definition proper (s : string) : bool :=
  nonempty s && negb (is_dot s) && negb (is_dotdot s) && slash_free s.

(** The shape of a normalized segment list: [".."] segments first (only when
    the path is relative), then kept segments. *)
Definition normal (a : bool) (l : list string) : Prop :=
  exists dots props,
    l = (dots ++ props)%list
    /\ List.Forall (fun s => is_dotdot s = true) dots
    /\ (a = false -> dots = [])
    /\ List.Forall (fun s => kept s = true) props.

(** The prefix of an absolute path. *)
Definition root_of (abs : bool) : string := if abs then "/" else "".

End Upload.

(** ** Numbers and vectors *)

Module Geometry.

Local Open Scope Q_scope.

(** [a < b] on numbers, as a test. *)
Definition Qltb (a b : Q) : bool := negb (Qle_bool b a).

(** A [THREE.Vector3], also the tuple type [Vec3Tuple]: components x, y, z. *)
Record Vec3 := mkVec3 { vx : Q; vy : Q; vz : Q }.

Definition veq (a b : Vec3) : Prop :=
  vx a == vx b /\ vy a == vy b /\ vz a == vz b.

Definition veqb (a b : Vec3) : bool :=
  Qeq_bool (vx a) (vx b) && Qeq_bool (vy a) (vy b) && Qeq_bool (vz a) (vz b).

Definition vzero : Vec3 := mkVec3 0 0 0.

(** The ray that [raycaster.setFromCamera(mouse, camera)] builds for a pointer
    position; the camera projection itself is three.js's. *)
Record Ray := mkRay { origin : Vec3; direction : Vec3 }.

(** [Ray.distanceToPlane] for the plane [new Plane((0,1,0), -h)], the
    horizontal plane at height [h]. *)
Definition distanceToPlane (r : Ray) (h : Q) : option Q :=
  let denominator := vy (direction r) in
  if Qeq_bool denominator 0 then
    if Qeq_bool (vy (origin r) - h) 0 then Some 0 else None
  else
    let t := - (vy (origin r) - h) / denominator in
    if Qle_bool 0 t then Some t else None.

(** [Ray.intersectPlane]: [null] is [None]. *)
Definition intersectPlane (r : Ray) (h : Q) : option Vec3 :=
  match distanceToPlane r h with
  | None => None
  | Some t =>
      Some (mkVec3 (vx (origin r) + vx (direction r) * t)
                   (vy (origin r) + vy (direction r) * t)
                   (vz (origin r) + vz (direction r) * t))
  end.

End Geometry.

(** ** The page: React state and refs of [Page] *)

Module PageState.

Import Geometry.

Record UploadedGlb := mkUpload {
  id : string;
  name : string;
  url : string;
  position : Vec3;
  scale : Q
}.

Record AttachRule := mkRule { rule_id : string; offset : Vec3 }.

(** JavaScript truthiness of a [string | null]. *)
Definition truthy (s : option string) : bool :=
  match s with
  | Some EmptyString | None => false
  | Some _ => true
  end.

Record Page := mkPage {
  agvPos : Vec3;                                  (* telemetry copy of the vehicle position *)
  uploads : list UploadedGlb;
  draggedUploadId : option string;
  isDragging : bool;
  selectedPos : option Vec3;
  carriedIds : list string;
  selectedUploadIds : list string;
  attachRules : list AttachRule;
  uploadHistoryRef : list (list UploadedGlb);     (* array: last element on top *)
  pendingUndoRef : option (list UploadedGlb)
}.

Definition setAgvPos (v : Vec3) (p : Page) : Page :=
  mkPage v (uploads p) (draggedUploadId p) (isDragging p)
    (selectedPos p) (carriedIds p) (selectedUploadIds p) (attachRules p)
    (uploadHistoryRef p) (pendingUndoRef p).

Definition setUploads (f : list UploadedGlb -> list UploadedGlb) (p : Page) : Page :=
  mkPage (agvPos p) (f (uploads p)) (draggedUploadId p) (isDragging p)
    (selectedPos p) (carriedIds p) (selectedUploadIds p) (attachRules p)
    (uploadHistoryRef p) (pendingUndoRef p).

Definition setDraggedUploadId (v : option string) (p : Page) : Page :=
  mkPage (agvPos p) (uploads p) v (isDragging p)
    (selectedPos p) (carriedIds p) (selectedUploadIds p) (attachRules p)
    (uploadHistoryRef p) (pendingUndoRef p).

Definition setIsDragging (v : bool) (p : Page) : Page :=
  mkPage (agvPos p) (uploads p) (draggedUploadId p) v
    (selectedPos p) (carriedIds p) (selectedUploadIds p) (attachRules p)
    (uploadHistoryRef p) (pendingUndoRef p).

Definition setSelectedPos (v : option Vec3) (p : Page) : Page :=
  mkPage (agvPos p) (uploads p) (draggedUploadId p) (isDragging p)
    v (carriedIds p) (selectedUploadIds p) (attachRules p)
    (uploadHistoryRef p) (pendingUndoRef p).

Definition setCarriedIds (v : list string) (p : Page) : Page :=
  mkPage (agvPos p) (uploads p) (draggedUploadId p) (isDragging p)
    (selectedPos p) v (selectedUploadIds p) (attachRules p)
    (uploadHistoryRef p) (pendingUndoRef p).

Definition setAttachRules (v : list AttachRule) (p : Page) : Page :=
  mkPage (agvPos p) (uploads p) (draggedUploadId p) (isDragging p)
    (selectedPos p) (carriedIds p) (selectedUploadIds p) v
    (uploadHistoryRef p) (pendingUndoRef p).

Definition setUploadHistory (v : list (list UploadedGlb)) (p : Page) : Page :=
  mkPage (agvPos p) (uploads p) (draggedUploadId p) (isDragging p)
    (selectedPos p) (carriedIds p) (selectedUploadIds p) (attachRules p)
    v (pendingUndoRef p).

Definition setPendingUndo (v : option (list UploadedGlb)) (p : Page) : Page :=
  mkPage (agvPos p) (uploads p) (draggedUploadId p) (isDragging p)
    (selectedPos p) (carriedIds p) (selectedUploadIds p) (attachRules p)
    (uploadHistoryRef p) v.

(** [{ ...u, position: pos }] *)
Definition withPosition (pos : Vec3) (u : UploadedGlb) : UploadedGlb :=
  mkUpload (id u) (name u) (url u) pos (scale u).

(** [prev.map((u) => (u.id === target ? { ...u, position: pos } : u))] *)
Definition moveUpload (target : string) (pos : Vec3) (prev : list UploadedGlb)
  : list UploadedGlb :=
  List.map (fun u => if String.eqb (id u) target then withPosition pos u else u) prev.

(** [Array.prototype.push] and [Array.prototype.pop]. *)
Definition push {A} (l : list A) (a : A) : list A := l ++ [a].

Definition pop {A} (l : list A) : option A * list A :=
  match List.rev l with
  | [] => (None, l)
  | a :: below => (Some a, List.rev below)
  end.

(** *** The handlers passed to [DragMove] *)

(** [{ ...u, position: [...u.position] }] *)
Definition copyUpload (u : UploadedGlb) : UploadedGlb :=
  mkUpload (id u) (name u) (url u)
    (mkVec3 (vx (position u)) (vy (position u)) (vz (position u))) (scale u).

Definition onPick (picked : option string) (p : Page) : Page :=
  let p := setDraggedUploadId picked p in
  let p := setIsDragging (truthy picked) p in
  let p := if truthy picked
           then setPendingUndo (Some (List.map copyUpload (uploads p))) p
           else p in
  match picked with
  | Some i =>
      if truthy picked then
        match List.find (fun u => String.eqb (id u) i) (uploads p) with
        | Some found => setSelectedPos (Some (position found)) p
        | None => p
        end
      else setSelectedPos None p
  | None => setSelectedPos None p
  end.

Definition onMove (pos : Vec3) (p : Page) : Page :=
  match draggedUploadId p with
  | Some i =>
      if truthy (draggedUploadId p)
      then setSelectedPos (Some pos) (setUploads (moveUpload i pos) p)
      else p
  | None => p
  end.

Definition onDrop (p : Page) : Page :=
  let p := match pendingUndoRef p with
           | Some snapshot =>
               setPendingUndo None
                 (setUploadHistory (push (uploadHistoryRef p) snapshot) p)
           | None => p
           end in
  setIsDragging false (setDraggedUploadId None p).

(** *** Undo: the [keydown] listener for Ctrl+Z *)

Record KeyboardEvent := mkKey { code : string; ctrlKey : bool }.

Definition onUndo (e : KeyboardEvent) (p : Page) : Page :=
  if negb (ctrlKey e) || negb (String.eqb (code e) "KeyZ") then p
  else
    match pop (uploadHistoryRef p) with
    | (Some last, rest) => setUploads (fun _ => last) (setUploadHistory rest p)
    | (None, rest) => setUploadHistory rest p
    end.

End PageState.

(** ** The drag controller: [DragMove] *)

Module DragMove.

Import Geometry PageState.
Local Open Scope Q_scope.

Inductive DragMode := ModeY | ModeXZ.       (* "Y" | "XZ" *)

(** The refs of the component. *)
Record Refs := mkRefs {
  draggingRef : bool;
  dragYRef : option Q;
  dragPosRef : option Vec3;
  lastPointerRef : option (Q * Q);
  arrowDownRef : bool;
  dragModeRef : option DragMode;
  dragOffsetRef : option Vec3
}.

Definition initialRefs : Refs := mkRefs false None None None false None None.

(** A pointer event, with the ray the raycaster builds from it. *)
Record PointerEvent := mkPointer {
  button : Z;
  clientX : Q;
  clientY : Q;
  ray : Ray
}.

(** A node of the scene graph as the handler reads it: its identity, its
    [userData.uploadId] and what [getWorldPosition] returns for it.  Where
    the node hangs, and how its world position follows from its parent and
    from the uploads state, is the matter of [Stage] below, which builds
    these nodes from the scene. *)
Record Object3D := mkObject {
  uuid : N;
  uploadId : option string;          (* [userData.uploadId] *)
  worldPosition : Vec3               (* [getWorldPosition] *)
}.

(** One entry of [raycaster.intersectObjects]: the object hit, followed by its
    parents up to the root. *)
Definition Hit := list Object3D.

Definition isAgv (agv : option N) (cur : Object3D) : bool :=
  match agv with
  | Some a => N.eqb (uuid cur) a
  | None => false
  end.

(** The [while (cur)] loop of [onPointerDown]. *)
Fixpoint findUpload (agv : option N) (chain : Hit) : option (string * Vec3) :=
  match chain with
  | [] => None
  | cur :: parents =>
      if isAgv agv cur then None
      else if truthy (uploadId cur) then
        match uploadId cur with
        | Some i => Some (i, worldPosition cur)
        | None => None
        end
      else findUpload agv parents
  end.

(** The [for (const h of hits)] loop of [onPointerDown]. *)
Fixpoint firstUpload (agv : option N) (hits : list Hit) : option (string * Vec3) :=
  match hits with
  | [] => None
  | h :: rest =>
      match findUpload agv h with
      | Some r => Some r
      | None => firstUpload agv rest
      end
  end.

(** The component together with the page it reports to. *)
Record World := mkWorld { page : Page; refs : Refs }.

Definition onKeyDown (c : string) (w : World) : World :=
  if String.eqb c "ArrowDown" then
    let r := refs w in
    mkWorld (page w)
      (mkRefs (draggingRef r) (dragYRef r) (dragPosRef r) (lastPointerRef r)
         true (dragModeRef r) (dragOffsetRef r))
  else w.

Definition onKeyUp (c : string) (w : World) : World :=
  if String.eqb c "ArrowDown" then
    let r := refs w in
    mkWorld (page w)
      (mkRefs (draggingRef r) (dragYRef r) (dragPosRef r) (lastPointerRef r)
         false (dragModeRef r) (dragOffsetRef r))
  else w.

(** The offset stored at grab: entity XZ minus the plane point under the
    pointer, or zero when the ray misses the plane. *)
Definition grabOffset (wp : Vec3) (r : Ray) : Vec3 :=
  match intersectPlane r (vy wp) with
  | Some point => mkVec3 (vx wp - vx point) 0 (vz wp - vz point)
  | None => mkVec3 0 0 0
  end.

(** [onPointerDown]: only the primary button counts; the first hit that has
    an upload below the vehicle node arms the session, and [onPick] is told;
    without such a hit [onPick(null)] is called and the refs are left alone.
    [agv] is the uuid of [agvRef.current]. *)
Definition onPointerDown (agv : option N) (e : PointerEvent) (hits : list Hit)
  (w : World) : World :=
  if negb (Z.eqb (button e) 0) then w
  else
    match firstUpload agv hits with
    | Some (i, wp) =>
        mkWorld (onPick (Some i) (page w))
          (mkRefs true (Some (vy wp)) (Some wp) (Some (clientX e, clientY e))
             (arrowDownRef (refs w)) None (Some (grabOffset wp (ray e))))
    | None => mkWorld (onPick None (page w)) (refs w)
    end.

(** [pointerup] and [pointerleave] share this handler. *)
Definition onPointerUp (w : World) : World :=
  mkWorld (if draggingRef (refs w) then onDrop (page w) else page w)
    (mkRefs false None None None (arrowDownRef (refs w)) None None).

(** The mode after the disambiguation at the head of [onPointerMove]. *)
Definition chooseMode (r : Refs) (e : PointerEvent) : option DragMode :=
  let last := match lastPointerRef r with
              | Some l => l
              | None => (clientX e, clientY e)
              end in
  match dragModeRef r with
  | None =>
      if negb (arrowDownRef r) then
        let dx := Qabs (clientX e - fst last) in
        let dy := Qabs (clientY e - snd last) in
        Some (if Qltb (dx * 1.3) dy then ModeY else ModeXZ)
      else None
  | Some m => Some m
  end.

Definition isY (m : option DragMode) : bool :=
  match m with Some ModeY => true | _ => false end.

(** The branch of [onPointerMove] that moves the entity: the vertical one when
    [arrowDownRef.current || dragModeRef.current === "Y"], the horizontal one
    otherwise. *)
Definition moveAxis (r : Refs) (e : PointerEvent) : DragMode :=
  if arrowDownRef r || isY (chooseMode r e) then ModeY else ModeXZ.

(** [onPointerMove]: nothing while no session is armed.  The vertical branch
    changes the height by [-dy * 0.02] and keeps X and Z; the horizontal branch
    casts the pointer ray on the plane at [dragYRef] and, when the ray misses
    it, only records the pointer.  [groundY] is the prop, [agvPos[1]]. *)
Definition onPointerMove (e : PointerEvent) (w : World) : World :=
  let r := refs w in
  if negb (draggingRef r) then w
  else
    let groundY := vy (agvPos (page w)) in
    let currentPos := match dragPosRef r with
                      | Some c => c
                      | None => mkVec3 0 groundY 0
                      end in
    let last := match lastPointerRef r with
                | Some l => l
                | None => (clientX e, clientY e)
                end in
    let mode := chooseMode r e in
    match moveAxis r e with
    | ModeY =>
        let dy := clientY e - snd last in
        let nextY := vy currentPos - dy * 0.02 in
        let next := mkVec3 (vx currentPos) nextY (vz currentPos) in
        mkWorld (onMove next (page w))
          (mkRefs (draggingRef r) (dragYRef r) (Some next)
             (Some (clientX e, clientY e)) (arrowDownRef r) mode (dragOffsetRef r))
    | ModeXZ =>
        let planeY := match dragYRef r with
                      | Some h => h
                      | None => vy currentPos
                      end in
        match intersectPlane (ray e) planeY with
        | Some point =>
            let offset := match dragOffsetRef r with
                          | Some o => o
                          | None => mkVec3 0 0 0
                          end in
            let next := mkVec3 (vx point + vx offset) planeY (vz point + vz offset) in
            mkWorld (onMove next (page w))
              (mkRefs (draggingRef r) (dragYRef r) (Some next)
                 (Some (clientX e, clientY e)) (arrowDownRef r) mode (dragOffsetRef r))
        | None =>
            mkWorld (page w)
              (mkRefs (draggingRef r) (dragYRef r) (dragPosRef r)
                 (Some (clientX e, clientY e)) (arrowDownRef r) mode (dragOffsetRef r))
        end
    end.

(** The events the component and the page listen to, for the component
    taken on its own: a key reaches the listener of [DragMove] only, and the
    hits of a pointer-down are given.  [Stage] below runs the whole window,
    where the same keydown also reaches the toggle and the undo listener, and
    takes the hits from the scene. *)
Inductive Event :=
  | KeyDown (c : string)
  | KeyUp (c : string)
  | PointerDown (agv : option N) (e : PointerEvent) (hits : list Hit)
  | PointerMove (e : PointerEvent)
  | PointerUp
  | PointerLeave
  | Undo (e : KeyboardEvent).

Definition step (w : World) (ev : Event) : World :=
  match ev with
  | KeyDown c => onKeyDown c w
  | KeyUp c => onKeyUp c w
  | PointerDown agv e hits => onPointerDown agv e hits w
  | PointerMove e => onPointerMove e w
  | PointerUp | PointerLeave => onPointerUp w
  | Undo e => mkWorld (onUndo e (page w)) (refs w)
  end.

Definition run (w : World) (evs : list Event) : World := List.fold_left step evs w.

(** Events that neither start nor end a session. *)
Definition midDrag (ev : Event) : bool :=
  match ev with
  | KeyDown _ | KeyUp _ | PointerMove _ => true
  | _ => false
  end.

Definition isKey (ev : Event) : bool :=
  match ev with
  | KeyDown _ | KeyUp _ => true
  | _ => false
  end.

Definition isDrop (ev : Event) : bool :=
  match ev with
  | PointerUp | PointerLeave => true
  | _ => false
  end.

(** The entity a primary-button pointer-down grabs, with its world position. *)
Definition grabbed (ev : Event) : option (string * Vec3) :=
  match ev with
  | PointerDown agv e hits =>
      if Z.eqb (button e) 0 then firstUpload agv hits else None
  | _ => None
  end.

(** A primary-button pointer-down that hits no draggable entity. *)
Definition missed (ev : Event) : bool :=
  match ev with
  | PointerDown agv e hits =>
      Z.eqb (button e) 0
      && match firstUpload agv hits with Some _ => false | None => true end
  | _ => false
  end.

(** One grab-drag-drop cycle, as a list of events. *)
Definition dragCycle (c : Event * list Event * Event) : list Event :=
  let '(down, mid, drop) := c in down :: mid ++ [drop].

Definition validCycle (c : Event * list Event * Event) : bool :=
  let '(down, mid, drop) := c in
  match grabbed down with Some _ => true | None => false end
  && List.forallb midDrag mid && isDrop drop.

(** *** Notions used to state the properties *)

(** The fields that stay as they are from the grab to the drop. *)
Definition sameSession (w w' : World) : Prop :=
  uploadHistoryRef (page w') = uploadHistoryRef (page w)
  /\ pendingUndoRef (page w') = pendingUndoRef (page w)
  /\ draggedUploadId (page w') = draggedUploadId (page w)
  /\ draggingRef (refs w') = draggingRef (refs w)
  /\ dragYRef (refs w') = dragYRef (refs w)
  /\ dragOffsetRef (refs w') = dragOffsetRef (refs w).

End DragMove.

(** ** The attach/carry toggle and the rule editor *)

Module Attach.

Import Geometry PageState.
Local Open Scope Q_scope.

(** Where an uploaded object hangs in the scene graph. *)
Inductive Parent := SceneRoot | Vehicle.

(** The [THREE.Group] of an upload: its parent and its local position. *)
Record Group := mkGroup { parent : Parent; localPosition : Vec3 }.

(** The vehicle node: a child of the scene root that the controller moves and
    turns about the vertical axis ([agv.rotation.y]). *)
Record Agv := mkAgv { agvPosition : Vec3; rotationY : Q }.

Record Scene := mkScene {
  agvRef : option Agv;
  uploadObjectMapRef : gmap string Group
}.

(** *** A JavaScript [Set] of strings, in insertion order *)

Definition setHas (s : list string) (a : string) : bool :=
  List.existsb (String.eqb a) s.

Definition setAdd (s : list string) (a : string) : list string :=
  if setHas s a then s else s ++ [a].

Definition setDelete (s : list string) (a : string) : list string :=
  List.filter (fun b => negb (String.eqb b a)) s.

(** [new Set(iterable)] *)
Definition setFrom (l : list string) : list string := List.fold_left setAdd l [].

Section Trig.

(** [Math.cos] and [Math.sin], which three.js uses to build the vehicle's
    world matrix from its yaw. *)
Variables cos sin : Q -> Q.

(** The rotation about Y that [Matrix4.makeRotationFromEuler] builds. *)
Definition rotateY (theta : Q) (v : Vec3) : Vec3 :=
  mkVec3 (cos theta * vx v + sin theta * vz v)
         (vy v)
         (- sin theta * vx v + cos theta * vz v).

(** A point of the vehicle's frame, in the world. *)
Definition localToWorld (agv : Agv) (v : Vec3) : Vec3 :=
  let r := rotateY (rotationY agv) v in
  mkVec3 (vx (agvPosition agv) + vx r)
         (vy (agvPosition agv) + vy r)
         (vz (agvPosition agv) + vz r).

(** [obj.getWorldPosition(...)] *)
Definition getWorldPosition (agv : Agv) (obj : Group) : Vec3 :=
  match parent obj with
  | SceneRoot => localPosition obj
  | Vehicle => localToWorld agv (localPosition obj)
  end.

(** [scene.attach(obj)]: reparent under the root and keep the world
    position.  The handler reaches the root through [sceneRef.current] or,
    failing that, through the vehicle's parent: the same node. *)
Definition attachToScene (agv : Agv) (obj : Group) : Group :=
  mkGroup SceneRoot (getWorldPosition agv obj).

(** [agv.add(obj); obj.position.set(...)] *)
Definition addToVehicle (local : Vec3) (obj : Group) : Group :=
  mkGroup Vehicle local.

(** The state the loop of the toggle works on: the set [nextCarried], the
    scene objects it reparents and the queued [setUploads] updates. *)
Record Loop := mkLoop {
  nextCarried : list string;
  objects : gmap string Group;
  nextUploads : list UploadedGlb
}.

Definition pickRadius : Q := 2.

(** [Math.sqrt(dx * dx + dz * dz) > pickRadius], as a comparison of squares. *)
Definition tooFar (world agvPos : Vec3) : bool :=
  let dx := vx world - vx agvPos in
  let dz := vz world - vz agvPos in
  Qltb (pickRadius * pickRadius) (dx * dx + dz * dz).

(** The body of [for (const rule of attachRules)]. *)
Definition toggleRule (agv : Agv) (agvPos : Vec3) (st : Loop) (rule : AttachRule)
  : Loop :=
  match objects st !! rule_id rule with
  | None => st
  | Some obj =>
      if setHas (nextCarried st) (rule_id rule) then
        let world := getWorldPosition agv obj in
        let newPos := world in
        mkLoop (setDelete (nextCarried st) (rule_id rule))
          (<[rule_id rule := attachToScene agv obj]> (objects st))
          (moveUpload (rule_id rule) newPos (nextUploads st))
      else
        let world := getWorldPosition agv obj in
        if tooFar world agvPos then st
        else
          mkLoop (setAdd (nextCarried st) (rule_id rule))
            (<[rule_id rule := addToVehicle (offset rule) obj]> (objects st))
            (moveUpload (rule_id rule) (offset rule) (nextUploads st))
  end.

Definition loopStart (p : Page) (sc : Scene) : Loop :=
  mkLoop (setFrom (carriedIds p)) (uploadObjectMapRef sc) (uploads p).

Definition loopEnd (p : Page) (sc : Scene) (st : Loop) : Page * Scene :=
  (setCarriedIds (nextCarried st) (setUploads (fun _ => nextUploads st) p),
   mkScene (agvRef sc) (objects st)).

(** The [keydown] listener of the toggle. *)
Definition onKeyQ (c : string) (p : Page) (sc : Scene) : Page * Scene :=
  if negb (String.eqb c "KeyQ") then (p, sc)
  else
    match agvRef sc with
    | None => (p, sc)
    | Some agv =>
        loopEnd p sc
          (List.fold_left (toggleRule agv (agvPos p)) (attachRules p) (loopStart p sc))
    end.

(** *** The Add Rule button *)

(** [map.set(r.id, r)] on a [Map] kept as the list of its values. *)
Fixpoint mapSet (m : list AttachRule) (r : AttachRule) : list AttachRule :=
  match m with
  | [] => [r]
  | r' :: m' =>
      if String.eqb (rule_id r') (rule_id r) then r :: m' else r' :: mapSet m' r
  end.

Definition ruleFor (agvPos : Vec3) (sc : Scene) (i : string) : option AttachRule :=
  match agvRef sc, uploadObjectMapRef sc !! i with
  | Some agv, Some obj =>
      let world := getWorldPosition agv obj in
      Some (mkRule i (mkVec3 (vx world - vx agvPos) (vy world - vy agvPos)
                        (vz world - vz agvPos)))
  | None, Some obj =>
      let world := localPosition obj in
      Some (mkRule i (mkVec3 (vx world - vx agvPos) (vy world - vy agvPos)
                        (vz world - vz agvPos)))
  | _, None => None
  end.

Definition onAddRule (p : Page) (sc : Scene) : Page :=
  let rules := List.concat
                 (List.map (fun i => match ruleFor (agvPos p) sc i with
                                     | Some r => [r]
                                     | None => []
                                     end) (selectedUploadIds p)) in
  match rules with
  | [] => p
  | _ => setAttachRules
           (List.fold_left mapSet rules (List.fold_left mapSet (attachRules p) []))
           p
  end.

End Trig.

End Attach.

(** ** The camera rig: [CameraRig] *)

Module CameraRig.

Import Geometry.
Local Open Scope Q_scope.

Inductive CamMode := ORBIT | FOLLOW | FPV.

(** [agv.userData.cam]: every hint may be missing. *)
Record CamHints := mkHints {
  height : option Q;
  depth : option Q;
  centerY : option Q;
  groundY : option Q
}.

(** What a tick reads from the vehicle node. *)
Record AgvNode := mkNode {
  position : Vec3;
  liveForward : option Vec3;     (* [userData.forward] *)
  modelForward : Vec3;           (* (0,0,-1) turned by the quaternion, normalized *)
  cam : option CamHints;         (* [userData.cam] *)
  fpvWorld : option Vec3         (* world position of the child named "fpv" *)
}.

(** [a ?? d] *)
Definition orElse (a : option Q) (d : Q) : Q :=
  match a with Some v => v | None => d end.

Definition hint (f : CamHints -> option Q) (n : AgvNode) (d : Q) : Q :=
  match cam n with
  | Some c => orElse (f c) d
  | None => d
  end.

(** [Vector3.lerp]: [this += (v - this) * alpha], by component. *)
Definition lerp (this v : Vec3) (alpha : Q) : Vec3 :=
  mkVec3 (vx this + (vx v - vx this) * alpha)
         (vy this + (vy v - vy this) * alpha)
         (vz this + (vz v - vz this) * alpha).

Section Host.

(** [Math.pow], and the camera position [OrbitControls.update] leaves. *)
Variable pow : Q -> Q -> Q.
Variable orbitUpdate : Vec3 -> Vec3.

(** The point the FOLLOW branch steers the camera to. *)
Definition followTarget (agv : AgvNode) : Vec3 :=
  let height := hint height agv 2 in
  let depth := hint depth agv 3 in
  let groundY := hint groundY agv (-0.01) in
  let followHeight := Qmax 1.2 (height * 0.9) in
  let followDistance := Qmax 3 (depth * 1.6) in
  let forward := match liveForward agv with
                 | Some f => f
                 | None => modelForward agv
                 end in
  let v := mkVec3 (vx (position agv) + vx forward * - followDistance + 0 * followHeight)
                  (vy (position agv) + vy forward * - followDistance + 1 * followHeight)
                  (vz (position agv) + vz forward * - followDistance + 0 * followHeight) in
  mkVec3 (vx v) (Qmax (vy v) (groundY + 0.2)) (vz v).

(** The point the FPV branch steers the camera to, when the mount exists. *)
Definition fpvTarget (agv : AgvNode) : option Vec3 :=
  let groundY := hint groundY agv (-0.01) in
  match fpvWorld agv with
  | Some v => Some (mkVec3 (vx v) (Qmax (vy v) (groundY + 0.2)) (vz v))
  | None => None
  end.

(** One [useFrame] callback: the camera position after the tick. *)
Definition tick (mode : CamMode) (agvRef : option AgvNode) (camera : Vec3) (dt : Q)
  : Vec3 :=
  match agvRef with
  | None => camera
  | Some agv =>
      match mode with
      | ORBIT => orbitUpdate camera
      | FOLLOW => lerp camera (followTarget agv) (1 - pow 0.001 dt)
      | FPV =>
          match fpvTarget agv with
          | Some v => lerp camera v (1 - pow 0.0001 dt)
          | None => camera
          end
      end
  end.

(** The ground level the rig clamps against. *)
Definition groundLevel (agvRef : option AgvNode) : Q :=
  match agvRef with
  | Some agv => hint groundY agv (-0.01)
  | None => -0.01
  end.

End Host.

End CameraRig.

(** ** The mesh picker: [MeshPicker] *)

Module MeshPicker.

Import Geometry.
Local Open Scope Q_scope.

(** An object under the pointer: its parents up to the root and the size of
    its bounding box ([box.setFromObject(obj).getSize(...)]). *)
Record Object3D := mkObject {
  uuid : N;
  parents : list N;
  size : Vec3
}.

(** [isDescendantOf]: the object itself counts. *)
Definition isDescendantOf (obj : Object3D) (ancestor : N) : bool :=
  N.eqb (uuid obj) ancestor || List.existsb (N.eqb ancestor) (parents obj).

Definition inVehicle (agv : option N) (obj : Object3D) : bool :=
  match agv with
  | Some a => isDescendantOf obj a
  | None => false
  end.

(** A volume, with [None] for [Number.POSITIVE_INFINITY]. *)
Definition Volume := option Q.

(** [size.x * size.y * size.z || Number.POSITIVE_INFINITY] *)
Definition volumeOf (obj : Object3D) : Volume :=
  let v := vx (size obj) * vy (size obj) * vz (size obj) in
  if Qeq_bool v 0 then None else Some v.

(** [a < b] with infinity. *)
Definition volumeLt (a b : Volume) : bool :=
  match a, b with
  | Some x, Some y => Qltb x y
  | Some _, None => true
  | None, _ => false
  end.

(** The [for (const h of hits)] loop, with [best] and [bestVolume]. *)
Fixpoint scan (agv : option N) (hits : list Object3D)
  (best : option Object3D) (bestVolume : Volume) : option Object3D :=
  match hits with
  | [] => best
  | obj :: rest =>
      if inVehicle agv obj then scan agv rest best bestVolume
      else
        let volume := volumeOf obj in
        if volumeLt volume bestVolume then scan agv rest (Some obj) volume
        else scan agv rest best bestVolume
  end.

(** The object [hit] of [onPointerMove]; [None] when nothing is under the
    pointer and the handler returns early. *)
Definition pickHit (agv : option N) (hits : list Object3D) : option Object3D :=
  match hits with
  | [] => None
  | first :: _ =>
      match scan agv hits None None with
      | Some best => Some best
      | None => Some first
      end
  end.

(** *** Notions used to state the properties *)

(** [a <= b] on volumes, [None] being infinity. *)
Definition volumeLe (a b : Volume) : Prop :=
  match a, b with
  | _, None => True
  | None, Some _ => False
  | Some x, Some y => x <= y
  end.

(** The volume of the best candidate so far. *)
Definition bestVolumeOf (best : option Object3D) : Volume :=
  match best with
  | Some b => volumeOf b
  | None => None
  end.

(** A candidate the loop may keep: outside the vehicle, with a volume. *)
Definition eligible (agv : option N) (obj : Object3D) : Prop :=
  inVehicle agv obj = false /\ volumeOf obj <> None.

End MeshPicker.

(** ** The delete route: [src/app/api/delete/route.ts] *)

Module DeleteRoute.

Import Upload.
Local Open Scope string_scope.

(** The request body after [req.json().catch(() => null)], as far as the
    handler looks at it. *)
Inductive Body :=
  | NoJson                      (* not JSON: the catch yields null *)
  | NoUrl                       (* an object without [url] *)
  | Url (u : string).

Inductive Response :=
  | BadRequest (error : string)              (* status 400 *)
  | Done.                                    (* { ok: true } *)

(** The path handed to [unlink], if any (its failure is swallowed), and the
    response. *)
Record Outcome := {
  unlinked : option string;
  response : Response
}.

Definition POST (cwd : string) (body : Body) : Outcome :=
  match body with
  | Url url =>
      if negb (nonempty url) then
        {| unlinked := None; response := BadRequest "No url provided" |}
      else
        let name := basename url in
        let filePath := join [cwd; "public"; "uploads"; name] in
        {| unlinked := Some filePath; response := Done |}
  | NoJson | NoUrl =>
      {| unlinked := None; response := BadRequest "No url provided" |}
  end.

(** *** Notions used to state the properties *)

(** Every character is of the class [[a-zA-Z0-9._-]]. *)
Fixpoint all_allowed (s : string) : bool :=
  match s with
  | EmptyString => true
  | String c s' => allowed c && all_allowed s'
  end.

End DeleteRoute.

(** ** Notions used to state further properties of the drag controller *)

Module DragNotions.

Import Geometry PageState DragMove.

(** [u'] is [u] with, at most, another position; and it is [u] itself unless
    [u] is the upload being dragged. *)
Definition keptExceptPosition (dragged : option string) (u u' : UploadedGlb) : Prop :=
  id u' = id u /\ name u' = name u /\ url u' = url u /\ scale u' = scale u
  /\ (dragged <> Some (id u) -> u' = u).


End DragNotions.

(** ** The vehicle controller: [useKeys], [AGV] and [AGVTelemetry] *)

Module Vehicle.

Import Geometry Attach.
Local Open Scope Q_scope.

(** [keys.current]: the object [useKeys] fills, one entry per key code. *)
Definition Keys := gmap string bool.

(** The [keydown] and [keyup] listeners of [useKeys]. *)
Definition keyDown (code : string) (k : Keys) : Keys := <[code := true]> k.
Definition keyUp (code : string) (k : Keys) : Keys := <[code := false]> k.

(** The truthiness of [keys.current[code]]: a missing entry is falsy. *)
Definition held (k : Keys) (code : string) : bool :=
  match k !! code with
  | Some b => b
  | None => false
  end.

(** [(keys.current[plus] ? 1 : 0) - (keys.current[minus] ? 1 : 0)] *)
Definition axis (k : Keys) (plus minus : string) : Q :=
  (if held k plus then 1 else 0) - (if held k minus then 1 else 0).

(** [THREE.MathUtils.lerp] *)
Definition mlerp (x y t : Q) : Q := (1 - t) * x + t * y.

(** [Math.round]: the nearest integer, halves upwards. *)
Definition round (x : Q) : Q := inject_Z (Qfloor (x + 0.5)).

(** [Vector3.addScaledVector] *)
Definition addScaledVector (p v : Vec3) (s : Q) : Vec3 :=
  mkVec3 (vx p + vx v * s) (vy p + vy v * s) (vz p + vz v * s).

(** [Vector3.multiplyScalar] *)
Definition multiplyScalar (v : Vec3) (s : Q) : Vec3 :=
  mkVec3 (vx v * s) (vy v * s) (vz v * s).

Record Bullet := mkBullet { pos : Vec3; vel : Vec3; life : Q }.

(** The refs of [AGV] that its frame callback reads and writes, with the
    vehicle node and the keys. *)
Record Controller := mkController {
  agv : option Agv;              (* [agvRef.current] *)
  forward : option Vec3;         (* [agv.userData.forward], read by the camera rig *)
  keys : Keys;
  speed : Q;
  turn : Q;
  rise : Q;
  bullets : list Bullet;
  lastShotAt : Q
}.

Definition groundY : Q := -0.01.
Definition shootCooldown : Q := 0.08.

(** The body of the loop over the bullets, for one of them. *)
Definition advance (dt : Q) (b : Bullet) : Bullet :=
  let p := addScaledVector (pos b) (vel b) dt in
  mkBullet (mkVec3 (vx p) (Qmax (vy p) (groundY + 0.25)) (vz p)) (vel b) (life b - dt).

(** The loop over the bullets: from the last to the first, each is advanced
    and spliced out once its life is used up. *)
Definition updateBullets (dt : Q) (bs : list Bullet) : list Bullet :=
  List.fold_right
    (fun b rest => let b' := advance dt b in
                   if Qle_bool (life b') 0 then rest else b' :: rest)
    [] bs.

Section Host.

(** [Math.cos] and [Math.sin] behind the vehicle's quaternion,
    [Vector3.normalize], the [flyMode] prop and the nozzle of the model. *)
Variables cos sin : Q -> Q.
Variable normalize : Vec3 -> Vec3.
Variable flyMode : bool.
Variable nozzleLocal : Vec3.

(** The frame callback of [AGV], with the frame's [dt] and the clock
    [performance.now() / 1000].  The beep and the wheel spin, which nothing
    else reads, are left out. *)
Definition useFrame (dt now : Q) (c : Controller) : Controller :=
  match agv c with
  | None => c
  | Some a =>
      let f := axis (keys c) "KeyW" "KeyS" in
      let r := axis (keys c) "KeyD" "KeyA" in
      let u := axis (keys c) "KeyR" "KeyF" in
      let firing := held (keys c) "Space" in
      let speed' := mlerp (speed c) (f * 3) 0.1 in
      let turn' := mlerp (turn c) (r * 2) 0.1 in
      let rise' := mlerp (rise c) (u * 2) 0.1 in
      let theta := rotationY a - turn' * dt in
      let dir := rotateY cos sin theta (mkVec3 0 0 (-1)) in
      let p1 := addScaledVector (agvPosition a) dir (speed' * dt) in
      let p2 :=
        if flyMode then
          let y := vy p1 + rise' * dt in
          mkVec3 (vx p1) (if Qeq_bool u 0 then y else round (y * 100) / 100) (vz p1)
        else p1 in
      let a' := mkAgv p2 theta in
      let shoot := firing && Qle_bool shootCooldown (now - lastShotAt c) in
      let fired :=
        if shoot then
          (bullets c ++
           [mkBullet (localToWorld cos sin a' nozzleLocal)
              (multiplyScalar (normalize (rotateY cos sin theta (mkVec3 1 0 0))) 12)
              1.2])%list
        else bullets c in
      mkController (Some a') (Some (normalize dir)) (keys c) speed' turn' rise'
        (updateBullets dt fired) (if shoot then now else lastShotAt c)
  end.

Inductive Event :=
  | KeyDown (code : string)
  | KeyUp (code : string)
  | Frame (dt now : Q).

Definition step (c : Controller) (ev : Event) : Controller :=
  match ev with
  | KeyDown code =>
      mkController (agv c) (forward c) (keyDown code (keys c)) (speed c) (turn c)
        (rise c) (bullets c) (lastShotAt c)
  | KeyUp code =>
      mkController (agv c) (forward c) (keyUp code (keys c)) (speed c) (turn c)
        (rise c) (bullets c) (lastShotAt c)
  | Frame dt now => useFrame dt now c
  end.

Definition run (c : Controller) (evs : list Event) : Controller :=
  List.fold_left step evs c.

End Host.

(** *** Notions used to state the properties *)

(** The three smoothed commands are within their full-throttle values. *)
Definition withinLimits (c : Controller) : Prop :=
  (-3 <= speed c /\ speed c <= 3)
  /\ (-2 <= turn c /\ turn c <= 2)
  /\ (-2 <= rise c /\ rise c <= 2).

(** A bullet in flight: some life left, at most the initial one, and not
    under the floor. *)
Definition inFlight (b : Bullet) : Prop :=
  0 < life b /\ life b <= 1.2 /\ groundY + 0.25 <= vy (pos b).

(** No frame runs time backwards. *)
Definition forwardTime (ev : Event) : Prop :=
  match ev with
  | Frame dt _ => 0 <= dt
  | _ => True
  end.

(** The frame time the events add up to. *)
Definition elapsed (evs : list Event) : Q :=
  List.fold_right (fun ev t => match ev with Frame dt _ => dt + t | _ => t end) 0 evs.

(** The event does not press the trigger. *)
Definition noTrigger (ev : Event) : bool :=
  match ev with
  | KeyDown code => negb (String.eqb code "Space")
  | _ => true
  end.

End Vehicle.

(** ** Telemetry: [AGVTelemetry] *)

Module Telemetry.

Import Geometry.
Local Open Scope Q_scope.

(** The accumulator ref and the positions handed to [onUpdate] so far, the
    latest first. *)
Record State := mkState { acc : Q; published : list Vec3 }.

(** The frame callback, with the frame's [dt] and the position of the vehicle
    node, if it is mounted. *)
Definition useFrame (dt : Q) (agv : option Vec3) (s : State) : State :=
  let acc' := acc s + dt in
  if Qltb acc' 0.1 then mkState acc' (published s)
  else
    match agv with
    | None => mkState 0 (published s)
    | Some p => mkState 0 (p :: published s)
    end.

Definition run (s : State) (frames : list (Q * option Vec3)) : State :=
  List.fold_left (fun s fr => useFrame (fst fr) (snd fr) s) frames s.

(** The frame time the frames add up to. *)
Definition elapsed (frames : list (Q * option Vec3)) : Q :=
  List.fold_right (fun fr t => fst fr + t) 0 frames.

End Telemetry.

(** ** The pickup advisory: the effect of [Page] that sets [pickupNotice] *)

Module Advisory.

Import Geometry PageState Attach.
Local Open Scope Q_scope.

(** [carriedIds.includes(id)] *)
Definition includes (l : list string) (a : string) : bool :=
  List.existsb (String.eqb a) l.

Definition takeNotice : string := "Apakah kamu mau mengambil benda ini? (Q)".
Definition dropNotice : string := "Press Q to drop".

Section Trig.

Variables cos sin : Q -> Q.

(** [obj.getWorldPosition(...)], for an object of the upload map. *)
Definition worldOf (sc : Scene) (obj : Group) : Vec3 :=
  match agvRef sc with
  | Some agv => getWorldPosition cos sin agv obj
  | None => localPosition obj
  end.

(** The body of the loop for one rule: does it set [near]?  The distance test
    [Math.sqrt(dx * dx + dz * dz) <= pickRadius] is a comparison of squares. *)
Definition nearRule (p : Page) (sc : Scene) (rule : AttachRule) : bool :=
  if includes (carriedIds p) (rule_id rule) then false
  else
    let world := match uploadObjectMapRef sc !! rule_id rule with
                 | Some obj => Some (worldOf sc obj)
                 | None => None
                 end in
    let tx := match world with Some w => vx w | None => 0 end in
    let tz := match world with Some w => vz w | None => 0 end in
    let dx := tx - vx (agvPos p) in
    let dz := tz - vz (agvPos p) in
    Qle_bool (dx * dx + dz * dz) (pickRadius * pickRadius).

(** The loop stops at the first rule that sets [near]. *)
Definition near (p : Page) (sc : Scene) : bool :=
  List.existsb (nearRule p sc) (attachRules p).

(** The value the effect hands to [setPickupNotice]. *)
Definition pickupNotice (p : Page) (sc : Scene) : string :=
  if near p sc then takeNotice
  else
    match carriedIds p with
    | _ :: _ => dropNotice
    | [] => EmptyString
    end.

End Trig.

(** *** Notions used to state the properties *)

(** [u'] is [u] with, at most, another position; and it is [u] itself unless
    its id is one of [ids]. *)
Definition movedOnly (ids : list string) (u u' : UploadedGlb) : Prop :=
  id u' = id u /\ name u' = name u /\ url u' = url u /\ scale u' = scale u
  /\ (~ In (id u) ids -> u' = u).

End Advisory.

(** ** Hiding scene objects: the hidden-uuid ledger of [Page] *)

Module Visibility.

Import Advisory.
Local Open Scope string_scope.

(** The objects of the scene by uuid, as [getObjectByProperty("uuid", ...)]
    finds them, each with its [visible] flag. *)
Abbreviation Objects := (gmap string bool).

(** [if (obj) obj.visible = v] *)
Definition setVisible (v : bool) (uuid : string) (objs : Objects) : Objects :=
  alter (fun _ => v) uuid objs.

(** [uuids.forEach((uuid) => { ...; if (obj) obj.visible = v; })] *)
Definition setAllVisible (v : bool) (uuids : list string) (objs : Objects) : Objects :=
  List.fold_left (fun m u => setVisible v u m) uuids objs.

Record State := mkState {
  sceneRef : bool;                       (* is [sceneRef.current] set? *)
  objects : Objects;
  hiddenUuids : list string;
  storedHidden : option (list string)    (* the item "agv_hidden_uuids" *)
}.

(** The effect that runs when [hiddenUuids] is replaced. *)
Definition hiddenEffect (s : State) : State :=
  mkState (sceneRef s)
    (if sceneRef s then setAllVisible false (hiddenUuids s) (objects s) else objects s)
    (hiddenUuids s)
    (Some (hiddenUuids s)).

(** The click handler of Hide Now; [hovered] is [hoveredMesh.uuid].  When the
    uuid is in the list already the updater returns [prev] itself and the
    effect does not run. *)
Definition hideNow (hovered : string) (s : State) : State :=
  if negb (sceneRef s) then s
  else
    match objects s !! hovered with
    | None => s
    | Some _ =>
        let objs := setVisible false hovered (objects s) in
        if includes (hiddenUuids s) hovered then
          mkState (sceneRef s) objs (hiddenUuids s) (storedHidden s)
        else
          hiddenEffect
            (mkState (sceneRef s) objs (hiddenUuids s ++ [hovered]) (storedHidden s))
    end.

(** The [keydown] listener [onHide]. *)
Definition onHide (code hovered : string) (s : State) : State :=
  if negb (String.eqb code "Delete") && negb (String.eqb code "KeyX") then s
  else if negb (sceneRef s) then s
  else if negb (Upload.nonempty hovered) then s
  else hideNow hovered s.


Inductive Event :=
  | KeyDown (code hovered : string)
  | HideNow (hovered : string).

Definition step (s : State) (ev : Event) : State :=
  match ev with
  | KeyDown code hovered => onHide code hovered s
  | HideNow hovered => hideNow hovered s
  end.

Definition run (s : State) (evs : list Event) : State := List.fold_left step evs s.

(** *** Notions used to state the properties *)


(** The list names no uuid twice, and names hidden objects only. *)
Definition ledgerSound (s : State) : Prop :=
  List.NoDup (hiddenUuids s)
  /\ forall u v, In u (hiddenUuids s) -> objects s !! u = Some v -> v = false.

(** The uuid under the pointer at the event. *)
Definition hoveredAt (ev : Event) : string :=
  match ev with
  | KeyDown _ hovered => hovered
  | HideNow hovered => hovered
  end.

End Visibility.

(** ** The import panel: [CursorTracker], Import GLB, the scale slider, Hapus *)

Module Library.

Import Geometry PageState Upload.
Local Open Scope string_scope.

(** The files on the server's disk, by path. *)
Abbreviation Disk := (gmap string (list Byte.byte)).

Record Client := mkClient {
  page : Page;
  cursorPosRef : Vec3;
  agvPosition : option Vec3;       (* the position of [agvRef.current] *)
  uploadStatus : string;
  disk : Disk
}.

Definition groundY : Q := (-0.01)%Q.

(** [CursorTracker]: the pointer's point on the ground plane. *)
Definition onCursorMove (r : Ray) (c : Client) : Client :=
  match intersectPlane r groundY with
  | Some point =>
      mkClient (page c) (mkVec3 (vx point) groundY (vz point)) (agvPosition c)
        (uploadStatus c) (disk c)
  | None => c
  end.

(** The [onChange] of the file input; the request is answered by the upload
    route, whose [writeFile] creates or replaces the file.  [serverNow] and
    [clientNow] are the two values of [Date.now()]. *)
Definition onImport (cwd : string) (serverNow clientNow : Z)
  (file : option (string * list Byte.byte)) (c : Client) : Client :=
  match file with
  | None => c
  | Some (fname, buf) =>
      let out := Upload.POST cwd serverNow (FileValue fname buf) in
      let disk' := match written out with
                   | Some (path, content) => <[path := content]> (disk c)
                   | None => disk c
                   end in
      match response out with
      | BadRequest _ =>
          mkClient (page c) (cursorPosRef c) (agvPosition c) "Upload failed: 400" disk'
      | Ok url name =>
          let position := match agvPosition c with
                          | Some p => p
                          | None => cursorPosRef c
                          end in
          let scale := 1%Q in
          mkClient
            (setUploads
               (fun prev => prev ++ [mkUpload (name ++ "-" ++ show_number clientNow)
                                       name url position scale])%list
               (page c))
            (cursorPosRef c) (agvPosition c) "Upload success" disk'
      end
  end.

(** The [onChange] of the scale slider of upload [u]. *)
Definition onScale (u : UploadedGlb) (next : Q) (c : Client) : Client :=
  mkClient
    (setUploads
       (List.map (fun p => if String.eqb (id p) (id u)
                           then mkUpload (id p) (name p) (url p) (position p) next
                           else p))
       (page c))
    (cursorPosRef c) (agvPosition c) (uploadStatus c) (disk c).

(** The click handler of Hapus on upload [u]; the request is answered by the
    delete route, whose [unlink] removes the file if it is there. *)
Definition onRemove (cwd : string) (u : UploadedGlb) (c : Client) : Client :=
  let p1 := setUploads (List.filter (fun p => negb (String.eqb (id p) (id u)))) (page c) in
  let out := DeleteRoute.POST cwd (DeleteRoute.Url (url u)) in
  let disk' := match DeleteRoute.unlinked out with
               | Some path => delete path (disk c)
               | None => disk c
               end in
  let p2 := match draggedUploadId (page c) with
            | Some d => if String.eqb d (id u) then setDraggedUploadId None p1 else p1
            | None => p1
            end in
  mkClient p2 (cursorPosRef c) (agvPosition c) (uploadStatus c) disk'.

Inductive Event :=
  | CursorMove (r : Ray)
  | Import (serverNow clientNow : Z) (file : option (string * list Byte.byte))
  | Scale (u : UploadedGlb) (next : Q)
  | Remove (u : UploadedGlb).

Definition step (cwd : string) (c : Client) (ev : Event) : Client :=
  match ev with
  | CursorMove r => onCursorMove r c
  | Import serverNow clientNow file => onImport cwd serverNow clientNow file c
  | Scale u next => onScale u next c
  | Remove u => onRemove cwd u c
  end.

Definition run (cwd : string) (c : Client) (evs : list Event) : Client :=
  List.fold_left (step cwd) evs c.

(** *** Notions used to state the properties *)

(** An upload as Import GLB makes them: served from [/uploads/] under its
    name, a proper path segment. *)
Definition imported (u : UploadedGlb) : Prop :=
  url u = "/uploads/" ++ name u /\ proper (name u) = true.

(** Hapus is only offered for the uploads in the list. *)
Fixpoint listed (cwd : string) (c : Client) (evs : list Event) : Prop :=
  match evs with
  | [] => True
  | ev :: evs' =>
      match ev with
      | Remove u => In u (uploads (page c))
      | _ => True
      end
      /\ listed cwd (step cwd c ev) evs'
  end.

End Library.

(** ** The group manager of [Page] *)

Module Groups.

Import Visibility.
Local Open Scope string_scope.

Inductive Kind := KindUpload | KindUuid.

Record Item := mkItem { kind : Kind; item_id : string }.

Record Group := mkGroup {
  id : string;
  name : string;
  hidden : bool;
  items : list Item
}.

(** The state the group manager works on.  The objects of the uploads are
    objects of the scene: the upload map gives the uuid of each. *)
Record State := mkState {
  groups : list Group;
  groupName : string;
  selectedGroupId : option string;
  sceneRef : bool;                              (* is [sceneRef.current] set? *)
  objects : Objects;
  uploadObjectMapRef : gmap string string;
  storedGroups : option (list Group)            (* the item "agv_groups" *)
}.

(** [g.items.some((i) => i.id === x)] *)
Definition someId (its : list Item) (x : string) : bool :=
  List.existsb (fun i => String.eqb (item_id i) x) its.

(** The object an item stands for, by uuid. *)
Definition resolve (m : gmap string string) (it : Item) : option string :=
  match kind it with
  | KindUpload => m !! item_id it
  | KindUuid => Some (item_id it)
  end.

(** The effect that runs when [groups] is replaced. *)
Definition showItem (m : gmap string string) (h : bool) (objs : Objects) (it : Item)
  : Objects :=
  match resolve m it with
  | Some uuid => setVisible (negb h) uuid objs
  | None => objs
  end.

Definition showGroup (m : gmap string string) (objs : Objects) (g : Group) : Objects :=
  List.fold_left (showItem m (hidden g)) (items g) objs.

Definition groupsEffect (s : State) : State :=
  mkState (groups s) (groupName s) (selectedGroupId s) (sceneRef s)
    (if sceneRef s
     then List.fold_left (showGroup (uploadObjectMapRef s)) (groups s) (objects s)
     else objects s)
    (uploadObjectMapRef s) (Some (groups s)).

Definition setGroups (f : list Group -> list Group) (s : State) : State :=
  groupsEffect
    (mkState (f (groups s)) (groupName s) (selectedGroupId s) (sceneRef s)
       (objects s) (uploadObjectMapRef s) (storedGroups s)).

(** The updater of the two Add Hovered buttons. *)
Definition addItem (k : Kind) (sel x : string) (prev : list Group) : list Group :=
  List.map (fun g =>
              if negb (String.eqb (id g) sel) then g
              else if someId (items g) x then g
              else mkGroup (id g) (name g) (hidden g) (items g ++ [mkItem k x])%list)
           prev.

(** The updater of Add Selected Uploads: the set [existing] is built once,
    before the selected ids are pushed. *)
Definition addSelected (sel : string) (selectedUploadIds : list string)
  (prev : list Group) : list Group :=
  List.map (fun g =>
              if negb (String.eqb (id g) sel) then g
              else
                let existing := Attach.setFrom (List.map item_id (items g)) in
                let nextItems :=
                  List.fold_left
                    (fun acc x => if negb (Attach.setHas existing x)
                                  then (acc ++ [mkItem KindUpload x])%list else acc)
                    selectedUploadIds (items g) in
                mkGroup (id g) (name g) (hidden g) nextItems)
           prev.

Section Host.

(** [String.prototype.trim] *)
Variable trim : string -> string.

Inductive Event :=
  | TypeName (value : string)
  | CreateGroup (now : Z)
  | Select (g : string)
  | AddHoveredScene (hoveredUuid : string)
  | AddHoveredUpload (hoverUploadId : option string)
  | AddSelectedUploads (selectedUploadIds : list string)
  | ToggleHidden (g : string)
  | DeleteGroup (g : string).

Definition step (s : State) (ev : Event) : State :=
  match ev with
  | TypeName value =>
      mkState (groups s) value (selectedGroupId s) (sceneRef s) (objects s)
        (uploadObjectMapRef s) (storedGroups s)
  | CreateGroup now =>
      let name := trim (groupName s) in
      if negb (Upload.nonempty name) then s
      else
        let s' := setGroups
                    (fun prev => prev ++ [mkGroup (name ++ "-" ++ Upload.show_number now)
                                            name false []])%list s in
        mkState (groups s') EmptyString (selectedGroupId s') (sceneRef s') (objects s')
          (uploadObjectMapRef s') (storedGroups s')
  | Select g =>
      mkState (groups s) (groupName s) (Some g) (sceneRef s) (objects s)
        (uploadObjectMapRef s) (storedGroups s)
  | AddHoveredScene hoveredUuid =>
      match selectedGroupId s with
      | Some sel =>
          if negb (Upload.nonempty sel) || negb (Upload.nonempty hoveredUuid) then s
          else setGroups (addItem KindUuid sel hoveredUuid) s
      | None => s
      end
  | AddHoveredUpload hoverUploadId =>
      match selectedGroupId s, hoverUploadId with
      | Some sel, Some x =>
          if negb (Upload.nonempty sel) || negb (Upload.nonempty x) then s
          else setGroups (addItem KindUpload sel x) s
      | _, _ => s
      end
  | AddSelectedUploads selectedUploadIds =>
      match selectedGroupId s, selectedUploadIds with
      | Some sel, _ :: _ =>
          if negb (Upload.nonempty sel) then s
          else setGroups (addSelected sel selectedUploadIds) s
      | _, _ => s
      end
  | ToggleHidden g =>
      setGroups
        (List.map (fun x => if String.eqb (id x) g
                            then mkGroup (id x) (name x) (negb (hidden x)) (items x)
                            else x)) s
  | DeleteGroup g =>
      setGroups (List.filter (fun x => negb (String.eqb (id x) g))) s
  end.

Definition run (s : State) (evs : list Event) : State := List.fold_left step evs s.

(** The selection the page hands to Add Selected Uploads names no upload
    twice. *)
Definition cleanSelection (ev : Event) : Prop :=
  match ev with
  | AddSelectedUploads ids => List.NoDup ids
  | _ => True
  end.

End Host.

(** *** Notions used to state the properties *)

(** No group lists an id twice. *)
Definition tidy (gs : list Group) : Prop :=
  List.Forall (fun g => List.NoDup (List.map item_id (items g))) gs.

(** Does the group hold an item that stands for the object [uuid]? *)
Definition touches (m : gmap string string) (uuid : string) (g : Group) : bool :=
  List.existsb (fun it => match resolve m it with
                          | Some u => String.eqb u uuid
                          | None => false
                          end) (items g).

End Groups.

(** ** The pickup box: [PickupBox] *)

Module PickupBox.

Import Geometry Attach.
Local Open Scope Q_scope.

(** An object of the scene graph, as far as the pick looks at it. *)
Record Node := mkNode { uuid : N; name : string }.

(** The props the page passes: [position], [pickRadius], [zRange]. *)
Record Props := mkProps {
  position : Vec3;
  pickRadius : Q;
  zRange : option (Q * Q)
}.

(** The props of the one box of [Page], for the current [pickupZ]. *)
Definition pageProps (pickupZ : Q) : Props :=
  mkProps (mkVec3 7.21 0 pickupZ) 2 (Some (pickupZ - 2, pickupZ + 2)).

Record State := mkState {
  carried : bool;
  canPickRef : bool;
  carriedRef : option Vec3;      (* the clone on the vehicle: its local position *)
  boxPosition : Vec3;            (* [boxRef.current.position], under the scene *)
  prompt : string;
  dropped : list Vec3            (* the clones left in the scene: world positions *)
}.

Definition groundY : Q := -0.01.
Definition holdOffset : Vec3 := mkVec3 0 0.6 0.8.

(** The mesh as it is mounted. *)
Definition mounted (props : Props) : State :=
  mkState false false None
    (mkVec3 (vx (position props)) (groundY + 0.3) (vz (position props)))
    EmptyString [].

(** [resolvePickTarget], on an object and its ancestors below the scene,
    nearest first. *)
Fixpoint resolvePickTarget (cur : Node) (ancestors : list Node) : Node :=
  match ancestors with
  | [] => cur
  | parent :: rest =>
      if Upload.nonempty (name parent) then parent
      else resolvePickTarget parent rest
  end.

Section Trig.

Variables cos sin : Q -> Q.

(** The [keydown] listener.  [agv] is the vehicle node with its uuid, [target]
    the object with uuid [targetUuid], when there is one, with its ancestors,
    [box] the uuid of the box mesh. *)
Definition onKey (code : string) (agv : option (N * Agv)) (box : N)
  (target : option (Node * list Node)) (s : State) : State :=
  if negb (String.eqb code "KeyQ") then s
  else
    match agv with
    | None => s
    | Some (agvUuid, a) =>
        if negb (carried s) && canPickRef s then
          let pickTarget := match target with
                            | Some (obj, ancestors) => uuid (resolvePickTarget obj ancestors)
                            | None => box
                            end in
          if N.eqb pickTarget agvUuid then s
          else mkState true (canPickRef s) (Some holdOffset) (boxPosition s)
                 (prompt s) (dropped s)
        else if carried s then
          match carriedRef s with
          | Some local =>
              let world := localToWorld cos sin a local in
              mkState false (canPickRef s) None (boxPosition s) (prompt s)
                (dropped s ++ [mkVec3 (vx world) (groundY + 0.3) (vz world)])
          | None =>
              mkState false (canPickRef s) None
                (mkVec3 (vx (boxPosition s)) (groundY + 0.3) (vz (boxPosition s)))
                (prompt s) (dropped s)
          end
        else s
    end.

(** The frame callback.  [hovered] is the world position of the object with
    uuid [targetUuid], when there is one. *)
Definition useFrame (props : Props) (agv : option Agv) (hovered : option Vec3)
  (s : State) : State :=
  match agv with
  | None => s
  | Some a =>
      if negb (carried s) then
        let triggerCenter := match hovered with
                             | Some w => w
                             | None => boxPosition s
                             end in
        let zOk := match zRange props with
                   | Some (z0, z1) =>
                       Qle_bool (Qmin z0 z1) (vz (agvPosition a))
                       && Qle_bool (vz (agvPosition a)) (Qmax z0 z1)
                   | None => true
                   end in
        let xOk := Qle_bool (Qabs (vx (agvPosition a) - vx triggerCenter))
                     (pickRadius props) in
        let canPick := zOk && xOk in
        mkState (carried s) canPick (carriedRef s) (boxPosition s)
          (if canPick then "Press Q to pick" else EmptyString) (dropped s)
      else
        mkState (carried s) false (carriedRef s) (boxPosition s)
          "Press Q to drop" (dropped s)
  end.

Inductive Event :=
  | Key (code : string) (agv : option (N * Agv)) (target : option (Node * list Node))
  | Frame (agv : option Agv) (hovered : option Vec3).

Definition step (props : Props) (box : N) (s : State) (ev : Event) : State :=
  match ev with
  | Key code agv target => onKey code agv box target s
  | Frame agv hovered => useFrame props agv hovered s
  end.

Definition run (props : Props) (box : N) (s : State) (evs : list Event) : State :=
  List.fold_left (step props box) evs s.

End Trig.

(** *** Notions used to state the properties *)

(** A frame with the vehicle mounted. *)
Definition isFrame (ev : Event) : bool :=
  match ev with
  | Frame (Some _) _ => true
  | _ => false
  end.

End PickupBox.

(** ** The page and the scene together *)

Module Stage.

Import Geometry PageState DragMove Attach Advisory.
Local Open Scope Q_scope.

(** What the listeners of the window and of the canvas act on: the page with
    the refs of [DragMove], and the scene graph with the object of every
    upload. *)
Record State := mkState { drag : World; scene : Scene }.

(** What a ray of the raycaster meets: a mesh of an upload, a mesh of the
    vehicle itself, or anything else (the ground, the environment). *)
Inductive Target := OnUpload (i : string) | OnVehicle | OnOther.

(** [cur === agvRef.current] is the only comparison of nodes the handler
    makes: the vehicle node has a uuid of its own, the other nodes share one. *)
Definition agvUuid : N := 0.
Definition otherUuid : N := 1.

Definition agvOf (sc : Scene) : option N :=
  match agvRef sc with
  | Some _ => Some agvUuid
  | None => None
  end.

(** [e.ctrlKey && e.code === "KeyZ"], the command the undo listener acts on,
    and [e.code === "KeyQ"], the one the toggle acts on. *)
Definition isUndo (e : KeyboardEvent) : bool :=
  ctrlKey e && String.eqb (code e) "KeyZ".

Definition isToggle (e : KeyboardEvent) : bool := String.eqb (code e) "KeyQ".

(** What [<group position={u.position}>] does at a render: a new upload is
    mounted under the scene root at its stored position; for an upload that
    was there, the position is written to the object, as its local position
    under whatever parent it has, when the prop is not the one of the last
    render (the props are compared number by number); the object of an upload
    that is gone stays in the map. *)
Definition applyProps (old : list UploadedGlb) (objs : gmap string Group)
  (u : UploadedGlb) : gmap string Group :=
  match List.find (fun o => String.eqb (id o) (id u)) old with
  | Some o =>
      if veqb (position o) (position u) then objs
      else alter (fun obj => mkGroup (parent obj) (position u)) (id u) objs
  | None => <[id u := mkGroup SceneRoot (position u)]> objs
  end.

Definition render (old : list UploadedGlb) (s : State) : State :=
  mkState (drag s)
    (mkScene (agvRef (scene s))
       (List.fold_left (applyProps old) (uploads (page (drag s)))
          (uploadObjectMapRef (scene s)))).

(** The events of the window and of the canvas. *)
Inductive Event :=
  | Press (e : KeyboardEvent)                         (* keydown *)
  | Release (c : string)                              (* keyup *)
  | Down (e : PointerEvent) (targets : list Target)   (* pointerdown *)
  | Move (e : PointerEvent)
  | Up
  | Leave.

Section Trig.

Variables cos sin : Q -> Q.

(** The hit on a target, followed by its parents up to the scene root: a mesh
    of an upload lies in the upload's group, which hangs under the scene root
    or, while carried, under the vehicle node. *)
Definition chainOf (sc : Scene) (t : Target) : Hit :=
  match t with
  | OnUpload i =>
      match uploadObjectMapRef sc !! i with
      | Some obj =>
          let wp := worldOf cos sin sc obj in
          mkObject otherUuid None wp
            :: mkObject otherUuid (Some i) wp
            :: match parent obj, agvRef sc with
               | Vehicle, Some agv => [mkObject agvUuid None (agvPosition agv)]
               | _, _ => []
               end
      | None => []
      end
  | OnVehicle =>
      match agvRef sc with
      | Some agv => [mkObject otherUuid None (agvPosition agv);
                     mkObject agvUuid None (agvPosition agv)]
      | None => []
      end
  | OnOther => [mkObject otherUuid None vzero]
  end.

(** [raycaster.intersectObjects(scene.children, true)] *)
Definition hitsOf (sc : Scene) (targets : list Target) : list Hit :=
  List.map (chainOf sc) targets.

(** The world position of an upload's object. *)
Definition entityWorld (s : State) (i : string) : option Vec3 :=
  match uploadObjectMapRef (scene s) !! i with
  | Some obj => Some (worldOf cos sin (scene s) obj)
  | None => None
  end.

(** One [keydown] of the window reaches its three listeners: the one of
    [DragMove], the toggle and the undo.  They act on different keys, so
    their order does not matter. *)
Definition onWindowKeyDown (e : KeyboardEvent) (s : State) : State :=
  let w := onKeyDown (code e) (drag s) in
  let toggled := onKeyQ cos sin (code e) (page w) (scene s) in
  mkState (mkWorld (onUndo e (fst toggled)) (refs w)) (snd toggled).

Definition handle (s : State) (ev : Event) : State :=
  match ev with
  | Press e => onWindowKeyDown e s
  | Release c => mkState (onKeyUp c (drag s)) (scene s)
  | Down e targets =>
      mkState (onPointerDown (agvOf (scene s)) e (hitsOf (scene s) targets) (drag s))
        (scene s)
  | Move e => mkState (onPointerMove e (drag s)) (scene s)
  | Up | Leave => mkState (onPointerUp (drag s)) (scene s)
  end.

(** An event, then the render it causes. *)
Definition step (s : State) (ev : Event) : State :=
  render (uploads (page (drag s))) (handle s ev).

Definition run (s : State) (evs : list Event) : State := List.fold_left step evs s.

(** The entity a primary-button pointer-down grabs, with its world position. *)
Definition grabbed (s : State) (ev : Event) : option (string * Vec3) :=
  match ev with
  | Down e targets =>
      if Z.eqb (button e) 0
      then firstUpload (agvOf (scene s)) (hitsOf (scene s) targets)
      else None
  | _ => None
  end.

(** A primary-button pointer-down that grabs nothing. *)
Definition missed (s : State) (ev : Event) : bool :=
  match ev with
  | Down e targets =>
      Z.eqb (button e) 0
      && match firstUpload (agvOf (scene s)) (hitsOf (scene s) targets) with
         | Some _ => false
         | None => true
         end
  | _ => false
  end.

End Trig.

(** *** Notions used to state the properties *)

(** Events that neither start nor end a session. *)
Definition midSession (ev : Event) : bool :=
  match ev with
  | Press _ | Release _ | Move _ => true
  | _ => false
  end.

(** The same, Ctrl+Z apart. *)
Definition keepsHistory (ev : Event) : bool :=
  match ev with
  | Press e => negb (isUndo e)
  | Release _ | Move _ => true
  | _ => false
  end.

(** The same, Ctrl+Z and Q apart. *)
Definition quiet (ev : Event) : bool :=
  match ev with
  | Press e => negb (isUndo e) && negb (isToggle e)
  | Release _ | Move _ => true
  | _ => false
  end.

Definition isDrop (ev : Event) : bool :=
  match ev with
  | Up | Leave => true
  | _ => false
  end.

(** An event that cannot grab an entity and is neither Ctrl+Z nor Q: a key,
    a move, a release, a click with another button, a click on the vehicle
    or on empty space. *)
Definition grabsNothing (ev : Event) : bool :=
  match ev with
  | Press e => negb (isUndo e) && negb (isToggle e)
  | Down e targets =>
      negb (Z.eqb (button e) 0)
      || List.forallb (fun t => match t with OnUpload _ => false | _ => true end)
           targets
  | _ => true
  end.

(** One grab-drag-drop cycle, as a list of events. *)
Definition dragCycle (c : Event * list Event * Event) : list Event :=
  let '(down, mid, drop) := c in down :: mid ++ [drop].

Section Cycles.

Variables cos sin : Q -> Q.

Definition validCycle (s : State) (c : Event * list Event * Event) : bool :=
  let '(down, mid, drop) := c in
  match grabbed cos sin s down with Some _ => true | None => false end
  && List.forallb keepsHistory mid && isDrop drop.

(** Cycles run one after the other from [s], each followed by the events
    [after]: is each of them a cycle in the state it starts from? *)
Fixpoint validCycles (after : list Event) (s : State)
  (cs : list (Event * list Event * Event)) : bool :=
  match cs with
  | [] => true
  | c :: rest =>
      validCycle s c
      && validCycles after (run cos sin s (dragCycle c ++ after)) rest
  end.

End Cycles.

(** The asset [i] is not carried: its object hangs under the scene root, at
    the position the uploads state stores for it. *)
Definition free (s : State) (i : string) : Prop :=
  exists obj,
    uploadObjectMapRef (scene s) !! i = Some obj
    /\ parent obj = SceneRoot
    /\ (exists u, In u (uploads (page (drag s))) /\ id u = i)
    /\ forall u, In u (uploads (page (drag s))) -> id u = i ->
                 veq (localPosition obj) (position u).

(** The uploads an event between a grab and the drop can move: the dragged
    one and those that have a rule. *)
Definition movable (p : Page) : list string :=
  match draggedUploadId p with
  | Some i => i :: List.map rule_id (attachRules p)
  | None => List.map rule_id (attachRules p)
  end.

(** What the events between a grab and the drop leave alone, Ctrl+Z
    included. *)
Definition sameGrip (w w' : World) : Prop :=
  draggedUploadId (page w') = draggedUploadId (page w)
  /\ draggingRef (refs w') = draggingRef (refs w)
  /\ dragYRef (refs w') = dragYRef (refs w)
  /\ dragOffsetRef (refs w') = dragOffsetRef (refs w).

End Stage.

(** ** Sample data, used to run the handlers *)

Module Samples.

Import Geometry PageState DragMove Attach.
Local Open Scope Q_scope.

Definition box : UploadedGlb :=
  mkUpload "box.glb-1" "box.glb" "/uploads/1-box.glb" (mkVec3 2 1 5) 1.

Definition crate : UploadedGlb :=
  mkUpload "crate.glb-2" "crate.glb" "/uploads/2-crate.glb" (mkVec3 0 1 4) 1.

Definition page0 : Page :=
  mkPage (mkVec3 0 0 0) [box; crate] None false None [] [] [] [] None.

Definition world0 : World := mkWorld page0 initialRefs.

(** A camera looking straight down from height 10: the pointer at pixel
    [(px, py)] casts the ray from [(px/100, 10, py/100)] downwards. *)
Definition pointerAt (px py : Q) : PointerEvent :=
  mkPointer 0 px py (mkRay (mkVec3 (px / 100) 10 (py / 100)) (mkVec3 0 (-1) 0)).

(** The ray through the box: its mesh, then the group that carries the id. *)
Definition boxHits : list Hit :=
  [[mkObject 11 None (mkVec3 2 1 5);
    mkObject 10 (Some "box.glb-1"%string) (mkVec3 2 1 5);
    mkObject 1 None vzero]].

Definition vehicleUuid : option N := Some 2%N.

Definition grabBox : Event := PointerDown vehicleUuid (pointerAt 200 500) boxHits.

Definition ctrlZ : KeyboardEvent := mkKey "KeyZ" true.

(** Is the upload [i] of the page at [pos]? *)
Definition uploadAt (i : string) (pos : Vec3) (p : Page) : bool :=
  match List.find (fun u => String.eqb (id u) i) (uploads p) with
  | Some u => veqb (position u) pos
  | None => false
  end.

(** [Math.cos] and [Math.sin] at yaw 0, the only yaw the samples use. *)
Definition cosAtZero (theta : Q) : Q := 1.
Definition sinAtZero (theta : Q) : Q := 0.

(** The vehicle at the origin, unrotated, and the box one unit to its right;
    the box is selected for a rule. *)
Definition sceneA : Scene :=
  mkScene (Some (mkAgv (mkVec3 0 0 0) 0))
    (<["box.glb-1"%string := mkGroup SceneRoot (mkVec3 1 0 0)]> ∅).

Definition pageA : Page :=
  mkPage (mkVec3 0 0 0)
    [mkUpload "box.glb-1" "box.glb" "/uploads/1-box.glb" (mkVec3 1 0 0) 1]
    None false None [] ["box.glb-1"%string] [] [] None.

(** After Add Rule, the vehicle drives to (1, 0, 1); the telemetry follows. *)
Definition sceneB : Scene :=
  mkScene (Some (mkAgv (mkVec3 1 0 1) 0)) (uploadObjectMapRef sceneA).

Definition pageB : Page :=
  setAgvPos (mkVec3 1 0 1) (onAddRule cosAtZero sinAtZero pageA sceneA).

(** The world position of an upload's object, when it exists. *)
Definition worldOf (i : string) (sc : Scene) : option Vec3 :=
  match agvRef sc, uploadObjectMapRef sc !! i with
  | Some agv, Some obj => Some (getWorldPosition cosAtZero sinAtZero agv obj)
  | _, _ => None
  end.

Definition worldAt (i : string) (pos : Vec3) (sc : Scene) : bool :=
  match worldOf i sc with
  | Some w => veqb w pos
  | None => false
  end.

(** Are two positions within [tol] of each other, coordinate by coordinate? *)
Definition within (tol : Q) (a b : Vec3) : bool :=
  Qle_bool (Qabs (vx a - vx b)) tol
  && Qle_bool (Qabs (vy a - vy b)) tol
  && Qle_bool (Qabs (vz a - vz b)) tol.

Definition pressQ (ps : Page * Scene) : Page * Scene :=
  onKeyQ cosAtZero sinAtZero "KeyQ" (fst ps) (snd ps).

(** [Math.pow] at whole exponents, enough to run a tick whose frame delta is
    a whole number of seconds. *)
Definition powWhole (k dt : Q) : Q := Qpower k (Qfloor dt).

(** In FOLLOW and FPV mode the orbit controls are not mounted. *)
Definition orbitOff (camera : Vec3) : Vec3 := camera.

(** The vehicle flown five units under the ground plane (fly mode has no
    floor), heading along -z. *)
Definition flyingLow : CameraRig.AgvNode :=
  CameraRig.mkNode (mkVec3 0 (-5) 0) (Some (mkVec3 0 0 (-1))) (mkVec3 0 0 (-1))
    (Some (CameraRig.mkHints (Some 2) (Some 3) (Some 0.6) (Some (-0.01))))
    (Some (mkVec3 0 (-3.5) 0.75)).

(** The camera as the orbit controls left it: near the vehicle, under the
    ground plane. *)
Definition cameraBelow : Vec3 := mkVec3 0 (-3) 4.

(** The vehicle where the page first puts it, before its hints are stored. *)
Definition parked : CameraRig.AgvNode :=
  CameraRig.mkNode (mkVec3 8.01 10.94 (-28.61)) None (mkVec3 0 0 (-1)) None None.

(** Objects under the pointer.  The vehicle group has uuid 2, the scene
    uuid 1; the body and a wheel are meshes of the vehicle. *)
Definition vehicleBody : MeshPicker.Object3D :=
  MeshPicker.mkObject 21 [20%N; 2%N; 1%N] (mkVec3 2 1 3).

Definition vehicleWheel : MeshPicker.Object3D :=
  MeshPicker.mkObject 22 [20%N; 2%N; 1%N] (mkVec3 0.5 0.5 0.2).

(** An empty group: its bounding box is empty and its size zero. *)
Definition emptyGroup : MeshPicker.Object3D :=
  MeshPicker.mkObject 30 [1%N] (mkVec3 0 0 0).

Definition smallProp : MeshPicker.Object3D :=
  MeshPicker.mkObject 41 [40%N; 1%N] (mkVec3 1 1 1).

Definition bigShelf : MeshPicker.Object3D :=
  MeshPicker.mkObject 51 [50%N; 1%N] (mkVec3 4 2 1).

(** The vehicle where the page first puts it, at rest, no key held. *)
Definition driver : Vehicle.Controller :=
  Vehicle.mkController (Some (mkAgv (mkVec3 8.01 10.94 (-28.61)) 0)) None
    (empty : Vehicle.Keys) 0 0 0 [] 0.

(** [Vector3.normalize] on vectors that have length one already. *)
Definition normalizeUnit (v : Vec3) : Vec3 := v.

Definition nozzle : Vec3 := mkVec3 1 0.5 0.

(** A bullet fired a moment ago. *)
Definition spark : Vehicle.Bullet :=
  Vehicle.mkBullet (mkVec3 9 11.4 (-28.61)) (mkVec3 12 0 0) 1.

(** The vehicle with that bullet in the air, the trigger released. *)
Definition gunner : Vehicle.Controller :=
  Vehicle.mkController (Some (mkAgv (mkVec3 8.01 10.94 (-28.61)) 0)) None
    (Vehicle.keyUp "Space" (Vehicle.keyDown "Space" empty)) 0 0 0 [spark] 1.

(** A fresh session: no uploads, an empty uploads directory. *)
Definition newcomer : Library.Client :=
  Library.mkClient
    (mkPage (mkVec3 8.01 10.94 (-28.61)) [] None false None [] [] [] [] None)
    (mkVec3 0 (-0.01) 0) None EmptyString empty.

(** What Import GLB lists for [crate.glb], stamped 17 by the server and 18 by
    the page. *)
Definition crateEntry : UploadedGlb :=
  mkUpload "17-crate.glb-18" "17-crate.glb" "/uploads/17-crate.glb"
    (mkVec3 0 (-0.01) 0) 1.

Definition crateRescaled : UploadedGlb :=
  mkUpload "17-crate.glb-18" "17-crate.glb" "/uploads/17-crate.glb"
    (mkVec3 0 (-0.01) 0) 2.

(** The group manager before any group exists, over a scene of two meshes
    and one upload. *)
Definition studio : Groups.State :=
  Groups.mkState [] EmptyString None true
    (<["m1"%string := true]> (<["m2"%string := true]> (<["g7"%string := true]> empty)))
    (<["17-crate.glb-18"%string := "g7"%string]> empty) None.

(** [String.prototype.trim] on strings without white space at the ends. *)
Definition trimNothing (s : string) : string := s.

(** A shown group that holds the mesh m1, and the manager once it exists. *)
Definition shelves : Groups.Group :=
  Groups.mkGroup "shelves-5" "shelves" false [Groups.mkItem Groups.KindUuid "m1"].

Definition gallery : Groups.State :=
  Groups.mkState [shelves] EmptyString (Some "shelves-5"%string) true
    (Groups.objects studio) (Groups.uploadObjectMapRef studio) (Some [shelves]).

(** The vehicle has driven 0.2 ahead since the telemetry last reported it at
    (1, 0, 1); the box stands 1.9 from the vehicle and 2.1 from the reported
    position, with a rule of its own. *)
Definition sceneLag : Scene :=
  mkScene (Some (mkAgv (mkVec3 1 0 0.8) 0))
    (<["box.glb-1"%string := mkGroup SceneRoot (mkVec3 1 0 (-1.1))]> empty).

Definition pageLag : Page :=
  mkPage (mkVec3 1 0 1)
    [mkUpload "box.glb-1" "box.glb" "/uploads/1-box.glb" (mkVec3 1 0 (-1.1)) 1]
    None false None [] ["box.glb-1"%string]
    [mkRule "box.glb-1" (mkVec3 0 0 (-1))] [] None.

(** The pickup box with the vehicle in its window: the prompt is up. *)
Definition atBox : PickupBox.State :=
  PickupBox.mkState false true None (mkVec3 7.21 0.29 15) "Press Q to pick" [].

(** A scene of two meshes, both shown, nothing hidden yet. *)
Definition showroom : Visibility.State :=
  Visibility.mkState true
    (<["m1"%string := true]> (<["m2"%string := true]> empty)) [] None.

(** The vehicle with R held. *)
Definition climbing : Vehicle.Controller :=
  Vehicle.mkController (Some (mkAgv (mkVec3 8.01 10.94 (-28.61)) 0)) None
    (Vehicle.keyDown "KeyR" empty) 0 0 0 [] 0.

(** The box and the crate on the ground, each where the uploads state has
    it; the vehicle stands at (0, 0, 3), one unit from the crate, which has a
    rule. *)
Definition yard : Stage.State :=
  Stage.mkState
    (mkWorld
       (mkPage (mkVec3 0 0 3) [box; crate] None false None [] []
          [mkRule "crate.glb-2" (mkVec3 0 1 1)] [] None)
       initialRefs)
    (mkScene (Some (mkAgv (mkVec3 0 0 3) 0))
       (<["box.glb-1"%string := mkGroup SceneRoot (mkVec3 2 1 5)]>
          (<["crate.glb-2"%string := mkGroup SceneRoot (mkVec3 0 1 4)]> empty))).


(** A pointer-down on the box, the pointer at pixel [(px, py)]. *)
Definition onBox (px py : Q) : Stage.Event :=
  Stage.Down (pointerAt px py) [Stage.OnUpload "box.glb-1"; Stage.OnOther].

Definition key (c : string) : Stage.Event := Stage.Press (mkKey c false).

Definition stageRun (s : Stage.State) (evs : list Stage.Event) : Stage.State :=
  Stage.run cosAtZero sinAtZero s evs.

(** Is the upload [i] at [pos] in the world? *)
Definition standsAt (i : string) (pos : Vec3) (s : Stage.State) : bool :=
  match Stage.entityWorld cosAtZero sinAtZero s i with
  | Some w => veqb w pos
  | None => false
  end.

End Samples.

(* ==================================================================== *)
(** * Properties *)
(* ==================================================================== *)

(** ** Numbers *)

Module GeometryFacts.

Import Geometry.
Local Open Scope Q_scope.

Lemma Qltb_lt (a b : Q) : Qltb a b = true <-> a < b.
Proof.
  unfold Qltb. rewrite negb_true_iff. split.
  - intros H. apply Qnot_le_lt. intros Hle. apply Qle_bool_iff in Hle. congruence.
  - intros H. destruct (Qle_bool b a) eqn:E; [|reflexivity].
    apply Qle_bool_iff in E. exfalso. exact (Qlt_not_le _ _ H E).
Qed.

Lemma Qltb_nlt (a b : Q) : Qltb a b = false <-> ~ a < b.
Proof.
  rewrite <- Qltb_lt. destruct (Qltb a b); split; intros; congruence.
Qed.

End GeometryFacts.

(** ** The upload route *)

Module UploadFacts.
Import Upload.
Local Open Scope string_scope.


Lemma append_assoc (a b c : string) : (a ++ b) ++ c = a ++ (b ++ c).
Proof.
  induction a as [|x a IH]; [reflexivity|].
  change (String x ((a ++ b) ++ c) = String x (a ++ (b ++ c))). now f_equal.
Qed.

Lemma split_slash_cons (s : string) : exists seg rest, split_slash s = seg :: rest.
Proof.
  induction s as [|c s [seg [rest IH]]]; simpl; [eauto|].
  destruct (is_slash c); [eauto|]. rewrite IH. eauto.
Qed.

Lemma split_slash_app (a b : string) :
  split_slash (a ++ String "/" b) = (split_slash a ++ split_slash b)%list.
Proof.
  induction a as [|c a IH]; simpl; [reflexivity|].
  destruct (is_slash c); [now rewrite IH|].
  rewrite IH. destruct (split_slash_cons a) as [seg [rest ->]]. reflexivity.
Qed.

Lemma split_slash_free (s : string) : slash_free s = true -> split_slash s = [s].
Proof.
  induction s as [|c s IH]; simpl; [reflexivity|].
  intros [Hc Hs]%andb_prop. apply negb_true_iff in Hc. rewrite Hc.
  now rewrite (IH Hs).
Qed.

Lemma split_slash_segments (s : string) :
  Forall (fun seg => slash_free seg = true) (split_slash s).
Proof.
  induction s as [|c s IH]; simpl; [now repeat constructor|].
  destruct (is_slash c) eqn:Hc; [now constructor|].
  destruct (split_slash s) as [|seg rest]; [repeat constructor; simpl; now rewrite Hc|].
  inversion IH; subst. constructor; [simpl; now rewrite Hc|assumption].
Qed.

Lemma slash_free_app (a b : string) :
  slash_free (a ++ b) = slash_free a && slash_free b.
Proof.
  induction a as [|c a IH]; simpl; [reflexivity|]. now rewrite IH, andb_assoc.
Qed.

Lemma basename_slash_free (p : string) : slash_free (basename p) = true.
Proof.
  unfold basename.
  assert (H : Forall (fun seg => slash_free seg = true)
                (List.filter nonempty (split_slash p))).
  { apply List.Forall_forall. intros x [Hx _]%List.filter_In.
    pose proof (split_slash_segments p) as HF.
    rewrite List.Forall_forall in HF. now apply HF. }
  induction H as [|x l Hx Hl IH]; [reflexivity|].
  destruct l; [exact Hx|exact IH].
Qed.

Lemma allowed_not_slash (c : ascii) : allowed c = true -> is_slash c = false.
Proof.
  unfold is_slash. destruct (Ascii.eqb_spec c "/"%char) as [->|]; [|reflexivity].
  vm_compute. discriminate.
Qed.

Lemma replace_unsafe_slash_free (s : string) : slash_free (replace_unsafe s) = true.
Proof.
  induction s as [|c s IH]; simpl; [reflexivity|]. rewrite IH, andb_true_r.
  destruct (allowed c) eqn:Hc; [now rewrite (allowed_not_slash c Hc)|reflexivity].
Qed.

Lemma string_of_uint_slash_free (d : Decimal.uint) :
  slash_free (NilEmpty.string_of_uint d) = true.
Proof. induction d; simpl; auto. Qed.

Lemma show_number_slash_free (n : Z) : slash_free (show_number n) = true.
Proof.
  unfold show_number, NilZero.string_of_int, NilZero.string_of_uint.
  destruct (Z.to_int n) as [d|d]; destruct d; simpl;
    auto using string_of_uint_slash_free.
Qed.

Lemma safeName_slash_free (now : Z) (name : string) :
  slash_free (safeName now name) = true.
Proof.
  unfold safeName. rewrite !slash_free_app.
  now rewrite show_number_slash_free, replace_unsafe_slash_free.
Qed.

Lemma hyphenated_proper (a b : string) :
  slash_free (a ++ "-" ++ b) = true -> proper (a ++ "-" ++ b) = true.
Proof.
  intros H. unfold proper. rewrite H, andb_true_r.
  destruct a as [|c [|c' [|c'' a]]]; simpl; try reflexivity.
  - unfold is_dot, is_dotdot; simpl.
    destruct (Ascii.eqb c "."); reflexivity.
  - unfold is_dot, is_dotdot; simpl.
    destruct (Ascii.eqb c "."); simpl; [|reflexivity].
    destruct (Ascii.eqb c' "."); reflexivity.
  - unfold is_dot, is_dotdot; simpl.
    destruct (Ascii.eqb c "."); simpl; [|reflexivity].
    destruct (Ascii.eqb c' "."); reflexivity.
Qed.

Lemma safeName_proper (now : Z) (name : string) : proper (safeName now name) = true.
Proof.
  pose proof (safeName_slash_free now name) as H. unfold safeName in *.
  now apply hyphenated_proper.
Qed.

(** *** [path.join] appends a proper segment as it is *)


Lemma proper_kept (s : string) : proper s = true -> kept s = true.
Proof. unfold proper, kept. now intros [H _]%andb_prop. Qed.

Lemma norm_step_kept (a : bool) (res : list string) (seg : string) :
  kept seg = true -> norm_step a res seg = (res ++ [seg])%list.
Proof.
  unfold kept, norm_step. intros [[H1 H2]%andb_prop H3]%andb_prop.
  apply negb_true_iff in H2, H3. now rewrite H1, H2, H3.
Qed.

Lemma normalizeString_snoc (a : bool) (segs : list string) (seg : string) :
  kept seg = true ->
  normalizeString a (segs ++ [seg]) = (normalizeString a segs ++ [seg])%list.
Proof.
  intros H. unfold normalizeString. rewrite List.fold_left_app. simpl.
  now apply norm_step_kept.
Qed.


Lemma kept_not_dotdot (s : string) : kept s = true -> is_dotdot s = false.
Proof. unfold kept. intros [_ H]%andb_prop. now apply negb_true_iff in H. Qed.

Lemma dotdot_not_skipped (s : string) :
  is_dotdot s = true -> negb (nonempty s) || is_dot s = false.
Proof.
  unfold is_dotdot. intros ->%String.eqb_eq. reflexivity.
Qed.

Lemma norm_step_normal (a : bool) (res : list string) (seg : string) :
  normal a res -> normal a (norm_step a res seg).
Proof.
  intros (dots & props & -> & Hd & Ha & Hp). unfold norm_step.
  destruct (negb (nonempty seg) || is_dot seg) eqn:Hskip.
  { now exists dots, props. }
  destruct (is_dotdot seg) eqn:Hdd.
  - destruct props as [|p props'] using List.rev_ind.
    + rewrite List.app_nil_r.
      destruct dots as [|d dots'] using List.rev_ind; simpl.
      * destruct a; [|now exists [], []].
        exists [seg], []. repeat split; auto. discriminate.
      * rewrite List.rev_app_distr. simpl.
        apply List.Forall_app in Hd as [Hd' Hd1]. inversion Hd1 as [|? ? Hdt _]; subst.
        rewrite Hdt. destruct a.
        -- exists ((dots' ++ [d]) ++ [seg])%list, []. rewrite List.app_nil_r.
           repeat split; auto; [|discriminate].
           apply List.Forall_app; split; [apply List.Forall_app; split|]; auto.
        -- exists (dots' ++ [d])%list, []. rewrite List.app_nil_r.
           repeat split; auto. apply List.Forall_app; split; auto.
    + rewrite List.app_assoc, List.rev_app_distr. simpl.
      apply List.Forall_app in Hp as [Hp' Hp1]. inversion Hp1 as [|? ? Hk _]; subst.
      rewrite (kept_not_dotdot p Hk), List.rev_involutive.
      now exists dots, props'.
  - exists dots, (props ++ [seg])%list. rewrite List.app_assoc.
    repeat split; auto. apply List.Forall_app; split; auto.
    constructor; [|constructor]. unfold kept.
    apply orb_false_iff in Hskip as [H1 H2]. apply negb_false_iff in H1.
    now rewrite H1, H2, Hdd.
Qed.

Lemma normalizeString_normal (a : bool) (segs : list string) :
  normal a (normalizeString a segs).
Proof.
  unfold normalizeString.
  assert (H : normal a []) by (exists [], []; repeat split; auto).
  revert H. generalize (@nil string) as acc.
  induction segs as [|seg segs IH]; simpl; intros acc H; [exact H|].
  apply IH. now apply norm_step_normal.
Qed.

Lemma normal_snoc_inv (a : bool) (l : list string) (x : string) :
  normal a (l ++ [x])%list ->
  normal a l /\ norm_step a l x = (l ++ [x])%list.
Proof.
  intros (dots & props & E & Hd & Ha & Hp).
  destruct props as [|p props' _] using List.rev_ind.
  - rewrite List.app_nil_r in E. subst dots.
    apply List.Forall_app in Hd as [Hd' Hd1]. inversion Hd1 as [|? ? Hx _]; subst.
    destruct a; [|now specialize (Ha eq_refl); destruct l].
    split; [exists l, []; rewrite List.app_nil_r; repeat split; auto; discriminate|].
    unfold norm_step. rewrite (dotdot_not_skipped x Hx), Hx.
    destruct l as [|d l' _] using List.rev_ind; [reflexivity|].
    rewrite List.rev_app_distr. simpl.
    apply List.Forall_app in Hd' as [_ Hd2]. inversion Hd2 as [|? ? Hdt _]; subst.
    now rewrite Hdt.
  - rewrite List.app_assoc in E. apply List.app_inj_tail in E as [-> ->].
    apply List.Forall_app in Hp as [Hp' Hp1]. inversion Hp1 as [|? ? Hk _]; subst.
    split; [now exists dots, props'|]. now apply norm_step_kept.
Qed.

Lemma normalizeString_fixed (a : bool) (l : list string) :
  normal a l -> normalizeString a l = l.
Proof.
  induction l as [|x l IH] using List.rev_ind; [reflexivity|].
  intros [Hl Hx]%normal_snoc_inv. unfold normalizeString in *.
  rewrite List.fold_left_app. simpl. now rewrite (IH Hl).
Qed.

Lemma norm_step_In (a : bool) (res : list string) (seg x : string) :
  In x (norm_step a res seg) -> In x res \/ x = seg.
Proof.
  unfold norm_step.
  destruct (negb (nonempty seg) || is_dot seg); [auto|].
  destruct (is_dotdot seg).
  - destruct (List.rev res) as [|top below] eqn:E.
    + destruct a; simpl; [intuition|contradiction].
    + assert (Er : res = (List.rev below ++ [top])%list).
      { rewrite <- (List.rev_involutive res), E. reflexivity. }
      destruct (is_dotdot top).
      * destruct a; [|auto]. rewrite List.in_app_iff. simpl. intuition.
      * intros H. left. rewrite Er. apply List.in_or_app. now left.
  - rewrite List.in_app_iff. simpl. intuition.
Qed.

Lemma normalizeString_In (a : bool) (segs : list string) (x : string) :
  In x (normalizeString a segs) -> In x segs.
Proof.
  unfold normalizeString.
  assert (G : forall acc, In x (List.fold_left (norm_step a) segs acc) ->
                          In x acc \/ In x segs).
  { induction segs as [|seg segs IH]; simpl; intros acc H; [auto|].
    destruct (IH _ H) as [H1|H1]; [|auto].
    destruct (norm_step_In _ _ _ _ H1); auto. }
  intros H. destruct (G [] H) as [[]|]; assumption.
Qed.

Lemma concat_snoc (l : list string) (x : string) :
  l <> [] -> String.concat "/" (l ++ [x]) = String.concat "/" l ++ String "/" x.
Proof.
  induction l as [|y l IH]; [congruence|]. intros _.
  destruct l as [|z l]; [reflexivity|].
  change (String.concat "/" ((y :: z :: l) ++ [x]))
    with (y ++ "/" ++ String.concat "/" ((z :: l) ++ [x])).
  rewrite IH by discriminate.
  change (String.concat "/" (y :: z :: l)) with (y ++ "/" ++ String.concat "/" (z :: l)).
  now rewrite !append_assoc.
Qed.

Lemma split_concat (l : list string) :
  l <> [] -> List.Forall (fun s => slash_free s = true) l ->
  split_slash (String.concat "/" l) = l.
Proof.
  induction l as [|y l IH]; [congruence|]. intros _ H.
  inversion H as [|? ? Hy Hl]; subst.
  destruct l as [|z l]; [now apply split_slash_free|].
  change (String.concat "/" (y :: z :: l))
    with (y ++ String "/" (String.concat "/" (z :: l))).
  rewrite split_slash_app, (split_slash_free y Hy), IH by (auto; discriminate).
  reflexivity.
Qed.

Lemma nonempty_app_r (a b : string) : nonempty b = true -> nonempty (a ++ b) = true.
Proof. destruct a; simpl; auto. Qed.

Lemma ends_with_slash_app (a b : string) :
  nonempty b = true -> ends_with_slash (a ++ b) = ends_with_slash b.
Proof.
  intros Hb. induction a as [|c a IH]; [reflexivity|].
  simpl. rewrite IH. destruct (a ++ b) eqn:E; [|reflexivity].
  pose proof (nonempty_app_r a b Hb) as H. now rewrite E in H.
Qed.

Lemma slash_free_no_trailing (s : string) :
  slash_free s = true -> ends_with_slash s = false.
Proof.
  induction s as [|c s IH]; [reflexivity|]. simpl.
  intros [Hc Hs]%andb_prop. apply negb_true_iff in Hc.
  destruct s; [exact Hc|now apply IH].
Qed.

Lemma kept_nonempty (s : string) : kept s = true -> nonempty s = true.
Proof. unfold kept. now intros [[H _]%andb_prop _]%andb_prop. Qed.

Lemma concat_head_not_slash (l : list string) :
  l <> [] -> List.Forall (fun s => slash_free s = true) l ->
  List.Forall (fun s => nonempty s = true) l ->
  nonempty (String.concat "/" l) = true /\ isAbsolute (String.concat "/" l) = false.
Proof.
  destruct l as [|y l]; [congruence|]. intros _ Hs Hn.
  inversion Hs as [|? ? Hy _]; inversion Hn as [|? ? Hy' _]; subst.
  destruct y as [|c y]; [discriminate|]. simpl in Hy.
  apply andb_prop in Hy as [Hc _]. apply negb_true_iff in Hc.
  destruct l; simpl; auto.
Qed.


Lemma split_slash_root (abs : bool) (s : string) :
  split_slash (root_of abs ++ s)
  = ((if abs then [EmptyString] else []) ++ split_slash s)%list.
Proof. destruct abs; reflexivity. Qed.

Lemma isAbsolute_root (abs : bool) (s t : string) :
  nonempty s = true -> isAbsolute s = false ->
  isAbsolute ((root_of abs ++ s) ++ t) = abs.
Proof.
  destruct abs; [reflexivity|]. destruct s; [discriminate|]. intros _ H. exact H.
Qed.

Lemma normalizeString_root (abs : bool) (nrm : list string) :
  normal (negb abs) nrm ->
  normalizeString (negb abs) ((if abs then [EmptyString] else []) ++ nrm) = nrm.
Proof.
  intros H. destruct abs; [|now apply normalizeString_fixed].
  change (normalizeString false nrm = nrm). now apply normalizeString_fixed.
Qed.

Lemma normalize_append_segment (abs : bool) (nrm : list string) (seg : string) :
  nrm <> [] -> normal (negb abs) nrm ->
  List.Forall (fun s => slash_free s = true) nrm ->
  List.Forall (fun s => nonempty s = true) nrm ->
  proper seg = true ->
  normalize ((root_of abs ++ String.concat "/" nrm) ++ String "/" seg)
  = (root_of abs ++ String.concat "/" nrm) ++ String "/" seg.
Proof.
  intros Hne Hnorm Hsf Hnn Hseg.
  pose proof (proper_kept seg Hseg) as Hk.
  pose proof (kept_nonempty seg Hk) as Hn.
  assert (Hfree : slash_free seg = true).
  { unfold proper in Hseg. now apply andb_prop in Hseg as [_ ?]. }
  destruct (concat_head_not_slash nrm Hne Hsf Hnn) as [Hcn Hca].
  assert (Htrail : ends_with_slash (String "/" seg) = false).
  { destruct seg; [discriminate|]. now apply (slash_free_no_trailing (String a seg)). }
  unfold normalize.
  rewrite nonempty_app_r by reflexivity.
  rewrite (isAbsolute_root abs _ _ Hcn Hca).
  rewrite ends_with_slash_app, Htrail by reflexivity.
  rewrite split_slash_app, split_slash_root, split_concat by assumption.
  rewrite (split_slash_free seg Hfree).
  rewrite normalizeString_snoc, normalizeString_root by assumption.
  rewrite concat_snoc by assumption.
  rewrite nonempty_app_r by reflexivity.
  destruct abs; cbn [negb root_of]; [|reflexivity].
  now rewrite append_assoc.
Qed.

Lemma normal_nonempty (a : bool) (l : list string) :
  normal a l -> List.Forall (fun s => nonempty s = true) l.
Proof.
  intros (dots & props & -> & Hd & _ & Hp). apply List.Forall_app. split.
  - eapply List.Forall_impl; [|exact Hd]. intros s ->%String.eqb_eq. reflexivity.
  - eapply List.Forall_impl; [|exact Hp]. exact kept_nonempty.
Qed.

Lemma normalizeString_slash_free (a : bool) (p : string) :
  List.Forall (fun s => slash_free s = true) (normalizeString a (split_slash p)).
Proof.
  apply List.Forall_forall. intros x Hx%normalizeString_In.
  pose proof (split_slash_segments p) as H. rewrite List.Forall_forall in H. auto.
Qed.

(** The upload directory is a normalized path that ends in a kept segment. *)
Lemma uploadDir_shape (cwd : string) :
  exists abs nrm,
    uploadDir cwd = root_of abs ++ String.concat "/" nrm
    /\ nrm <> []
    /\ normal (negb abs) nrm
    /\ List.Forall (fun s => slash_free s = true) nrm
    /\ List.Forall (fun s => nonempty s = true) nrm.
Proof.
  destruct cwd as [|c w].
  - exists false, ["public"; "uploads"]. split; [reflexivity|]. split; [discriminate|].
    split; [|split; repeat constructor].
    exists [], ["public"; "uploads"]. repeat split; auto; repeat constructor.
  - set (cwd := String c w).
    set (segs := split_slash (cwd ++ String "/" "public/uploads")).
    exists (isAbsolute cwd), (normalizeString (negb (isAbsolute cwd)) segs).
    assert (Hsegs : segs = (split_slash cwd ++ ["public"] ++ ["uploads"])%list).
    { subst segs. now rewrite split_slash_app. }
    assert (Hnrm : normalizeString (negb (isAbsolute cwd)) segs
                   = ((normalizeString (negb (isAbsolute cwd)) (split_slash cwd)
                       ++ ["public"]) ++ ["uploads"])%list).
    { rewrite Hsegs, List.app_assoc. now rewrite !normalizeString_snoc. }
    assert (Hne : normalizeString (negb (isAbsolute cwd)) segs <> []).
    { rewrite Hnrm. intros H. now apply List.app_eq_nil in H as [_ H]. }
    pose proof (normalizeString_normal (negb (isAbsolute cwd)) segs) as Hnormal.
    pose proof (normalizeString_slash_free (negb (isAbsolute cwd))
                  (cwd ++ String "/" "public/uploads")) as Hfree.
    fold segs in Hfree.
    pose proof (normal_nonempty _ _ Hnormal) as Hnonempty.
    split; [|auto].
    destruct (concat_head_not_slash _ Hne Hfree Hnonempty) as [Hcn _].
    change (uploadDir cwd) with (normalize (cwd ++ String "/" "public/uploads")).
    unfold normalize. fold segs.
    rewrite nonempty_app_r by reflexivity.
    rewrite ends_with_slash_app by reflexivity.
    change (isAbsolute (cwd ++ String "/" "public/uploads")) with (isAbsolute cwd).
    rewrite Hcn. destruct (isAbsolute cwd); reflexivity.
Qed.

Lemma uploadDir_nonempty (cwd : string) : nonempty (uploadDir cwd) = true.
Proof.
  destruct (uploadDir_shape cwd) as (abs & nrm & -> & Hne & _ & Hsf & Hnn).
  destruct (concat_head_not_slash nrm Hne Hsf Hnn) as [H _].
  now apply nonempty_app_r.
Qed.

Lemma join_uploadDir_segment (cwd seg : string) :
  proper seg = true -> join [uploadDir cwd; seg] = uploadDir cwd ++ String "/" seg.
Proof.
  intros Hseg. unfold join.
  pose proof (uploadDir_nonempty cwd) as HU.
  pose proof (kept_nonempty seg (proper_kept seg Hseg)) as Hs.
  cbn [List.filter]. rewrite HU, Hs.
  change (String.concat "/" [uploadDir cwd; seg]) with (uploadDir cwd ++ String "/" seg).
  destruct (uploadDir_shape cwd) as (abs & nrm & -> & Hne & Hn & Hsf & Hnn).
  now apply normalize_append_segment.
Qed.

Lemma replace_unsafe_get (s : string) (i : nat) :
  String.get i (replace_unsafe s)
  = option_map (fun c => if allowed c then c else "_"%char) (String.get i s).
Proof.
  revert i. induction s as [|c s IH]; intros [|i]; simpl; auto.
Qed.

Example safeName_traversal :
  safeName 1700000000000 "../../etc/pass wd" = "1700000000000-pass_wd".
Proof. reflexivity. Qed.

Example safeName_dotdot : safeName 17 "a/.." = "17-..".
Proof. reflexivity. Qed.

Example POST_traversal :
  written (POST "/srv/app" 17 (FileValue "../../../etc/passwd" []))
  = Some ("/srv/app/public/uploads/17-passwd", []).
Proof. reflexivity. Qed.

(** C10. For every upload POST that provides a file, the stored name is the
    timestamp, a hyphen and the basename of the client's file name with every
    character outside [[a-zA-Z0-9._-]] replaced by an underscore; the path
    written is the upload directory, one separator and that name, which holds
    no separator and is no dot segment: the file lies directly inside
    public/uploads whatever the client's file name is. *)
Theorem POST_writes_directly_inside_uploads
  (cwd : string) (now : Z) (fname : string) (buf : list Byte.byte) :
  let name := show_number now ++ "-" ++ replace_unsafe (basename fname) in
  let out := POST cwd now (FileValue fname buf) in
  (forall i, String.get i (replace_unsafe (basename fname))
             = option_map (fun c => if allowed c then c else "_"%char)
                 (String.get i (basename fname)))
  /\ written out = Some (uploadDir cwd ++ String "/" name, buf)
  /\ response out = Ok ("/uploads/" ++ name) name
  /\ uploadDir cwd = join [cwd; "public"; "uploads"]
  /\ directly_inside (uploadDir cwd) (uploadDir cwd ++ String "/" name).
Proof.
  intros name out.
  pose proof (safeName_proper now fname) as Hp.
  change (safeName now fname) with name in Hp.
  split; [apply replace_unsafe_get|].
  split.
  { subst out. cbn [POST written].
    change (safeName now fname) with name.
    now rewrite (join_uploadDir_segment cwd name Hp). }
  split; [reflexivity|]. split; [reflexivity|].
  exists name. split; [reflexivity|].
  unfold proper in Hp.
  apply andb_prop in Hp as [[[H1 H2]%andb_prop H3]%andb_prop H4].
  split; [exact H4|].
  apply negb_true_iff in H2, H3.
  repeat split; intros E; rewrite E in *; discriminate.
Qed.

End UploadFacts.

(** ** The undo stack and the drag controller *)

Module DragFacts.

Import Geometry PageState DragMove Samples GeometryFacts.
Local Open Scope Q_scope.

Lemma pop_push {A} (l : list A) (a : A) : pop (push l a) = (Some a, l).
Proof.
  unfold pop, push. rewrite List.rev_app_distr. simpl.
  now rewrite List.rev_involutive.
Qed.

Lemma pop_nil {A} : pop (@nil A) = (None, []).
Proof. reflexivity. Qed.

Lemma copyUpload_id (u : UploadedGlb) : copyUpload u = u.
Proof. destruct u as [i n l [a b c] k]. reflexivity. Qed.

Lemma snapshot_id (l : list UploadedGlb) : List.map copyUpload l = l.
Proof.
  induction l as [|u l IH]; simpl; [reflexivity|].
  now rewrite copyUpload_id, IH.
Qed.

Lemma page_eta (p : Page) :
  mkPage (agvPos p) (uploads p) (draggedUploadId p) (isDragging p)
    (selectedPos p) (carriedIds p) (selectedUploadIds p) (attachRules p)
    (uploadHistoryRef p) (pendingUndoRef p) = p.
Proof. now destruct p. Qed.

Example intersectPlane_slanted :
  match intersectPlane (mkRay (mkVec3 0 10 0) (mkVec3 1 (-2) 0)) 0 with
  | Some point => veqb point (mkVec3 5 0 0)
  | None => false
  end = true.
Proof. reflexivity. Qed.

Example intersectPlane_upwards :
  intersectPlane (mkRay (mkVec3 0 10 0) (mkVec3 1 2 0)) 0 = None.
Proof. reflexivity. Qed.

Example intersectPlane_parallel :
  intersectPlane (mkRay (mkVec3 0 10 0) (mkVec3 1 0 0)) 0 = None.
Proof. reflexivity. Qed.

Example pop_two : pop [1%nat; 2%nat] = (Some 2%nat, [1%nat]).
Proof. reflexivity. Qed.

Example chooseMode_tie :
  chooseMode (refs (run world0 [grabBox])) (pointerAt 210 513) = Some ModeXZ.
Proof. reflexivity. Qed.

(** C7. Ctrl+Z with an empty history is a no-op: the handler returns (it is
    a total function) and the whole page state, uploads included, is what it
    was; with a non-empty history it pops exactly the top snapshot and that
    snapshot replaces the uploads state wholesale. *)
Theorem undo_pops_top_or_is_noop (p : Page) (e : KeyboardEvent) :
  ctrlKey e = true -> code e = "KeyZ"%string ->
  (uploadHistoryRef p = [] -> onUndo e p = p)
  /\ (forall below top,
        uploadHistoryRef p = push below top ->
        uploads (onUndo e p) = top
        /\ uploadHistoryRef (onUndo e p) = below
        /\ onUndo e p = setUploads (fun _ => top) (setUploadHistory below p)).
Proof.
  intros Hc Hk. unfold onUndo. rewrite Hc, Hk. cbn [negb orb String.eqb].
  change (("KeyZ" =? "KeyZ")%string) with true. cbn [negb].
  split.
  - intros H. destruct p; cbn in *. subst. reflexivity.
  - intros below top ->. rewrite pop_push. auto.
Qed.

Lemma undo_pops_top_or_is_noop_witness :
  ctrlKey ctrlZ = true /\ code ctrlZ = "KeyZ"%string
  /\ uploadHistoryRef page0 = []
  /\ onUndo ctrlZ page0 = page0
  /\ uploads (onUndo ctrlZ (setUploadHistory (push [] [box]) page0)) = [box].
Proof.
  destruct (undo_pops_top_or_is_noop page0 ctrlZ eq_refl eq_refl) as [H _].
  destruct (undo_pops_top_or_is_noop (setUploadHistory (push [] [box]) page0)
              ctrlZ eq_refl eq_refl) as [_ H'].
  split; [reflexivity|]. split; [reflexivity|]. split; [reflexivity|].
  split; [exact (H eq_refl)|]. exact (proj1 (H' [] [box] eq_refl)).
Defined.

(** *** What the events of a session leave alone *)

Lemma onMove_frame (pos : Vec3) (p : Page) :
  uploadHistoryRef (onMove pos p) = uploadHistoryRef p
  /\ pendingUndoRef (onMove pos p) = pendingUndoRef p
  /\ draggedUploadId (onMove pos p) = draggedUploadId p
  /\ agvPos (onMove pos p) = agvPos p.
Proof.
  unfold onMove. destruct (draggedUploadId p) as [i|] eqn:E; [|auto].
  destruct (truthy (Some i)); cbn; auto.
Qed.


Lemma sameSession_refl (w : World) : sameSession w w.
Proof. unfold sameSession. auto 10. Qed.

Lemma sameSession_trans (a b c : World) :
  sameSession a b -> sameSession b c -> sameSession a c.
Proof.
  unfold sameSession. intros (?&?&?&?&?&?) (?&?&?&?&?&?).
  repeat split; congruence.
Qed.

Lemma step_sameSession (w : World) (ev : Event) :
  midDrag ev = true -> sameSession w (step w ev).
Proof.
  destruct ev; try discriminate; intros _; cbn [step].
  - unfold onKeyDown. destruct (String.eqb c "ArrowDown");
      [unfold sameSession; cbn; auto 10|apply sameSession_refl].
  - unfold onKeyUp. destruct (String.eqb c "ArrowDown");
      [unfold sameSession; cbn; auto 10|apply sameSession_refl].
  - unfold onPointerMove.
    destruct (draggingRef (refs w)) eqn:Hd; cbn [negb]; [|apply sameSession_refl].
    destruct (moveAxis (refs w) e).
    + unfold sameSession; cbn.
      match goal with |- context [onMove ?pos ?p] =>
        destruct (onMove_frame pos p) as (?&?&?&?) end.
      auto 10.
    + destruct (intersectPlane _ _) as [point|]; unfold sameSession; cbn; [|auto 10].
      match goal with |- context [onMove ?pos ?p] =>
        destruct (onMove_frame pos p) as (?&?&?&?) end.
      auto 10.
Qed.

Lemma run_sameSession (w : World) (evs : list Event) :
  List.forallb midDrag evs = true -> sameSession w (run w evs).
Proof.
  revert w. induction evs as [|ev evs IH]; intros w H; [apply sameSession_refl|].
  cbn in H. apply andb_prop in H as [H1 H2]. cbn [run List.fold_left].
  eapply sameSession_trans; [apply step_sameSession; exact H1|].
  apply IH. exact H2.
Qed.

Lemma run_app (w : World) (a b : list Event) : run w (a ++ b) = run (run w a) b.
Proof. unfold run. apply List.fold_left_app. Qed.

Lemma grabbed_down (w : World) (ev : Event) (i : string) (wp : Vec3) :
  grabbed ev = Some (i, wp) ->
  exists agv e hits,
    ev = PointerDown agv e hits
    /\ step w ev
       = mkWorld (onPick (Some i) (page w))
           (mkRefs true (Some (vy wp)) (Some wp) (Some (clientX e, clientY e))
              (arrowDownRef (refs w)) None (Some (grabOffset wp (ray e)))).
Proof.
  destruct ev; try discriminate. cbn [grabbed step]. unfold onPointerDown.
  destruct (Z.eqb (button e) 0); [|discriminate]. cbn [negb].
  intros ->. eauto.
Qed.

Lemma findUpload_truthy (agv : option N) (chain : Hit) (i : string) (wp : Vec3) :
  findUpload agv chain = Some (i, wp) -> truthy (Some i) = true.
Proof.
  induction chain as [|cur chain IH]; cbn; [discriminate|].
  destruct (isAgv agv cur); [discriminate|].
  destruct (truthy (uploadId cur)) eqn:Ht; [|exact IH].
  destruct (uploadId cur); [|discriminate]. now intros [= <- _].
Qed.

Lemma grabbed_truthy (ev : Event) (i : string) (wp : Vec3) :
  grabbed ev = Some (i, wp) -> truthy (Some i) = true.
Proof.
  destruct ev; try discriminate. cbn [grabbed].
  destruct (Z.eqb (button e) 0); [|discriminate].
  induction hits as [|h hits IH]; cbn; [discriminate|].
  destruct (findUpload agv h) as [[j wq]|] eqn:E; [|exact IH].
  intros [= <- <-]. eapply findUpload_truthy; eauto.
Qed.

(** What [onPick] does to the page when an entity was picked. *)
Lemma onPick_some (i : string) (p : Page) :
  truthy (Some i) = true ->
  uploads (onPick (Some i) p) = uploads p
  /\ uploadHistoryRef (onPick (Some i) p) = uploadHistoryRef p
  /\ pendingUndoRef (onPick (Some i) p) = Some (uploads p)
  /\ draggedUploadId (onPick (Some i) p) = Some i
  /\ agvPos (onPick (Some i) p) = agvPos p.
Proof.
  intros Ht. unfold onPick. rewrite Ht. cbn [setDraggedUploadId setIsDragging uploads].
  rewrite snapshot_id.
  match goal with |- context [List.find ?f ?l] => destruct (List.find f l) end;
    cbn; auto.
Qed.

Lemma onPick_none (p : Page) :
  uploads (onPick None p) = uploads p
  /\ uploadHistoryRef (onPick None p) = uploadHistoryRef p
  /\ pendingUndoRef (onPick None p) = pendingUndoRef p.
Proof. unfold onPick. cbn. auto. Qed.

(** *** One snapshot per session *)

Lemma onDrop_pending (p : Page) (snapshot : list UploadedGlb) :
  pendingUndoRef p = Some snapshot ->
  uploadHistoryRef (onDrop p) = push (uploadHistoryRef p) snapshot
  /\ pendingUndoRef (onDrop p) = None
  /\ uploads (onDrop p) = uploads p.
Proof. intros H. unfold onDrop. rewrite H. cbn. auto. Qed.

Lemma grab_then_drag (w : World) (down : Event) (mid : list Event)
  (i : string) (wp : Vec3) :
  grabbed down = Some (i, wp) -> List.forallb midDrag mid = true ->
  uploadHistoryRef (page (run w (down :: mid))) = uploadHistoryRef (page w)
  /\ pendingUndoRef (page (run w (down :: mid))) = Some (uploads (page w))
  /\ draggedUploadId (page (run w (down :: mid))) = Some i
  /\ draggingRef (refs (run w (down :: mid))) = true
  /\ dragYRef (refs (run w (down :: mid))) = Some (vy wp).
Proof.
  intros Hg Hmid.
  destruct (grabbed_down w down i wp Hg) as (agv & e & hits & -> & Hstep).
  destruct (onPick_some i (page w) (grabbed_truthy _ _ _ Hg)) as (_ & Hh & Hp & Hi & _).
  change (run w (PointerDown agv e hits :: mid))
    with (run (step w (PointerDown agv e hits)) mid).
  destruct (run_sameSession (step w (PointerDown agv e hits)) mid Hmid)
    as (H1 & H2 & H3 & H4 & H5 & _).
  rewrite H1, H2, H3, H4, H5, Hstep. cbn. auto.
Qed.

Lemma cycle_pushes_snapshot (w : World) (down : Event) (mid : list Event)
  (drop : Event) (i : string) (wp : Vec3) :
  grabbed down = Some (i, wp) -> List.forallb midDrag mid = true ->
  isDrop drop = true ->
  uploadHistoryRef (page (run w (dragCycle (down, mid, drop))))
  = push (uploadHistoryRef (page w)) (uploads (page w))
  /\ pendingUndoRef (page (run w (dragCycle (down, mid, drop)))) = None
  /\ draggingRef (refs (run w (dragCycle (down, mid, drop)))) = false.
Proof.
  intros Hg Hmid Hdrop.
  destruct (grab_then_drag w down mid i wp Hg Hmid) as (Hh & Hp & _ & Hd & _).
  cbn [dragCycle]. rewrite List.app_comm_cons, run_app.
  set (w1 := run w (down :: mid)) in *.
  assert (E : run w1 [drop] = onPointerUp w1) by (destruct drop; try discriminate; reflexivity).
  rewrite E. unfold onPointerUp. rewrite Hd. cbn [page refs draggingRef].
  destruct (onDrop_pending (page w1) _ Hp) as (H1 & H2 & _).
  now rewrite H1, H2, Hh.
Qed.

(** *** The mode of a session *)

(** Key events change [arrowDownRef] and nothing else. *)
Lemma step_key_frame (w : World) (ev : Event) :
  isKey ev = true ->
  page (step w ev) = page w
  /\ draggingRef (refs (step w ev)) = draggingRef (refs w)
  /\ dragYRef (refs (step w ev)) = dragYRef (refs w)
  /\ dragPosRef (refs (step w ev)) = dragPosRef (refs w)
  /\ lastPointerRef (refs (step w ev)) = lastPointerRef (refs w)
  /\ dragModeRef (refs (step w ev)) = dragModeRef (refs w)
  /\ dragOffsetRef (refs (step w ev)) = dragOffsetRef (refs w).
Proof.
  destruct ev; try discriminate; intros _; cbn [step].
  - unfold onKeyDown. destruct (String.eqb c "ArrowDown"); cbn; auto 10.
  - unfold onKeyUp. destruct (String.eqb c "ArrowDown"); cbn; auto 10.
Qed.

Lemma run_key_frame (evs : list Event) (w : World) :
  List.forallb isKey evs = true ->
  page (run w evs) = page w
  /\ draggingRef (refs (run w evs)) = draggingRef (refs w)
  /\ dragYRef (refs (run w evs)) = dragYRef (refs w)
  /\ dragPosRef (refs (run w evs)) = dragPosRef (refs w)
  /\ lastPointerRef (refs (run w evs)) = lastPointerRef (refs w)
  /\ dragModeRef (refs (run w evs)) = dragModeRef (refs w)
  /\ dragOffsetRef (refs (run w evs)) = dragOffsetRef (refs w).
Proof.
  revert w. induction evs as [|ev evs IH]; intros w H; [cbn; auto 10|].
  cbn in H. apply andb_prop in H as [H1 H2].
  destruct (IH (step w ev) H2) as (A1&A2&A3&A4&A5&A6&A7).
  destruct (step_key_frame w ev H1) as (B1&B2&B3&B4&B5&B6&B7).
  cbn [run List.fold_left]. fold (run (step w ev) evs).
  repeat split; congruence.
Qed.

Lemma chooseMode_fresh (r : Refs) (e : PointerEvent) (lx ly : Q) :
  dragModeRef r = None -> arrowDownRef r = false ->
  lastPointerRef r = Some (lx, ly) ->
  chooseMode r e
  = Some (if Qltb (Qabs (clientX e - lx) * 1.3) (Qabs (clientY e - ly))
          then ModeY else ModeXZ).
Proof. intros Hm Ha Hl. unfold chooseMode. now rewrite Hm, Ha, Hl. Qed.

Lemma onPointerMove_mode (e : PointerEvent) (w : World) :
  draggingRef (refs w) = true ->
  dragModeRef (refs (onPointerMove e w)) = chooseMode (refs w) e.
Proof.
  intros Hd. unfold onPointerMove. rewrite Hd. cbn [negb].
  destruct (moveAxis (refs w) e); [reflexivity|].
  destruct (intersectPlane _ _); reflexivity.
Qed.

(** C4. At the first pointer-move after a grab: with ArrowDown held the move
    takes the vertical branch (the mode ref stays unset); otherwise the mode
    is stored, and it is "Y" exactly when the vertical pixel delta since the
    grab exceeds 1.3 times the horizontal one, "XZ" otherwise, and the move
    takes the branch of that mode. *)
Theorem first_move_picks_mode
  (w : World) (agv : option N) (e0 : PointerEvent) (hits : list Hit)
  (keys : list Event) (e : PointerEvent) (i : string) (wp : Vec3) :
  grabbed (PointerDown agv e0 hits) = Some (i, wp) ->
  List.forallb isKey keys = true ->
  let w1 := run w (PointerDown agv e0 hits :: keys) in
  let dx := Qabs (clientX e - clientX e0) in
  let dy := Qabs (clientY e - clientY e0) in
  (arrowDownRef (refs w1) = true ->
     moveAxis (refs w1) e = ModeY
     /\ dragModeRef (refs (onPointerMove e w1)) = None)
  /\ (arrowDownRef (refs w1) = false ->
        (dx * 1.3 < dy ->
           moveAxis (refs w1) e = ModeY
           /\ dragModeRef (refs (onPointerMove e w1)) = Some ModeY)
        /\ (~ dx * 1.3 < dy ->
              moveAxis (refs w1) e = ModeXZ
              /\ dragModeRef (refs (onPointerMove e w1)) = Some ModeXZ)).
Proof.
  intros Hg Hkeys. cbv zeta.
  destruct (grabbed_down w _ i wp Hg) as (agv' & e' & hits' & [= <- <- <-] & Hstep).
  change (run w (PointerDown agv e0 hits :: keys))
    with (run (step w (PointerDown agv e0 hits)) keys).
  destruct (run_key_frame keys (step w (PointerDown agv e0 hits)) Hkeys)
    as (_ & Hd & _ & _ & Hl & Hm & _).
  set (w1 := run (step w (PointerDown agv e0 hits)) keys) in *.
  set (dx := Qabs (clientX e - clientX e0)).
  set (dy := Qabs (clientY e - clientY e0)).
  rewrite Hstep in Hd, Hl, Hm.
  change (draggingRef (refs w1) = true) in Hd.
  change (lastPointerRef (refs w1) = Some (clientX e0, clientY e0)) in Hl.
  change (dragModeRef (refs w1) = None) in Hm.
  split.
  - intros Ha. split; [unfold moveAxis; now rewrite Ha|].
    rewrite onPointerMove_mode by exact Hd.
    unfold chooseMode. now rewrite Hm, Ha.
  - intros Ha.
    pose proof (chooseMode_fresh (refs w1) e _ _ Hm Ha Hl) as Hc.
    fold dx dy in Hc.
    split; intros Hlt.
    + apply Qltb_lt in Hlt. rewrite Hlt in Hc.
      split; [unfold moveAxis; now rewrite Ha, Hc|].
      now rewrite onPointerMove_mode.
    + apply Qltb_nlt in Hlt. rewrite Hlt in Hc.
      split; [unfold moveAxis; now rewrite Ha, Hc|].
      now rewrite onPointerMove_mode.
Qed.

Lemma first_move_picks_mode_witness :
  grabbed grabBox = Some ("box.glb-1"%string, mkVec3 2 1 5)
  /\ moveAxis (refs (run world0 [grabBox; KeyDown "ArrowDown"])) (pointerAt 300 500)
     = ModeY
  /\ dragModeRef (refs (onPointerMove (pointerAt 210 520) (run world0 [grabBox])))
     = Some ModeY
  /\ dragModeRef (refs (onPointerMove (pointerAt 210 513) (run world0 [grabBox])))
     = Some ModeXZ.
Proof.
  split; [reflexivity|].
  split.
  { destruct (first_move_picks_mode world0 vehicleUuid (pointerAt 200 500) boxHits
                [KeyDown "ArrowDown"] (pointerAt 300 500) _ _ eq_refl eq_refl)
      as [H _].
    exact (proj1 (H eq_refl)). }
  split.
  - destruct (first_move_picks_mode world0 vehicleUuid (pointerAt 200 500) boxHits
                [] (pointerAt 210 520) _ _ eq_refl eq_refl) as [_ H].
    destruct (H eq_refl) as [Hy _]. apply Hy. reflexivity.
  - destruct (first_move_picks_mode world0 vehicleUuid (pointerAt 200 500) boxHits
                [] (pointerAt 210 513) _ _ eq_refl eq_refl) as [_ H].
    destruct (H eq_refl) as [_ Hxz]. apply Hxz. intros Hlt. vm_compute in Hlt.
    discriminate.
Defined.

Lemma chooseMode_stored (r : Refs) (e : PointerEvent) (m : DragMode) :
  dragModeRef r = Some m -> chooseMode r e = Some m.
Proof. intros H. unfold chooseMode. now rewrite H. Qed.

Lemma step_keeps_stored_mode (w : World) (ev : Event) (m : DragMode) :
  midDrag ev = true -> dragModeRef (refs w) = Some m ->
  dragModeRef (refs (step w ev)) = Some m.
Proof.
  intros Hmid Hm. destruct ev; try discriminate.
  - destruct (step_key_frame w (KeyDown c) eq_refl) as (_&_&_&_&_&H&_). congruence.
  - destruct (step_key_frame w (KeyUp c) eq_refl) as (_&_&_&_&_&H&_). congruence.
  - cbn [step]. destruct (draggingRef (refs w)) eqn:Hd.
    + rewrite onPointerMove_mode by exact Hd. now apply chooseMode_stored.
    + unfold onPointerMove. now rewrite Hd.
Qed.

Lemma run_keeps_stored_mode (evs : list Event) (w : World) (m : DragMode) :
  List.forallb midDrag evs = true -> dragModeRef (refs w) = Some m ->
  dragModeRef (refs (run w evs)) = Some m.
Proof.
  revert w. induction evs as [|ev evs IH]; intros w H Hm; [exact Hm|].
  cbn in H. apply andb_prop in H as [H1 H2].
  cbn [run List.fold_left]. apply (IH (step w ev) H2).
  now apply step_keeps_stored_mode.
Qed.

(** C3, as the code has it.  Once a pointer-move has stored the mode, no
    later pointer-move or key event of the session changes the stored mode,
    whatever the pixel deltas are; a pointer-move made while ArrowDown is not
    held moves the entity on the axes of the stored mode; a pointer-move made
    while ArrowDown is held takes the vertical branch whatever the stored
    mode is. *)
Theorem stored_mode_never_changes
  (w : World) (m : DragMode) (evs : list Event) (e : PointerEvent) :
  dragModeRef (refs w) = Some m -> List.forallb midDrag evs = true ->
  let w' := run w evs in
  dragModeRef (refs w') = Some m
  /\ (arrowDownRef (refs w') = false -> moveAxis (refs w') e = m)
  /\ (arrowDownRef (refs w') = true -> moveAxis (refs w') e = ModeY)
  /\ (draggingRef (refs w') = true ->
        dragModeRef (refs (onPointerMove e w')) = Some m).
Proof.
  intros Hm Hmid w'.
  pose proof (run_keeps_stored_mode evs w m Hmid Hm) as H. fold w' in H.
  split; [exact H|]. split; [|split].
  - intros Ha. unfold moveAxis. rewrite Ha, (chooseMode_stored _ e m H).
    now destruct m.
  - intros Ha. unfold moveAxis. now rewrite Ha.
  - intros Hd. rewrite onPointerMove_mode by exact Hd. now apply chooseMode_stored.
Qed.

Lemma stored_mode_never_changes_witness :
  dragModeRef (refs (run world0 [grabBox; PointerMove (pointerAt 300 500)]))
  = Some ModeXZ
  /\ dragModeRef
       (refs (run (run world0 [grabBox; PointerMove (pointerAt 300 500)])
                [PointerMove (pointerAt 300 100); KeyDown "ArrowDown";
                 PointerMove (pointerAt 400 400); KeyUp "ArrowDown"]))
     = Some ModeXZ.
Proof.
  split; [reflexivity|].
  exact (proj1 (stored_mode_never_changes
                  (run world0 [grabBox; PointerMove (pointerAt 300 500)]) ModeXZ
                  [PointerMove (pointerAt 300 100); KeyDown "ArrowDown";
                   PointerMove (pointerAt 400 400); KeyUp "ArrowDown"]
                  (pointerAt 0 0) eq_refl eq_refl)).
Defined.

(** C3 fails as stated: in one session the first move is horizontal (mode
    "XZ" stored, the box goes to x = 3 at the grabbed height 1); ArrowDown is
    then pressed, and the next move is vertical (the box rises to height 3 and
    its x stays 3 although the pointer moved 100 pixels to the right).  The
    other way round: with ArrowDown held at the first move the entity moves
    vertically and no mode is stored, and after the key is released the next
    move is horizontal. *)
Lemma modifier_changes_axis_mid_drag :
  (moveAxis (refs (run world0 [grabBox])) (pointerAt 300 500) = ModeXZ
   /\ dragModeRef (refs (run world0 [grabBox; PointerMove (pointerAt 300 500)]))
      = Some ModeXZ
   /\ uploadAt "box.glb-1" (mkVec3 3 1 5)
        (page (run world0 [grabBox; PointerMove (pointerAt 300 500)])) = true
   /\ moveAxis
        (refs (run world0 [grabBox; PointerMove (pointerAt 300 500);
                           KeyDown "ArrowDown"]))
        (pointerAt 400 400) = ModeY
   /\ uploadAt "box.glb-1" (mkVec3 3 3 5)
        (page (run world0 [grabBox; PointerMove (pointerAt 300 500);
                           KeyDown "ArrowDown"; PointerMove (pointerAt 400 400)]))
      = true)
  /\ (moveAxis (refs (run world0 [KeyDown "ArrowDown"; grabBox])) (pointerAt 400 400)
      = ModeY
      /\ dragModeRef
           (refs (run world0 [KeyDown "ArrowDown"; grabBox;
                              PointerMove (pointerAt 400 400); KeyUp "ArrowDown"]))
         = None
      /\ moveAxis
           (refs (run world0 [KeyDown "ArrowDown"; grabBox;
                              PointerMove (pointerAt 400 400); KeyUp "ArrowDown"]))
           (pointerAt 300 500) = ModeXZ).
Proof. vm_compute. repeat split. Qed.

(** *** Horizontal moves *)

Lemma moveUpload_position (i : string) (pos : Vec3) (l : list UploadedGlb)
  (u : UploadedGlb) :
  In u (moveUpload i pos l) -> id u = i -> position u = pos.
Proof.
  unfold moveUpload. rewrite List.in_map_iff. intros (u0 & <- & _).
  destruct (String.eqb_spec (id u0) i) as [E|E]; [reflexivity|].
  intros E'. contradiction.
Qed.

End DragFacts.

(** ** The attach/carry toggle *)

Module AttachFacts.

Import Geometry PageState Attach Samples.
Local Open Scope Q_scope.

Lemma setHas_add (s : list string) (a b : string) :
  setHas (setAdd s a) b = setHas s b || String.eqb b a.
Proof.
  unfold setAdd. destruct (setHas s a) eqn:E.
  - destruct (String.eqb_spec b a) as [->|]; [now rewrite E|now rewrite orb_false_r].
  - unfold setHas. rewrite List.existsb_app. cbn. now rewrite orb_false_r.
Qed.

Lemma setHas_delete (s : list string) (a b : string) :
  setHas (setDelete s a) b = setHas s b && negb (String.eqb b a).
Proof.
  unfold setHas, setDelete. induction s as [|c s IH]; [reflexivity|].
  cbn. destruct (String.eqb_spec c a) as [->|Hca]; cbn.
  - rewrite IH. destruct (String.eqb_spec b a); cbn; [now rewrite andb_false_r|].
    reflexivity.
  - rewrite IH. destruct (String.eqb_spec b c) as [->|]; cbn; [|reflexivity].
    destruct (String.eqb_spec c a); [contradiction|reflexivity].
Qed.

Lemma setHas_fold (l acc : list string) (b : string) :
  setHas (List.fold_left setAdd l acc) b = setHas acc b || setHas l b.
Proof.
  revert acc. induction l as [|a l IH]; intros acc; cbn [List.fold_left].
  - change (setHas [] b) with false. now rewrite orb_false_r.
  - rewrite IH, setHas_add.
    change (setHas (a :: l) b) with (String.eqb b a || setHas l b).
    now rewrite orb_assoc.
Qed.

Lemma setHas_from (l : list string) (b : string) : setHas (setFrom l) b = setHas l b.
Proof. unfold setFrom. now rewrite setHas_fold. Qed.

Example setFrom_dedups : setFrom ["a"; "b"; "a"]%string = ["a"; "b"]%string.
Proof. reflexivity. Qed.

Example setDelete_removes : setDelete ["a"; "b"]%string "a" = ["b"%string].
Proof. reflexivity. Qed.

Example mapSet_keeps_place :
  List.map rule_id
    (mapSet [mkRule "a" vzero; mkRule "b" vzero] (mkRule "a" (mkVec3 1 0 0)))
  = ["a"; "b"]%string.
Proof. reflexivity. Qed.

(** *** Add Rule keeps one rule per asset *)

Lemma mapSet_ids (m : list AttachRule) (r : AttachRule) (i : string) :
  In i (List.map rule_id (mapSet m r))
  <-> In i (List.map rule_id m) \/ i = rule_id r.
Proof.
  induction m as [|r' m IH]; cbn; [intuition|].
  destruct (String.eqb_spec (rule_id r') (rule_id r)) as [E|E]; cbn.
  - rewrite E. intuition.
  - rewrite IH. intuition.
Qed.

Lemma mapSet_NoDup (m : list AttachRule) (r : AttachRule) :
  List.NoDup (List.map rule_id m) -> List.NoDup (List.map rule_id (mapSet m r)).
Proof.
  induction m as [|r' m IH]; cbn; intros Hnd.
  - constructor; [intros []|constructor].
  - inversion Hnd as [|? ? Hni Hnd']; subst.
    destruct (String.eqb_spec (rule_id r') (rule_id r)) as [E|E]; cbn.
    + rewrite <- E. now constructor.
    + constructor; [|now apply IH].
      rewrite mapSet_ids. intros [H|H]; [contradiction|congruence].
Qed.

Lemma fold_mapSet_NoDup (rules acc : list AttachRule) :
  List.NoDup (List.map rule_id acc) ->
  List.NoDup (List.map rule_id (List.fold_left mapSet rules acc)).
Proof.
  revert acc. induction rules as [|r rules IH]; intros acc H; [exact H|].
  cbn. apply IH. now apply mapSet_NoDup.
Qed.

Section Trig.

Variables cos sin : Q -> Q.

(** The rules the page holds never repeat an asset id. *)
Lemma onAddRule_NoDup (p : Page) (sc : Scene) :
  List.NoDup (List.map rule_id (attachRules p)) ->
  List.NoDup (List.map rule_id (attachRules (onAddRule cos sin p sc))).
Proof.
  intros H. unfold onAddRule.
  destruct (List.concat _) as [|r rules]; [exact H|].
  cbn [setAttachRules attachRules].
  apply fold_mapSet_NoDup, fold_mapSet_NoDup. constructor.
Qed.

Abbreviation toggleRule := (Attach.toggleRule cos sin).
Abbreviation getWorldPosition := (Attach.getWorldPosition cos sin).
Abbreviation localToWorld := (Attach.localToWorld cos sin).
Abbreviation onKeyQ := (Attach.onKeyQ cos sin).

(** A rule leaves the objects and the membership of the other ids alone. *)
Lemma toggleRule_other (agv : Agv) (agvPos : Vec3) (st : Loop) (r : AttachRule)
  (i : string) :
  rule_id r <> i ->
  objects (toggleRule agv agvPos st r) !! i = objects st !! i
  /\ setHas (nextCarried (toggleRule agv agvPos st r)) i = setHas (nextCarried st) i.
Proof.
  intros Hne. unfold Attach.toggleRule.
  destruct (objects st !! rule_id r) as [obj|]; [|auto].
  assert (Hb : String.eqb i (rule_id r) = false).
  { apply String.eqb_neq. congruence. }
  destruct (setHas (nextCarried st) (rule_id r)).
  - cbn [objects nextCarried]. rewrite lookup_insert_ne by exact Hne.
    now rewrite setHas_delete, Hb, andb_true_r.
  - destruct (tooFar _ _); [auto|]. cbn [objects nextCarried].
    rewrite lookup_insert_ne by exact Hne.
    now rewrite setHas_add, Hb, orb_false_r.
Qed.

Lemma fold_toggle_other (agv : Agv) (agvPos : Vec3) (rules : list AttachRule)
  (st : Loop) (i : string) :
  ~ In i (List.map rule_id rules) ->
  objects (List.fold_left (toggleRule agv agvPos) rules st) !! i = objects st !! i
  /\ setHas (nextCarried (List.fold_left (toggleRule agv agvPos) rules st)) i
     = setHas (nextCarried st) i.
Proof.
  revert st. induction rules as [|r rules IH]; intros st Hni; [auto|].
  cbn in Hni. cbn [List.fold_left].
  destruct (IH (toggleRule agv agvPos st r)) as [H1 H2]; [tauto|].
  destruct (toggleRule_other agv agvPos st r i) as [H3 H4]; [tauto|].
  split; congruence.
Qed.

(** What a rule does to its own asset. *)
Lemma toggleRule_attach (agv : Agv) (agvPos : Vec3) (st : Loop) (r : AttachRule)
  (obj : Group) :
  objects st !! rule_id r = Some obj ->
  setHas (nextCarried st) (rule_id r) = false ->
  tooFar (getWorldPosition agv obj) agvPos = false ->
  objects (toggleRule agv agvPos st r) !! rule_id r = Some (mkGroup Vehicle (offset r))
  /\ setHas (nextCarried (toggleRule agv agvPos st r)) (rule_id r) = true.
Proof.
  intros Ho Hc Hd. unfold Attach.toggleRule. rewrite Ho, Hc, Hd.
  cbn [objects nextCarried].
  rewrite lookup_insert_eq, setHas_add, String.eqb_refl, orb_true_r. auto.
Qed.

Lemma toggleRule_skip (agv : Agv) (agvPos : Vec3) (st : Loop) (r : AttachRule)
  (obj : Group) :
  objects st !! rule_id r = Some obj ->
  setHas (nextCarried st) (rule_id r) = false ->
  tooFar (getWorldPosition agv obj) agvPos = true ->
  toggleRule agv agvPos st r = st.
Proof.
  intros Ho Hc Hd. unfold Attach.toggleRule. now rewrite Ho, Hc, Hd.
Qed.

Lemma toggleRule_detach (agv : Agv) (agvPos : Vec3) (st : Loop) (r : AttachRule)
  (obj : Group) :
  objects st !! rule_id r = Some obj ->
  setHas (nextCarried st) (rule_id r) = true ->
  objects (toggleRule agv agvPos st r) !! rule_id r
  = Some (mkGroup SceneRoot (getWorldPosition agv obj))
  /\ setHas (nextCarried (toggleRule agv agvPos st r)) (rule_id r) = false.
Proof.
  intros Ho Hc. unfold Attach.toggleRule. rewrite Ho, Hc.
  cbn [objects nextCarried].
  rewrite lookup_insert_eq, setHas_delete, String.eqb_refl, andb_false_r. auto.
Qed.

Lemma tooFar_spec (world agvPos : Vec3) :
  tooFar world agvPos = false
  <-> (vx world - vx agvPos) * (vx world - vx agvPos)
      + (vz world - vz agvPos) * (vz world - vz agvPos) <= 2 * 2.
Proof.
  unfold tooFar, pickRadius. rewrite GeometryFacts.Qltb_nlt. split.
  - apply Qnot_lt_le.
  - intros H H'. exact (Qlt_not_le _ _ H' H).
Qed.

(** *** The whole loop, for rules with distinct ids *)

Lemma rule_split (rules : list AttachRule) (r : AttachRule) :
  In r rules -> List.NoDup (List.map rule_id rules) ->
  exists pre post,
    rules = (pre ++ r :: post)%list
    /\ ~ In (rule_id r) (List.map rule_id pre)
    /\ ~ In (rule_id r) (List.map rule_id post).
Proof.
  intros Hin Hnd. destruct (List.in_split _ _ Hin) as (pre & post & ->).
  exists pre, post. split; [reflexivity|].
  rewrite List.map_app in Hnd. cbn [List.map] in Hnd.
  apply List.NoDup_remove_2 in Hnd. rewrite List.in_app_iff in Hnd. tauto.
Qed.

Lemma fold_attach (agv : Agv) (agvPos : Vec3) (rules : list AttachRule)
  (st : Loop) (r : AttachRule) (obj : Group) :
  In r rules -> List.NoDup (List.map rule_id rules) ->
  objects st !! rule_id r = Some obj ->
  setHas (nextCarried st) (rule_id r) = false ->
  tooFar (getWorldPosition agv obj) agvPos = false ->
  objects (List.fold_left (toggleRule agv agvPos) rules st) !! rule_id r
  = Some (mkGroup Vehicle (offset r))
  /\ setHas (nextCarried (List.fold_left (toggleRule agv agvPos) rules st)) (rule_id r)
     = true.
Proof.
  intros Hin Hnd Ho Hc Hd.
  destruct (rule_split rules r Hin Hnd) as (pre & post & -> & Hpre & Hpost).
  rewrite List.fold_left_app. cbn [List.fold_left].
  destruct (fold_toggle_other agv agvPos pre st _ Hpre) as [H1 H2].
  rewrite <- H1 in Ho. rewrite <- H2 in Hc.
  destruct (toggleRule_attach agv agvPos _ r obj Ho Hc Hd) as [H3 H4].
  destruct (fold_toggle_other agv agvPos post
              (toggleRule agv agvPos (List.fold_left (toggleRule agv agvPos) pre st) r)
              _ Hpost) as [H5 H6].
  split; congruence.
Qed.

Lemma fold_detach (agv : Agv) (agvPos : Vec3) (rules : list AttachRule)
  (st : Loop) (r : AttachRule) (obj : Group) :
  In r rules -> List.NoDup (List.map rule_id rules) ->
  objects st !! rule_id r = Some obj ->
  setHas (nextCarried st) (rule_id r) = true ->
  objects (List.fold_left (toggleRule agv agvPos) rules st) !! rule_id r
  = Some (mkGroup SceneRoot (getWorldPosition agv obj))
  /\ setHas (nextCarried (List.fold_left (toggleRule agv agvPos) rules st)) (rule_id r)
     = false.
Proof.
  intros Hin Hnd Ho Hc.
  destruct (rule_split rules r Hin Hnd) as (pre & post & -> & Hpre & Hpost).
  rewrite List.fold_left_app. cbn [List.fold_left].
  destruct (fold_toggle_other agv agvPos pre st _ Hpre) as [H1 H2].
  rewrite <- H1 in Ho. rewrite <- H2 in Hc.
  destruct (toggleRule_detach agv agvPos _ r obj Ho Hc) as [H3 H4].
  destruct (fold_toggle_other agv agvPos post
              (toggleRule agv agvPos (List.fold_left (toggleRule agv agvPos) pre st) r)
              _ Hpost) as [H5 H6].
  split; congruence.
Qed.

Lemma onKeyQ_unfold (p : Page) (sc : Scene) (agv : Agv) :
  agvRef sc = Some agv ->
  onKeyQ "KeyQ" p sc
  = loopEnd p sc
      (List.fold_left (toggleRule agv (agvPos p)) (attachRules p) (loopStart p sc)).
Proof.
  intros H. unfold Attach.onKeyQ.
  change (("KeyQ" =? "KeyQ")%string) with true. cbn [negb]. now rewrite H.
Qed.

(** C2, as the code has it.  Attach then detach, with the vehicle where it
    was, leaves the asset under the scene root at the vehicle's position plus
    the rule's stored offset turned by the vehicle's yaw.  That is the
    pre-attach world position when the stored offset is the pre-attach
    position minus the vehicle position, as Add Rule records it, the vehicle
    is unrotated and the telemetry position is the vehicle's position. *)
Theorem toggle_twice_lands_on_stored_offset
  (p : Page) (sc : Scene) (agv : Agv) (r : AttachRule) (obj : Group) :
  agvRef sc = Some agv ->
  In r (attachRules p) -> List.NoDup (List.map rule_id (attachRules p)) ->
  uploadObjectMapRef sc !! rule_id r = Some obj ->
  setHas (carriedIds p) (rule_id r) = false ->
  tooFar (getWorldPosition agv obj) (agvPos p) = false ->
  let once := onKeyQ "KeyQ" p sc in
  let twice := onKeyQ "KeyQ" (fst once) (snd once) in
  (agvRef (snd once) = Some agv /\ agvPos (fst once) = agvPos p)
  /\ setHas (carriedIds (fst once)) (rule_id r) = true
  /\ uploadObjectMapRef (snd once) !! rule_id r = Some (mkGroup Vehicle (offset r))
  /\ setHas (carriedIds (fst twice)) (rule_id r) = false
  /\ uploadObjectMapRef (snd twice) !! rule_id r
     = Some (mkGroup SceneRoot (localToWorld agv (offset r)))
  /\ (cos (rotationY agv) == 1 -> sin (rotationY agv) == 0 ->
      veq (agvPosition agv) (agvPos p) ->
      veq (offset r)
        (mkVec3 (vx (getWorldPosition agv obj) - vx (agvPos p))
                (vy (getWorldPosition agv obj) - vy (agvPos p))
                (vz (getWorldPosition agv obj) - vz (agvPos p))) ->
      veq (localToWorld agv (offset r)) (getWorldPosition agv obj)).
Proof.
  intros Hagv Hin Hnd Ho Hc Hd. cbv zeta.
  rewrite (onKeyQ_unfold p sc agv Hagv).
  set (st := List.fold_left (toggleRule agv (agvPos p)) (attachRules p) (loopStart p sc)).
  assert (Hc0 : setHas (nextCarried (loopStart p sc)) (rule_id r) = false).
  { cbn [loopStart nextCarried]. now rewrite setHas_from. }
  destruct (fold_attach agv (agvPos p) (attachRules p) (loopStart p sc) r obj
              Hin Hnd Ho Hc0 Hd) as [H1 H2].
  fold st in H1, H2.
  cbn [loopEnd fst snd agvRef uploadObjectMapRef].
  split; [split; [exact Hagv|reflexivity]|].
  split; [exact H2|]. split; [exact H1|].
  rewrite (onKeyQ_unfold _ (mkScene (agvRef sc) (objects st)) agv Hagv).
  cbn [loopEnd fst snd uploadObjectMapRef].
  assert (Hc1 : setHas (nextCarried
                          (loopStart (setCarriedIds (nextCarried st)
                                        (setUploads (fun _ => nextUploads st) p))
                             (mkScene (agvRef sc) (objects st)))) (rule_id r) = true).
  { cbn [loopStart nextCarried setCarriedIds carriedIds]. now rewrite setHas_from. }
  destruct (fold_detach agv (agvPos p) (attachRules p)
              (loopStart (setCarriedIds (nextCarried st)
                            (setUploads (fun _ => nextUploads st) p))
                 (mkScene (agvRef sc) (objects st)))
              r _ Hin Hnd H1 Hc1) as [H3 H4].
  split; [exact H4|]. split; [exact H3|].
  intros Hcos Hsin (Hx & Hy & Hz) (Ox & Oy & Oz).
  unfold veq, Attach.localToWorld, Attach.rotateY. cbn [vx vy vz] in *.
  rewrite Hcos, Hsin, Ox, Oy, Oz, Hx, Hy, Hz. repeat split; ring.
Qed.

End Trig.

(** C2 fails as stated.  The rule is recorded with the vehicle at the origin
    and the box at (1, 0, 0): offset (1, 0, 0).  The vehicle then drives to
    (1, 0, 1), one unit from the box.  The first toggle attaches the box, the
    second one detaches it, the vehicle standing still: the box ends at
    (2, 0, 1), not within 1e-4 of where it was. *)
Lemma toggle_twice_moves_asset :
  worldAt "box.glb-1" (mkVec3 1 0 0) sceneB = true
  /\ setHas (carriedIds (fst (pressQ (pageB, sceneB)))) "box.glb-1" = true
  /\ agvRef (snd (pressQ (pageB, sceneB))) = agvRef sceneB
  /\ setHas (carriedIds (fst (pressQ (pressQ (pageB, sceneB))))) "box.glb-1" = false
  /\ worldAt "box.glb-1" (mkVec3 2 0 1) (snd (pressQ (pressQ (pageB, sceneB)))) = true
  /\ match worldOf "box.glb-1" (snd (pressQ (pressQ (pageB, sceneB)))) with
     | Some w => within 0.0001 w (mkVec3 1 0 0)
     | None => true
     end = false.
Proof. vm_compute. repeat split. Qed.

Lemma toggle_twice_lands_on_stored_offset_witness :
  agvRef sceneA = Some (mkAgv (mkVec3 0 0 0) 0)
  /\ setHas (carriedIds (onAddRule cosAtZero sinAtZero pageA sceneA)) "box.glb-1" = false
  /\ uploadObjectMapRef
       (snd (pressQ (pressQ (onAddRule cosAtZero sinAtZero pageA sceneA, sceneA))))
     !! "box.glb-1"%string
     = Some (mkGroup SceneRoot
               (localToWorld cosAtZero sinAtZero (mkAgv (mkVec3 0 0 0) 0)
                  (mkVec3 (1 - 0) (0 - 0) (0 - 0)))).
Proof.
  split; [reflexivity|]. split; [reflexivity|].
  destruct (toggle_twice_lands_on_stored_offset cosAtZero sinAtZero
              (onAddRule cosAtZero sinAtZero pageA sceneA) sceneA
              (mkAgv (mkVec3 0 0 0) 0)
              (mkRule "box.glb-1" (mkVec3 (1 - 0) (0 - 0) (0 - 0)))
              (mkGroup SceneRoot (mkVec3 1 0 0))
              eq_refl (or_introl eq_refl)
              (List.NoDup_cons _ (fun H : In _ [] => H) (List.NoDup_nil _))
              eq_refl eq_refl eq_refl)
    as (_ & _ & _ & _ & H & _).
  exact H.
Defined.

End AttachFacts.

(** ** The camera rig *)

Module CameraFacts.

Import Geometry CameraRig Samples.
Local Open Scope Q_scope.

Lemma lerp_stays_above (g y v p : Q) :
  g <= y -> g <= v -> 0 <= p -> p <= 1 -> g <= y + (v - y) * (1 - p).
Proof. intros. nra. Qed.

Lemma lerp_stays_below (g y p : Q) :
  y < g -> 0 < p -> y + (g - y) * (1 - p) < g.
Proof. intros. nra. Qed.

Example followTarget_flyingLow :
  veqb (followTarget flyingLow) (mkVec3 0 0.19 4.8) = true.
Proof. reflexivity. Qed.

Example fpvTarget_flyingLow :
  fpvTarget flyingLow = Some (mkVec3 0 (Qmax (-3.5) (-0.01 + 0.2)) 0.75).
Proof. reflexivity. Qed.

Section Host.

Variable pow : Q -> Q -> Q.
Variable orbitUpdate : Vec3 -> Vec3.

Lemma followTarget_clamped (agv : AgvNode) :
  groundLevel (Some agv) + 0.2 <= vy (followTarget agv).
Proof. unfold followTarget, groundLevel. cbn [vy]. apply Q.le_max_r. Qed.

Lemma fpvTarget_clamped (agv : AgvNode) (v : Vec3) :
  fpvTarget agv = Some v -> groundLevel (Some agv) + 0.2 <= vy v.
Proof.
  unfold fpvTarget, groundLevel. destruct (fpvWorld agv); [|discriminate].
  intros [= <-]. cbn [vy]. apply Q.le_max_r.
Qed.

(** C9, as the code has it.  In FOLLOW and FPV mode the point the camera is
    steered to never lies below ground + 0.2; the camera moves the fraction
    1 - k^dt of the way to it, so a camera that is at or above ground + 0.2
    before a tick is at or above it after the tick (k^dt between 0 and 1). *)
Theorem camera_target_clamped_and_height_kept
  (mode : CamMode) (agv : AgvNode) (camera : Vec3) (dt : Q) :
  mode <> ORBIT ->
  0 <= pow 0.001 dt <= 1 -> 0 <= pow 0.0001 dt <= 1 ->
  let ground := groundLevel (Some agv) in
  ground + 0.2 <= vy (followTarget agv)
  /\ (forall v, fpvTarget agv = Some v -> ground + 0.2 <= vy v)
  /\ (ground + 0.2 <= vy camera ->
      ground + 0.2 <= vy (tick pow orbitUpdate mode (Some agv) camera dt)).
Proof.
  intros Hmode [Hf0 Hf1] [Hp0 Hp1] ground.
  split; [apply followTarget_clamped|]. split; [apply fpvTarget_clamped|].
  intros Hcam. destruct mode; [congruence| |]; cbn [tick].
  - cbn [lerp vy]. apply lerp_stays_above; auto. apply followTarget_clamped.
  - destruct (fpvTarget agv) as [v|] eqn:E; [|exact Hcam].
    cbn [lerp vy]. apply lerp_stays_above; auto. now apply fpvTarget_clamped.
Qed.

(** A camera under ground + 0.2 whose target is clamped to that height stays
    under it, however long the mode is kept (k^dt is positive). *)
Lemma camera_below_clamped_target_stays_below
  (agv : AgvNode) (camera : Vec3) (dt : Q) :
  0 < pow 0.001 dt ->
  vy (followTarget agv) == groundLevel (Some agv) + 0.2 ->
  vy camera < groundLevel (Some agv) + 0.2 ->
  vy (tick pow orbitUpdate FOLLOW (Some agv) camera dt)
  < groundLevel (Some agv) + 0.2.
Proof.
  intros Hp Ht Hc. cbn [tick lerp vy]. rewrite Ht. now apply lerp_stays_below.
Qed.

(** At sixty frames a second k^dt is about 0.89 for k = 0.001: a camera left
    under the ground by the orbit controls is still under ground + 0.2 after
    the first FOLLOW tick, although the vehicle stands well above it. *)
Lemma camera_below_after_short_tick :
  17 # 20 <= pow 0.001 (1 # 60) ->
  vy (tick pow orbitUpdate FOLLOW (Some parked) cameraBelow (1 # 60))
  < groundLevel (Some parked) + 0.2.
Proof.
  intros Hp. cbn [tick lerp vy].
  assert (Ht : vy (followTarget parked) == 12.74) by reflexivity.
  assert (Hg : groundLevel (Some parked) + 0.2 == 0.19) by reflexivity.
  rewrite Ht, Hg. cbn [cameraBelow vy]. nra.
Qed.

End Host.

Lemma camera_target_clamped_and_height_kept_witness :
  FOLLOW <> ORBIT
  /\ 0 <= powWhole 0.001 1 <= 1
  /\ 0 <= powWhole 0.0001 1 <= 1
  /\ groundLevel (Some flyingLow) + 0.2 <= vy (mkVec3 0 1 0)
  /\ groundLevel (Some flyingLow) + 0.2
     <= vy (tick powWhole orbitOff FOLLOW (Some flyingLow) (mkVec3 0 1 0) 1).
Proof.
  assert (H1 : 0 <= powWhole 0.001 1 <= 1) by (split; vm_compute; discriminate).
  assert (H2 : 0 <= powWhole 0.0001 1 <= 1) by (split; vm_compute; discriminate).
  assert (H3 : groundLevel (Some flyingLow) + 0.2 <= vy (mkVec3 0 1 0))
    by (vm_compute; discriminate).
  assert (H0 : FOLLOW <> ORBIT) by discriminate.
  split; [exact H0|]. split; [exact H1|]. split; [exact H2|]. split; [exact H3|].
  destruct (camera_target_clamped_and_height_kept powWhole orbitOff FOLLOW flyingLow
              (mkVec3 0 1 0) 1 H0 H1 H2) as (_ & _ & H).
  exact (H H3).
Defined.

(** C9 fails as stated.  The vehicle has been flown under the ground plane
    and the camera is near it, at height -3; the rig's ground is -0.01.  One
    tick in FOLLOW mode, and one in FPV mode, with a frame delta of one
    second: the camera is still under ground + 0.2 = 0.19 (at 0.18681 and
    0.189681). *)
Lemma camera_below_ground_clearance_after_tick :
  Qltb (vy (tick powWhole orbitOff FOLLOW (Some flyingLow) cameraBelow 1))
       (groundLevel (Some flyingLow) + 0.2) = true
  /\ Qltb (vy (tick powWhole orbitOff FPV (Some flyingLow) cameraBelow 1))
          (groundLevel (Some flyingLow) + 0.2) = true
  /\ Qeq_bool (vy (tick powWhole orbitOff FOLLOW (Some flyingLow) cameraBelow 1))
       0.18681 = true
  /\ Qeq_bool (vy (tick powWhole orbitOff FPV (Some flyingLow) cameraBelow 1))
       0.189681 = true.
Proof. vm_compute. repeat split. Qed.

End CameraFacts.

(** ** The mesh picker *)

Module PickerFacts.

Import Geometry MeshPicker Samples.
Local Open Scope Q_scope.


Example volumeOf_flat : volumeOf emptyGroup = None.
Proof. reflexivity. Qed.

Example volumeOf_box : volumeOf bigShelf = Some (4 * 2 * 1).
Proof. reflexivity. Qed.

Example pick_skips_vehicle :
  pickHit (Some 2%N) [vehicleWheel; bigShelf; smallProp] = Some smallProp.
Proof. reflexivity. Qed.

Lemma volumeLe_refl (a : Volume) : volumeLe a a.
Proof. destruct a; cbn; [apply Qle_refl|exact I]. Qed.

Lemma volumeLe_trans (a b c : Volume) : volumeLe a b -> volumeLe b c -> volumeLe a c.
Proof.
  destruct a, b, c; cbn; try tauto. apply Qle_trans.
Qed.

Lemma volumeLt_le (a b : Volume) : volumeLt a b = true -> volumeLe a b.
Proof.
  destruct a, b; cbn; try discriminate; try tauto.
  intros H%GeometryFacts.Qltb_lt. now apply Qlt_le_weak.
Qed.

Lemma volumeLt_finite (a b : Volume) : volumeLt a b = true -> a <> None.
Proof. destruct a; [discriminate|]. cbn. discriminate. Qed.

Lemma volumeLt_false_le (a b : Volume) : volumeLt a b = false -> volumeLe b a.
Proof.
  destruct a, b; cbn; try discriminate; try tauto.
  intros H%GeometryFacts.Qltb_nlt. now apply Qnot_lt_le.
Qed.



Lemma scan_spec (agv : option N) (hits : list Object3D) :
  forall (best : option Object3D),
    (forall b, best = Some b -> eligible agv b) ->
    let r := scan agv hits best (bestVolumeOf best) in
    (forall b, r = Some b -> eligible agv b)
    /\ volumeLe (bestVolumeOf r) (bestVolumeOf best)
    /\ (forall c, In c hits -> inVehicle agv c = false ->
                  volumeLe (bestVolumeOf r) (volumeOf c))
    /\ (r = best \/ exists c, In c hits /\ r = Some c).
Proof.
  induction hits as [|obj rest IH]; intros best Hbest; cbn [scan].
  - cbv zeta. split; [exact Hbest|]. split; [apply volumeLe_refl|].
    split; [intros c []|now left].
  - destruct (inVehicle agv obj) eqn:Hv.
    + destruct (IH best Hbest) as (H1 & H2 & H3 & H4). cbv zeta in *.
      split; [exact H1|]. split; [exact H2|]. split.
      * intros c [<-|Hc] Hc'; [congruence|now apply H3].
      * destruct H4 as [H4|(c & Hc & H4)]; [now left|right; exists c; cbn; auto].
    + destruct (volumeLt (volumeOf obj) (bestVolumeOf best)) eqn:Hlt.
      * assert (Hobj : forall b, Some obj = Some b -> eligible agv b).
        { intros b [= <-]. split; [exact Hv|]. eapply volumeLt_finite; eauto. }
        destruct (IH (Some obj) Hobj) as (H1 & H2 & H3 & H4).
        cbv zeta in *. cbn [bestVolumeOf] in *.
        split; [exact H1|]. split.
        { eapply volumeLe_trans; [exact H2|]. now apply volumeLt_le. }
        split.
        { intros c [<-|Hc] Hc'; [exact H2|now apply H3]. }
        destruct H4 as [H4|(c & Hc & H4)];
          [right; exists obj; cbn; auto|right; exists c; cbn; auto].
      * destruct (IH best Hbest) as (H1 & H2 & H3 & H4). cbv zeta in *.
        split; [exact H1|]. split; [exact H2|]. split.
        { intros c [<-|Hc] Hc'; [|now apply H3].
          eapply volumeLe_trans; [exact H2|]. now apply volumeLt_false_le. }
        destruct H4 as [H4|(c & Hc & H4)]; [now left|right; exists c; cbn; auto].
Qed.

Lemma scan_none_iff (agv : option N) (hits : list Object3D) :
  scan agv hits None None = None
  <-> (forall c, In c hits -> inVehicle agv c = true \/ volumeOf c = None).
Proof.
  destruct (scan_spec agv hits None) as (H1 & _ & H3 & H4); [discriminate|].
  cbv zeta in *. cbn [bestVolumeOf] in *. split.
  - intros E c Hc. rewrite E in H3. cbn in H3.
    destruct (inVehicle agv c) eqn:Hv; [now left|right].
    specialize (H3 c Hc Hv). destruct (volumeOf c); [contradiction|reflexivity].
  - intros Hall. destruct (scan agv hits None None) as [b|] eqn:E; [|reflexivity].
    destruct (H1 b eq_refl) as [Hv Hvol].
    destruct H4 as [H4|(c & Hc & [= Hbc])]; [discriminate|]. subst c.
    destruct (Hall b Hc); congruence.
Qed.

(** C8, as the code has it.  With hits under the pointer, a hit is chosen.
    When some hit outside the vehicle subtree has a non-zero volume, the
    chosen one is such a hit and no hit outside the vehicle subtree has a
    smaller volume, a zero volume counting as infinite: of two hits with
    volumes V1 < V2 outside the vehicle the V1 one is chosen, in whichever
    order the ray meets them.  When there is no such hit, the first hit along
    the ray is chosen. *)
Theorem pick_prefers_smallest_volume (agv : option N) (hits : list Object3D) :
  hits <> [] ->
  exists hit,
    pickHit agv hits = Some hit /\ In hit hits
    /\ ((exists c, In c hits /\ eligible agv c) ->
        eligible agv hit
        /\ forall c, In c hits -> inVehicle agv c = false ->
                     volumeLe (volumeOf hit) (volumeOf c))
    /\ ((forall c, In c hits -> inVehicle agv c = true \/ volumeOf c = None) ->
        List.head hits = Some hit)
    /\ (forall a b v1,
          hits = [a; b] \/ hits = [b; a] ->
          inVehicle agv a = false -> inVehicle agv b = false ->
          volumeOf a = Some v1 ->
          (forall v2, volumeOf b = Some v2 -> v1 < v2) ->
          hit = a).
Proof.
  intros Hne. destruct hits as [|first rest]; [congruence|].
  destruct (scan_spec agv (first :: rest) None) as (H1 & _ & H3 & H4); [discriminate|].
  cbv zeta in *. change (bestVolumeOf None) with (@None Q) in *.
  assert (Hmain : exists hit,
    pickHit agv (first :: rest) = Some hit /\ In hit (first :: rest)
    /\ ((exists c, In c (first :: rest) /\ eligible agv c) ->
        eligible agv hit
        /\ forall c, In c (first :: rest) -> inVehicle agv c = false ->
                     volumeLe (volumeOf hit) (volumeOf c))
    /\ ((forall c, In c (first :: rest) ->
                   inVehicle agv c = true \/ volumeOf c = None) ->
        List.head (first :: rest) = Some hit)).
  { unfold pickHit.
    destruct (scan agv (first :: rest) None None) as [b|] eqn:E.
    - exists b. split; [reflexivity|]. cbn [bestVolumeOf] in H3.
      destruct H4 as [H4|(c & Hc & [= Hbc])]; [discriminate|]. subst c.
      split; [exact Hc|]. split.
      + intros _. split; [now apply H1|exact H3].
      + intros Hall. apply scan_none_iff in Hall. congruence.
    - exists first. split; [reflexivity|]. split; [now left|]. split.
      + intros (c & Hc & Hv & Hvol). exfalso.
        destruct (proj1 (scan_none_iff agv (first :: rest)) E c Hc); congruence.
      + reflexivity. }
  destruct Hmain as (hit & Hp & Hin & Hbest & Hfall).
  exists hit. split; [exact Hp|]. split; [exact Hin|].
  split; [exact Hbest|]. split; [exact Hfall|].
  intros a b v1 Hab Ha Hb Hva Hlt.
  assert (Hel : exists c, In c (first :: rest) /\ eligible agv c).
  { exists a. split.
    - destruct Hab as [-> | ->]; cbn; auto.
    - split; [exact Ha|]. rewrite Hva. discriminate. }
  destruct (Hbest Hel) as [[_ Hvol] Hmin].
  assert (Hhit : hit = a \/ hit = b).
  { destruct Hab as [Hab|Hab]; rewrite Hab in Hin; cbn in Hin;
      destruct Hin as [E|[E|[]]]; subst hit; auto. }
  destruct Hhit as [Hh|Hh]; [exact Hh|]. subst hit. exfalso.
  assert (Hina : In a (first :: rest)) by (destruct Hab as [-> | ->]; cbn; auto).
  specialize (Hmin a Hina Ha). rewrite Hva in Hmin.
  destruct (volumeOf b) as [v2|] eqn:Hvb; [|congruence].
  cbn in Hmin. specialize (Hlt v2 eq_refl). exact (Qlt_not_le _ _ Hlt Hmin).
Qed.

Lemma pick_prefers_smallest_volume_witness :
  [bigShelf; smallProp] <> []
  /\ pickHit (Some 2%N) [bigShelf; smallProp] = Some smallProp
  /\ pickHit (Some 2%N) [smallProp; bigShelf] = Some smallProp.
Proof.
  assert (Hne : [bigShelf; smallProp] <> []) by discriminate.
  assert (Hne' : [smallProp; bigShelf] <> []) by discriminate.
  split; [exact Hne|].
  assert (Hlt : forall v2, volumeOf bigShelf = Some v2 -> 1 * 1 * 1 < v2).
  { intros v2 [= <-]. reflexivity. }
  split.
  - destruct (pick_prefers_smallest_volume (Some 2%N) [bigShelf; smallProp] Hne)
      as (hit & Hp & _ & _ & _ & Htwo).
    rewrite Hp. f_equal.
    exact (Htwo smallProp bigShelf (1 * 1 * 1) (or_intror eq_refl)
             eq_refl eq_refl eq_refl Hlt).
  - destruct (pick_prefers_smallest_volume (Some 2%N) [smallProp; bigShelf] Hne')
      as (hit & Hp & _ & _ & _ & Htwo).
    rewrite Hp. f_equal.
    exact (Htwo smallProp bigShelf (1 * 1 * 1) (or_introl eq_refl)
             eq_refl eq_refl eq_refl Hlt).
Defined.

(** C8 fails as stated.  The pointer is over the vehicle with nothing else
    on the ray: the loop skips the vehicle's meshes, keeps no candidate, and
    the handler falls back to the first hit, a mesh of the vehicle.  The same
    happens when the only other hit has a zero volume. *)
Lemma pick_falls_back_to_vehicle_mesh :
  pickHit (Some 2%N) [vehicleBody; vehicleWheel] = Some vehicleBody
  /\ inVehicle (Some 2%N) vehicleBody = true
  /\ pickHit (Some 2%N) [vehicleBody; emptyGroup] = Some vehicleBody
  /\ inVehicle (Some 2%N) emptyGroup = false
  /\ volumeOf emptyGroup = None.
Proof. vm_compute. repeat split. Qed.

End PickerFacts.

(** ** The upload and delete routes together *)

Module RouteFacts.

Import Upload DeleteRoute UploadFacts.
Local Open Scope string_scope.

Lemma all_allowed_app (a b : string) :
  all_allowed (a ++ b) = all_allowed a && all_allowed b.
Proof.
  induction a as [|c a IH]; [reflexivity|].
  change (all_allowed (String c a ++ b)) with (allowed c && all_allowed (a ++ b)).
  rewrite IH. cbn [all_allowed]. now rewrite andb_assoc.
Qed.

Lemma replace_unsafe_allowed (s : string) : all_allowed (replace_unsafe s) = true.
Proof.
  induction s as [|c s IH]; [reflexivity|]. cbn [replace_unsafe all_allowed].
  rewrite IH, andb_true_r. destruct (allowed c) eqn:E; [exact E|reflexivity].
Qed.

Lemma string_of_uint_allowed (d : Decimal.uint) :
  all_allowed (NilEmpty.string_of_uint d) = true.
Proof. induction d; cbn [NilEmpty.string_of_uint all_allowed]; auto. Qed.

Lemma show_number_allowed (n : Z) : all_allowed (show_number n) = true.
Proof.
  unfold show_number, NilZero.string_of_int, NilZero.string_of_uint.
  destruct (Z.to_int n) as [d|d]; destruct d;
    cbn [all_allowed]; rewrite ?string_of_uint_allowed; reflexivity.
Qed.

(** X1. Whatever the client's file name and the clock are, the stored name
    consists of characters of [[a-zA-Z0-9._-]] only. *)
Theorem safeName_only_allowed_characters (now : Z) (name : string) :
  all_allowed (safeName now name) = true.
Proof.
  unfold safeName. rewrite !all_allowed_app.
  now rewrite show_number_allowed, replace_unsafe_allowed.
Qed.

Lemma replace_unsafe_fixed (s : string) :
  all_allowed s = true -> replace_unsafe s = s.
Proof.
  induction s as [|c s IH]; [reflexivity|]. cbn [all_allowed replace_unsafe].
  intros [Hc Hs]%andb_prop. now rewrite Hc, (IH Hs).
Qed.

(** X2. Replacing the unsafe characters keeps the length of the name, leaves
    a name of allowed characters as it is, and doing it twice is doing it
    once. *)
Theorem replace_unsafe_length_fixed_idempotent (s : string) :
  String.length (replace_unsafe s) = String.length s
  /\ (all_allowed s = true -> replace_unsafe s = s)
  /\ replace_unsafe (replace_unsafe s) = replace_unsafe s.
Proof.
  split; [|split].
  - induction s as [|c s IH]; [reflexivity|]. cbn. now rewrite IH.
  - apply replace_unsafe_fixed.
  - apply replace_unsafe_fixed, replace_unsafe_allowed.
Qed.

Lemma replace_unsafe_length_fixed_idempotent_witness :
  all_allowed "box_v2.glb" = true /\ replace_unsafe "box_v2.glb" = "box_v2.glb".
Proof.
  split; [reflexivity|].
  exact (proj1 (proj2 (replace_unsafe_length_fixed_idempotent "box_v2.glb")) eq_refl).
Defined.

Lemma filter_nonempty_snoc (l : list string) (seg : string) :
  nonempty seg = true ->
  List.filter nonempty (l ++ [seg]) = (List.filter nonempty l ++ [seg])%list.
Proof. intros H. rewrite List.filter_app. cbn. now rewrite H. Qed.

Lemma basename_last_segment (dir seg : string) :
  slash_free seg = true -> nonempty seg = true ->
  basename (dir ++ String "/" seg) = seg.
Proof.
  intros Hf Hn. unfold basename.
  rewrite split_slash_app, (split_slash_free seg Hf), filter_nonempty_snoc by exact Hn.
  apply List.last_last.
Qed.

Lemma basename_plain (seg : string) :
  slash_free seg = true -> basename seg = seg.
Proof.
  intros Hf. unfold basename. rewrite (split_slash_free seg Hf). cbn.
  destruct seg; reflexivity.
Qed.

Lemma allowed_slash_free (s : string) : all_allowed s = true -> slash_free s = true.
Proof.
  induction s as [|c s IH]; [reflexivity|]. cbn [all_allowed slash_free].
  intros [Hc Hs]%andb_prop. now rewrite (allowed_not_slash c Hc), (IH Hs).
Qed.

(** X3. Only the last component of the client's file name is used: the
    directories before it are discarded, and a last component made of allowed
    characters is stored as it is, after the stamp and a hyphen. *)
Theorem safeName_keeps_last_component (now : Z) (dir name : string) :
  all_allowed name = true -> nonempty name = true ->
  safeName now (dir ++ String "/" name) = show_number now ++ "-" ++ name
  /\ safeName now name = show_number now ++ "-" ++ name.
Proof.
  intros Ha Hn. pose proof (allowed_slash_free name Ha) as Hf. unfold safeName.
  now rewrite (basename_last_segment dir name Hf Hn), (basename_plain name Hf),
    (replace_unsafe_fixed name Ha).
Qed.

Lemma safeName_keeps_last_component_witness :
  all_allowed "box.glb" = true /\ nonempty "box.glb" = true
  /\ safeName 17 ("../../tmp" ++ String "/" "box.glb") = "17-box.glb".
Proof.
  split; [reflexivity|]. split; [reflexivity|].
  exact (proj1 (safeName_keeps_last_component 17 "../../tmp" "box.glb" eq_refl eq_refl)).
Defined.

(** *** [path.join] under the working directory *)

Lemma normalize_plain (p : string) :
  nonempty p = true -> ends_with_slash p = false ->
  normalizeString (negb (isAbsolute p)) (split_slash p) <> [] ->
  normalize p
  = root_of (isAbsolute p)
    ++ String.concat "/" (normalizeString (negb (isAbsolute p)) (split_slash p)).
Proof.
  intros Hn Ht Hne.
  pose proof (normalizeString_normal (negb (isAbsolute p)) (split_slash p)) as Hnormal.
  destruct (concat_head_not_slash _ Hne (normalizeString_slash_free _ p)
              (normal_nonempty _ _ Hnormal)) as [Hcn _].
  unfold normalize. rewrite Hn, Hcn, Ht. cbn [negb].
  destruct (isAbsolute p); reflexivity.
Qed.

Lemma concat_cons (x y : string) (l : list string) :
  String.concat "/" (x :: y :: l) = x ++ String "/" (String.concat "/" (y :: l)).
Proof. reflexivity. Qed.

Lemma concat_no_trailing (l : list string) :
  l <> [] -> List.Forall (fun s => slash_free s = true) l ->
  List.Forall (fun s => nonempty s = true) l ->
  ends_with_slash (String.concat "/" l) = false.
Proof.
  induction l as [|x l IH]; [congruence|]. intros _ Hs Hn.
  inversion Hs as [|? ? Hx Hs']; inversion Hn as [|? ? Hx' Hn']; subst.
  destruct l as [|y l]; [now apply slash_free_no_trailing|].
  rewrite concat_cons, ends_with_slash_app by reflexivity.
  destruct (concat_head_not_slash (y :: l)) as [Hc _]; [discriminate|auto|auto|].
  destruct (String.concat "/" (y :: l)) as [|c rest] eqn:E; [discriminate|].
  change (ends_with_slash (String "/" (String c rest)))
    with (ends_with_slash (String c rest)).
  apply IH; [discriminate|auto|auto].
Qed.

Lemma join_under_cwd (cwd : string) (segs : list string) :
  segs <> [] -> List.Forall (fun s => slash_free s = true) segs ->
  List.Forall (fun s => nonempty s = true) segs ->
  normalizeString (negb (isAbsolute cwd)) (split_slash cwd ++ segs) <> [] ->
  join (cwd :: segs)
  = root_of (isAbsolute cwd)
    ++ String.concat "/"
         (normalizeString (negb (isAbsolute cwd)) (split_slash cwd ++ segs)).
Proof.
  intros Hne Hs Hn Hnrm.
  assert (Hfilter : List.filter nonempty segs = segs).
  { clear Hne Hs Hnrm. induction Hn as [|x l Hx Hl IH]; [reflexivity|].
    cbn. now rewrite Hx, IH. }
  destruct (concat_head_not_slash segs Hne Hs Hn) as [Hcn Hca].
  pose proof (concat_no_trailing segs Hne Hs Hn) as Htrail.
  destruct segs as [|y l]; [congruence|].
  destruct cwd as [|c w].
  - unfold join.
    change (List.filter nonempty ("" :: y :: l)) with (List.filter nonempty (y :: l)).
    rewrite Hfilter. cbv iota.
    assert (Hsplit : split_slash (String.concat "/" (y :: l)) = y :: l)
      by (apply split_concat; [discriminate|exact Hs]).
    assert (E : normalize (String.concat "/" (y :: l))
                = root_of (isAbsolute (String.concat "/" (y :: l)))
                  ++ String.concat "/"
                       (normalizeString (negb (isAbsolute (String.concat "/" (y :: l))))
                          (split_slash (String.concat "/" (y :: l))))).
    { apply normalize_plain; [exact Hcn|exact Htrail|]. now rewrite Hca, Hsplit. }
    rewrite Hca, Hsplit in E. exact E.
  - set (cwd := String c w) in *. unfold join.
    change (List.filter nonempty (cwd :: y :: l))
      with (cwd :: List.filter nonempty (y :: l)).
    rewrite Hfilter, concat_cons.
    assert (E : normalize (cwd ++ String "/" (String.concat "/" (y :: l)))
                = root_of (isAbsolute (cwd ++ String "/" (String.concat "/" (y :: l))))
                  ++ String.concat "/"
                       (normalizeString
                          (negb (isAbsolute (cwd ++ String "/" (String.concat "/" (y :: l)))))
                          (split_slash (cwd ++ String "/" (String.concat "/" (y :: l)))))).
    { apply normalize_plain.
      - reflexivity.
      - rewrite ends_with_slash_app by reflexivity.
        destruct (String.concat "/" (y :: l)) as [|c' rest] eqn:E; [discriminate|].
        exact Htrail.
      - rewrite split_slash_app, split_concat by (auto; discriminate). exact Hnrm. }
    rewrite split_slash_app, split_concat in E by (auto; discriminate).
    exact E.
Qed.

Lemma normalizeString_app (a : bool) (segs more : list string) :
  normalizeString a (segs ++ more)
  = List.fold_left (norm_step a) more (normalizeString a segs).
Proof. unfold normalizeString. apply List.fold_left_app. Qed.

Lemma snoc_not_nil {A} (l : list A) (x : A) : (l ++ [x])%list <> [].
Proof. destruct l; discriminate. Qed.

Lemma uploadDir_formula (cwd : string) :
  uploadDir cwd
  = root_of (isAbsolute cwd)
    ++ String.concat "/"
         ((normalizeString (negb (isAbsolute cwd)) (split_slash cwd) ++ ["public"])
          ++ ["uploads"]).
Proof.
  unfold uploadDir.
  assert (E : normalizeString (negb (isAbsolute cwd))
                (split_slash cwd ++ ["public"; "uploads"])
              = ((normalizeString (negb (isAbsolute cwd)) (split_slash cwd)
                  ++ ["public"]) ++ ["uploads"])%list).
  { rewrite normalizeString_app. cbn [List.fold_left].
    now rewrite !norm_step_kept. }
  rewrite join_under_cwd; [now rewrite E|discriminate| | |].
  - repeat constructor.
  - repeat constructor.
  - rewrite E. apply snoc_not_nil.
Qed.

Lemma join_public (cwd : string) :
  join [cwd; "public"]
  = root_of (isAbsolute cwd)
    ++ String.concat "/"
         (normalizeString (negb (isAbsolute cwd)) (split_slash cwd) ++ ["public"]).
Proof.
  assert (E : normalizeString (negb (isAbsolute cwd)) (split_slash cwd ++ ["public"])
              = (normalizeString (negb (isAbsolute cwd)) (split_slash cwd)
                 ++ ["public"])%list).
  { now rewrite normalizeString_snoc. }
  rewrite join_under_cwd; [now rewrite E|discriminate| | |].
  - repeat constructor.
  - repeat constructor.
  - rewrite E. apply snoc_not_nil.
Qed.

(** The path handed to [unlink], by the shape of the name. *)
Lemma delete_path (cwd name : string) :
  slash_free name = true ->
  (proper name = true ->
     join [cwd; "public"; "uploads"; name] = uploadDir cwd ++ String "/" name)
  /\ (name = ".." -> join [cwd; "public"; "uploads"; name] = join [cwd; "public"])
  /\ (name = "." \/ name = "" ->
        join [cwd; "public"; "uploads"; name] = uploadDir cwd).
Proof.
  intros Hf.
  set (a := negb (isAbsolute cwd)).
  set (N := normalizeString a (split_slash cwd)).
  assert (Hstep : forall seg,
            normalizeString a (split_slash cwd ++ ["public"; "uploads"; seg])
            = norm_step a ((N ++ ["public"]) ++ ["uploads"]) seg).
  { intros seg. rewrite normalizeString_app. cbn [List.fold_left]. fold N.
    rewrite (norm_step_kept a N "public") by reflexivity.
    now rewrite (norm_step_kept a _ "uploads") by reflexivity. }
  split; [|split].
  - intros Hp. pose proof (proper_kept name Hp) as Hk.
    pose proof (kept_nonempty name Hk) as Hn.
    rewrite join_under_cwd.
    + fold a. rewrite Hstep, (norm_step_kept _ _ _ Hk), concat_snoc
        by apply snoc_not_nil.
      rewrite uploadDir_formula. fold a N. now rewrite append_assoc.
    + discriminate.
    + repeat constructor. exact Hf.
    + repeat constructor. exact Hn.
    + fold a. rewrite Hstep, (norm_step_kept _ _ _ Hk). apply snoc_not_nil.
  - intros ->.
    assert (E : norm_step a ((N ++ ["public"]) ++ ["uploads"]) ".."
                = (N ++ ["public"])%list).
    { unfold norm_step. cbn [nonempty negb orb is_dot is_dotdot String.eqb].
      change (("..":string) =? ".")%string with false.
      change (("..":string) =? "..")%string with true. cbv iota.
      rewrite List.rev_app_distr. cbn [List.rev List.app].
      change (is_dotdot "uploads") with false. cbv iota.
      apply List.rev_involutive. }
    rewrite join_under_cwd.
    + fold a. rewrite Hstep, E, join_public. reflexivity.
    + discriminate.
    + repeat constructor.
    + repeat constructor.
    + fold a. rewrite Hstep, E. apply snoc_not_nil.
  - intros [-> | ->].
    + rewrite join_under_cwd.
      * fold a. rewrite Hstep. change (norm_step a ((N ++ ["public"]) ++ ["uploads"]) ".")
          with ((N ++ ["public"]) ++ ["uploads"])%list.
        now rewrite uploadDir_formula.
      * discriminate.
      * repeat constructor.
      * repeat constructor.
      * fold a. rewrite Hstep. apply snoc_not_nil.
    + unfold uploadDir, join. destruct cwd; reflexivity.
Qed.

Lemma slash_free_cases (name : string) :
  slash_free name = true ->
  proper name = true \/ name = ".." \/ name = "." \/ name = "".
Proof.
  intros Hf. unfold proper. rewrite Hf, andb_true_r.
  destruct name as [|c rest]; [auto|]. cbn [nonempty andb].
  unfold is_dot, is_dotdot.
  destruct (String.eqb_spec (String c rest) ".") as [->|];
    [auto|].
  destruct (String.eqb_spec (String c rest) "..") as [->|]; auto.
Qed.

(** X4. Whatever url the client sends, the path the delete route unlinks is
    the upload directory's parent (public), the upload directory itself, or a
    path directly inside the upload directory: nothing outside public can be
    named. *)
Theorem delete_stays_under_public (cwd url : string) :
  nonempty url = true ->
  exists path,
    DeleteRoute.unlinked (DeleteRoute.POST cwd (Url url)) = Some path
    /\ DeleteRoute.response (DeleteRoute.POST cwd (Url url)) = Done
    /\ (path = join [cwd; "public"]
        \/ path = uploadDir cwd
        \/ directly_inside (uploadDir cwd) path).
Proof.
  intros Hn. unfold DeleteRoute.POST. rewrite Hn. cbn [negb DeleteRoute.unlinked
    DeleteRoute.response].
  eexists. split; [reflexivity|]. split; [reflexivity|].
  pose proof (basename_slash_free url) as Hf.
  destruct (delete_path cwd (basename url) Hf) as (Hp & Hdd & Hd).
  destruct (slash_free_cases (basename url) Hf) as [H|[H|H]].
  - right. right. rewrite (Hp H). exists (basename url). split; [reflexivity|].
    unfold proper in H.
    apply andb_prop in H as [[[H1 H2]%andb_prop H3]%andb_prop H4].
    split; [exact H4|]. apply negb_true_iff in H2, H3.
    repeat split; intros E; rewrite E in *; discriminate.
  - left. now apply Hdd.
  - right. left. now apply Hd.
Qed.

Lemma delete_stays_under_public_witness :
  nonempty "../../etc/passwd" = true
  /\ DeleteRoute.unlinked (DeleteRoute.POST "/srv/app" (Url "../../etc/passwd"))
     = Some "/srv/app/public/uploads/passwd"
  /\ exists path,
       DeleteRoute.unlinked (DeleteRoute.POST "/srv/app" (Url "/uploads/..")) = Some path
       /\ (path = join ["/srv/app"; "public"]
           \/ path = uploadDir "/srv/app"
           \/ directly_inside (uploadDir "/srv/app") path).
Proof.
  split; [reflexivity|]. split; [reflexivity|].
  destruct (delete_stays_under_public "/srv/app" "/uploads/.." eq_refl)
    as (path & Hp & _ & H).
  exists path. split; [exact Hp|exact H].
Defined.

(** X5. Deleting the url that an upload answered unlinks exactly the file the
    upload wrote, whatever the client's file name was. *)
Theorem delete_of_uploaded_url_unlinks_written_file
  (cwd : string) (now : Z) (fname : string) (buf : list Byte.byte) :
  let name := safeName now fname in
  let up := Upload.POST cwd now (FileValue fname buf) in
  Upload.response up = Ok ("/uploads/" ++ name) name
  /\ Upload.written up = Some (uploadDir cwd ++ String "/" name, buf)
  /\ DeleteRoute.unlinked (DeleteRoute.POST cwd (Url ("/uploads/" ++ name)))
     = Some (uploadDir cwd ++ String "/" name).
Proof.
  intros name up.
  pose proof (safeName_proper now fname) as Hp. fold name in Hp.
  pose proof (safeName_slash_free now fname) as Hf. fold name in Hf.
  pose proof (kept_nonempty name (proper_kept name Hp)) as Hn.
  split; [reflexivity|]. split.
  - subst up. cbn [Upload.POST Upload.written]. fold name.
    now rewrite (join_uploadDir_segment cwd name Hp).
  - unfold DeleteRoute.POST.
    change (nonempty ("/uploads/" ++ name)) with true. cbn [negb DeleteRoute.unlinked].
    change ("/uploads/" ++ name) with ("/uploads" ++ String "/" name).
    rewrite (basename_last_segment "/uploads" name Hf Hn).
    destruct (delete_path cwd name Hf) as (H & _). now rewrite (H Hp).
Qed.

End RouteFacts.

(** ** More on the drag controller and the undo stack *)

Module DragMoreFacts.

Import Geometry PageState DragMove DragNotions Samples GeometryFacts DragFacts.
Local Open Scope Q_scope.




Lemma onMove_dragged (pos : Vec3) (p : Page) (i : string) :
  draggedUploadId p = Some i -> truthy (Some i) = true ->
  onMove pos p = setSelectedPos (Some pos) (setUploads (moveUpload i pos) p).
Proof. intros Hi Ht. unfold onMove. now rewrite Hi, Ht. Qed.


(** One horizontal move whose ray meets the plane, written out. *)
Lemma horizontal_move (e : PointerEvent) (w : World) (h : Q) (point : Vec3) :
  draggingRef (refs w) = true -> moveAxis (refs w) e = ModeXZ ->
  dragYRef (refs w) = Some h -> intersectPlane (ray e) h = Some point ->
  let offset := match dragOffsetRef (refs w) with
                | Some o => o
                | None => mkVec3 0 0 0
                end in
  let next := mkVec3 (vx point + vx offset) h (vz point + vz offset) in
  onPointerMove e w
  = mkWorld (onMove next (page w))
      (mkRefs true (Some h) (Some next) (Some (clientX e, clientY e))
         (arrowDownRef (refs w)) (chooseMode (refs w) e) (dragOffsetRef (refs w))).
Proof.
  intros Hd Hax Hy Hpt. unfold onPointerMove. now rewrite Hd, Hax, Hy, Hpt.
Qed.

(** *** Dragging touches one upload *)

Lemma kept_refl (d : option string) (u : UploadedGlb) : keptExceptPosition d u u.
Proof. unfold keptExceptPosition. auto 10. Qed.

Lemma kept_trans (d : option string) (a b c : UploadedGlb) :
  keptExceptPosition d a b -> keptExceptPosition d b c -> keptExceptPosition d a c.
Proof.
  unfold keptExceptPosition. intros (A1&A2&A3&A4&A5) (B1&B2&B3&B4&B5).
  repeat split; try congruence.
  intros Hd. rewrite <- (A5 Hd). apply B5. now rewrite A1.
Qed.

Lemma Forall2_kept_refl (d : option string) (l : list UploadedGlb) :
  List.Forall2 (keptExceptPosition d) l l.
Proof. induction l; constructor; auto using kept_refl. Qed.

Lemma Forall2_kept_trans (d : option string) (a b c : list UploadedGlb) :
  List.Forall2 (keptExceptPosition d) a b ->
  List.Forall2 (keptExceptPosition d) b c ->
  List.Forall2 (keptExceptPosition d) a c.
Proof.
  intros H. revert c. induction H as [|x y a b Hxy Hab IH]; intros c Hc.
  - inversion Hc. constructor.
  - inversion Hc as [|? z ? c' Hyz Hbc]; subst. constructor; eauto using kept_trans.
Qed.

Lemma moveUpload_kept (i : string) (pos : Vec3) (l : list UploadedGlb) :
  List.Forall2 (keptExceptPosition (Some i)) l (moveUpload i pos l).
Proof.
  induction l as [|u l IH]; cbn; constructor; [|exact IH].
  destruct (String.eqb_spec (id u) i) as [E|E]; [|apply kept_refl].
  unfold keptExceptPosition. cbn. repeat split. intros H. congruence.
Qed.

Lemma onMove_kept (pos : Vec3) (p : Page) :
  List.Forall2 (keptExceptPosition (draggedUploadId p)) (uploads p)
    (uploads (onMove pos p)).
Proof.
  unfold onMove. destruct (draggedUploadId p) as [i|] eqn:E;
    [|apply Forall2_kept_refl].
  destruct (truthy (Some i)); [|apply Forall2_kept_refl].
  cbn. apply moveUpload_kept.
Qed.

Lemma step_kept (w : World) (ev : Event) :
  midDrag ev = true ->
  List.Forall2 (keptExceptPosition (draggedUploadId (page w)))
    (uploads (page w)) (uploads (page (step w ev))).
Proof.
  destruct ev; try discriminate; intros _; cbn [step].
  - destruct (step_key_frame w (KeyDown c) eq_refl) as (Hp & _).
    cbn [step] in Hp. rewrite Hp. apply Forall2_kept_refl.
  - destruct (step_key_frame w (KeyUp c) eq_refl) as (Hp & _).
    cbn [step] in Hp. rewrite Hp. apply Forall2_kept_refl.
  - unfold onPointerMove. destruct (draggingRef (refs w)); cbn [negb];
      [|apply Forall2_kept_refl].
    destruct (moveAxis (refs w) e); cbn [page]; [apply onMove_kept|].
    destruct (intersectPlane _ _); cbn [page];
      [apply onMove_kept|apply Forall2_kept_refl].
Qed.

(** *** Undo is last in, first out *)

Lemma undo_after_push (w : World) (below : list (list UploadedGlb))
  (top : list UploadedGlb) :
  uploadHistoryRef (page w) = push below top ->
  uploads (page (run w [Undo ctrlZ])) = top
  /\ uploadHistoryRef (page (run w [Undo ctrlZ])) = below.
Proof.
  intros H. change (run w [Undo ctrlZ]) with (mkWorld (onUndo ctrlZ (page w)) (refs w)).
  cbn [page]. unfold onUndo. cbn [ctrlKey code ctrlZ negb orb].
  change (("KeyZ" =? "KeyZ")%string) with true. cbn [negb].
  rewrite H, pop_push. cbn. auto.
Qed.

(** X10. The undo stack is last in, first out, to any depth: after any
    number of grab-drag-drop cycles, as many Ctrl+Z bring back the uploads and
    the stack that were there before the first grab. *)
Theorem undo_unwinds_all_cycles (cs : list (Event * list Event * Event)) (w : World) :
  List.forallb validCycle cs = true ->
  let w' := run w (List.concat (List.map dragCycle cs)
                   ++ List.repeat (Undo ctrlZ) (List.length cs)) in
  uploads (page w') = uploads (page w)
  /\ uploadHistoryRef (page w') = uploadHistoryRef (page w).
Proof.
  revert w. induction cs as [|[[down mid] drop] cs IH]; intros w H; [cbn; auto|].
  cbn [List.forallb] in H. apply andb_prop in H as [Hc Hcs].
  unfold validCycle in Hc.
  apply andb_prop in Hc as [[Hg Hmid]%andb_prop Hdrop].
  destruct (grabbed down) as [[i wp]|] eqn:Eg; [|discriminate].
  cbv zeta. cbn [List.map List.concat List.length].
  change (List.repeat (Undo ctrlZ) (S (List.length cs)))
    with (Undo ctrlZ :: List.repeat (Undo ctrlZ) (List.length cs)).
  rewrite List.repeat_cons, <- List.app_assoc, run_app, List.app_assoc, run_app.
  destruct (cycle_pushes_snapshot w down mid drop i wp Eg Hmid Hdrop) as (Hh & _).
  set (w1 := run w (dragCycle (down, mid, drop))) in *.
  destruct (IH w1 Hcs) as (Hu' & Hh'). cbv zeta in Hu', Hh'.
  set (w2 := run w1 (List.concat (List.map dragCycle cs)
                     ++ List.repeat (Undo ctrlZ) (List.length cs))) in *.
  apply (undo_after_push w2). now rewrite Hh', Hh.
Qed.

Lemma undo_unwinds_all_cycles_witness :
  List.forallb validCycle
    [(grabBox, [PointerMove (pointerAt 300 500)], PointerUp);
     (grabBox, [PointerMove (pointerAt 100 100)], PointerLeave)] = true
  /\ uploads
       (page (run world0
                (List.concat
                   (List.map dragCycle
                      [(grabBox, [PointerMove (pointerAt 300 500)], PointerUp);
                       (grabBox, [PointerMove (pointerAt 100 100)], PointerLeave)])
                 ++ List.repeat (Undo ctrlZ) 2)))
     = [box; crate].
Proof.
  split; [reflexivity|].
  exact (proj1 (undo_unwinds_all_cycles
                  [(grabBox, [PointerMove (pointerAt 300 500)], PointerUp);
                   (grabBox, [PointerMove (pointerAt 100 100)], PointerLeave)]
                  world0 eq_refl)).
Defined.

(** *** What a pointer-down can grab *)

Lemma findUpload_spec (agv : option N) (chain : Hit) (i : string) (wp : Vec3) :
  findUpload agv chain = Some (i, wp) ->
  exists pre node post,
    chain = (pre ++ node :: post)%list
    /\ uploadId node = Some i /\ worldPosition node = wp
    /\ isAgv agv node = false
    /\ List.Forall (fun n => isAgv agv n = false /\ truthy (uploadId n) = false) pre.
Proof.
  induction chain as [|cur chain IH]; cbn; [discriminate|].
  destruct (isAgv agv cur) eqn:Ha; [discriminate|].
  destruct (truthy (uploadId cur)) eqn:Ht.
  - destruct (uploadId cur) as [j|] eqn:Eu; [|discriminate].
    intros [= <- <-]. exists [], cur, chain. repeat split; auto.
  - intros H. destruct (IH H) as (pre & node & post & -> & H1 & H2 & H3 & H4).
    exists (cur :: pre), node, post. repeat split; auto.
Qed.

(** X11. The entity a pointer-down grabs is an upload node met on the way up
    from an object under the pointer, before the vehicle node and before any
    other upload node: the vehicle and whatever is above it are never
    grabbed. *)
Theorem grab_stops_below_vehicle
  (agv : option N) (hits : list Hit) (i : string) (wp : Vec3) :
  firstUpload agv hits = Some (i, wp) ->
  exists chain pre node post,
    In chain hits
    /\ chain = (pre ++ node :: post)%list
    /\ uploadId node = Some i /\ worldPosition node = wp
    /\ isAgv agv node = false
    /\ List.Forall (fun n => isAgv agv n = false /\ truthy (uploadId n) = false) pre.
Proof.
  induction hits as [|h hits IH]; cbn; [discriminate|].
  destruct (findUpload agv h) as [[j wq]|] eqn:E.
  - intros [= <- <-]. destruct (findUpload_spec agv h j wq E)
      as (pre & node & post & H).
    exists h, pre, node, post. split; [now left|exact H].
  - intros H. destruct (IH H) as (chain & pre & node & post & Hin & H').
    exists chain, pre, node, post. split; [now right|exact H'].
Qed.

Lemma grab_stops_below_vehicle_witness :
  firstUpload vehicleUuid boxHits = Some ("box.glb-1"%string, mkVec3 2 1 5)
  /\ exists chain pre node post,
       In chain boxHits /\ chain = (pre ++ node :: post)%list
       /\ uploadId node = Some "box.glb-1"%string.
Proof.
  split; [reflexivity|].
  destruct (grab_stops_below_vehicle vehicleUuid boxHits _ _ eq_refl)
    as (chain & pre & node & post & Hin & Hc & Hu & _).
  exists chain, pre, node, post. auto.
Defined.

End DragMoreFacts.

(** ** The vehicle controller *)

Module VehicleFacts.

Import Geometry Attach Vehicle.
Local Open Scope Q_scope.

Lemma held_cases (k : Keys) (a b : string) :
  -1 <= axis k a b /\ axis k a b <= 1.
Proof. unfold axis. destruct (held k a), (held k b); split; lra. Qed.

Lemma mlerp_between (x y lo hi : Q) :
  lo <= x <= hi -> lo <= y <= hi -> lo <= mlerp x y 0.1 <= hi.
Proof. unfold mlerp. intros [? ?] [? ?]. split; lra. Qed.

Section Host.

Variables cos sin : Q -> Q.
Variable normalize : Vec3 -> Vec3.
Variable flyMode : bool.
Variable nozzleLocal : Vec3.

Abbreviation useFrame := (Vehicle.useFrame cos sin normalize flyMode nozzleLocal).
Abbreviation step := (Vehicle.step cos sin normalize flyMode nozzleLocal).
Abbreviation run := (Vehicle.run cos sin normalize flyMode nozzleLocal).

Lemma useFrame_limits (dt now : Q) (c : Controller) :
  withinLimits c -> withinLimits (useFrame dt now c).
Proof.
  intros H. unfold Vehicle.useFrame. destruct (agv c) as [a|]; [|exact H].
  destruct H as ((S1 & S2) & (T1 & T2) & (R1 & R2)).
  unfold withinLimits. cbn [speed turn rise].
  pose proof (held_cases (keys c) "KeyW" "KeyS") as [F1 F2].
  pose proof (held_cases (keys c) "KeyD" "KeyA") as [G1 G2].
  pose proof (held_cases (keys c) "KeyR" "KeyF") as [U1 U2].
  unfold mlerp. repeat split; lra.
Qed.

Lemma step_limits (c : Controller) (ev : Event) :
  withinLimits c -> withinLimits (step c ev).
Proof.
  destruct ev; cbn [Vehicle.step]; [exact (fun H => H)|exact (fun H => H)|].
  apply useFrame_limits.
Qed.

Lemma run_limits (evs : list Event) (c : Controller) :
  withinLimits c -> withinLimits (run c evs).
Proof.
  revert c. induction evs as [|ev evs IH]; intros c H; [exact H|].
  cbn. apply IH, step_limits, H.
Qed.

Lemma useFrame_mounted (dt now : Q) (c : Controller) (a : Agv) :
  agv c = Some a ->
  exists a', agv (useFrame dt now c) = Some a'
    /\ rotationY a' = rotationY a - turn (useFrame dt now c) * dt
    /\ vx (agvPosition a')
       == vx (agvPosition a) - sin (rotationY a') * (speed (useFrame dt now c) * dt)
    /\ vz (agvPosition a')
       == vz (agvPosition a) - cos (rotationY a') * (speed (useFrame dt now c) * dt).
Proof.
  intros Ha. unfold Vehicle.useFrame. rewrite Ha. eexists. split; [reflexivity|].
  cbn [rotationY agvPosition turn speed]. split; [reflexivity|].
  destruct flyMode; cbn [vx vz rotateY addScaledVector]; split; ring.
Qed.

(** X12. The smoothed speed, turn and rise commands never leave [-3, 3],
    [-2, 2] and [-2, 2], whatever keys are pressed and however long the
    frames are; so a frame turns the vehicle by at most 2 rad per second of
    frame time and moves it over the ground by at most 3 units per second. *)
Theorem vehicle_speed_and_turn_rate_bounded
  (evs : list Event) (c : Controller) (dt now : Q) (a : Agv) :
  (forall t, cos t * cos t + sin t * sin t == 1) ->
  withinLimits c -> agv (run c evs) = Some a ->
  withinLimits (run c evs)
  /\ exists a',
       agv (useFrame dt now (run c evs)) = Some a'
       /\ Qabs (rotationY a' - rotationY a) <= 2 * Qabs dt
       /\ (vx (agvPosition a') - vx (agvPosition a))
          * (vx (agvPosition a') - vx (agvPosition a))
          + (vz (agvPosition a') - vz (agvPosition a))
            * (vz (agvPosition a') - vz (agvPosition a))
          <= (3 * dt) * (3 * dt).
Proof.
  intros Htrig Hc Ha. pose proof (run_limits evs c Hc) as Hl.
  split; [exact Hl|].
  pose proof (useFrame_limits dt now _ Hl) as ((S1 & S2) & (T1 & T2) & _).
  destruct (useFrame_mounted dt now _ a Ha) as (a' & Ha' & Hr & Hx & Hz).
  exists a'. split; [exact Ha'|].
  set (s := speed (useFrame dt now (run c evs))) in *.
  set (t := turn (useFrame dt now (run c evs))) in *.
  split.
  - rewrite Hr.
    assert (Hd : 0 <= Qabs dt) by apply Qabs_nonneg.
    assert (Hcase : Qabs dt == dt \/ Qabs dt == - dt).
    { destruct (Qlt_le_dec dt 0) as [Hn|Hp].
      - right. apply Qabs_neg. lra.
      - left. apply Qabs_pos. exact Hp. }
    set (d := Qabs dt) in *.
    apply Qabs_Qle_condition. split; destruct Hcase; nra.
  - rewrite Hx, Hz. set (th := rotationY a').
    assert (E : (vx (agvPosition a) - sin th * (s * dt) - vx (agvPosition a))
                * (vx (agvPosition a) - sin th * (s * dt) - vx (agvPosition a))
                + (vz (agvPosition a) - cos th * (s * dt) - vz (agvPosition a))
                  * (vz (agvPosition a) - cos th * (s * dt) - vz (agvPosition a))
                == (s * dt) * (s * dt) * (cos th * cos th + sin th * sin th)) by ring.
    rewrite E, Htrig.
    assert (H1 : 0 <= (3 - s) * (3 + s)) by (apply Qmult_le_0_compat; lra).
    assert (H2 : 0 <= dt * dt) by nra.
    pose proof (Qmult_le_0_compat _ _ H1 H2) as H3. lra.
Qed.

Lemma updateBullets_cons (dt : Q) (b : Bullet) (bs : list Bullet) :
  updateBullets dt (b :: bs)
  = if Qle_bool (life b - dt) 0 then updateBullets dt bs
    else advance dt b :: updateBullets dt bs.
Proof. reflexivity. Qed.

Lemma updateBullets_length (dt : Q) (bs : list Bullet) :
  (List.length (updateBullets dt bs) <= List.length bs)%nat.
Proof.
  induction bs as [|b bs IH]; [cbn; lia|].
  rewrite updateBullets_cons.
  destruct (Qle_bool (life b - dt) 0); cbn [List.length]; lia.
Qed.

Lemma updateBullets_Forall (dt lo : Q) (bs : list Bullet) :
  List.Forall (fun b => life b <= lo) bs ->
  List.Forall (fun b => 0 < life b /\ life b <= lo - dt
                        /\ groundY + 0.25 <= vy (pos b))
    (updateBullets dt bs).
Proof.
  induction 1 as [|b bs Hb _ IH]; [constructor|].
  rewrite updateBullets_cons.
  destruct (Qle_bool (life b - dt) 0) eqn:E; [exact IH|].
  constructor; [|exact IH]. cbn [life pos vy advance]. repeat split.
  - apply Qnot_le_lt. intros H. apply Qle_bool_iff in H. congruence.
  - lra.
  - apply Q.le_max_r.
Qed.

Lemma Forall_life_weaken (P Q' : Bullet -> Prop) (bs : list Bullet) :
  (forall b, P b -> Q' b) -> List.Forall P bs -> List.Forall Q' bs.
Proof. intros H. induction 1; constructor; auto. Qed.

Lemma useFrame_inFlight (dt now : Q) (c : Controller) :
  0 <= dt -> List.Forall inFlight (bullets c) ->
  List.Forall inFlight (bullets (useFrame dt now c)).
Proof.
  intros Hdt H. unfold Vehicle.useFrame. destruct (agv c) as [a|]; [|exact H].
  cbn [bullets].
  apply (Forall_life_weaken
           (fun b => 0 < life b /\ life b <= 1.2 - dt /\ groundY + 0.25 <= vy (pos b))).
  { unfold inFlight. intros b (H1 & H2 & H3). repeat split; auto. lra. }
  apply updateBullets_Forall.
  assert (Hle : List.Forall (fun b => life b <= 1.2) (bullets c)).
  { revert H. apply Forall_life_weaken. unfold inFlight. tauto. }
  destruct (held (keys c) "Space" && Qle_bool shootCooldown (now - lastShotAt c));
    [|exact Hle].
  apply List.Forall_app. split; [exact Hle|]. constructor; [|constructor].
  cbn [life]. lra.
Qed.

(** X13. Every bullet in the list is in flight: it has life left, never more
    than the 1.2 s it starts with, and it is not under the floor (at least
    0.25 above ground level).  A bullet whose life is used up is gone by the
    end of the frame. *)
Theorem bullets_stay_in_flight (evs : list Event) (c : Controller) :
  List.Forall forwardTime evs -> List.Forall inFlight (bullets c) ->
  List.Forall inFlight (bullets (run c evs)).
Proof.
  revert c. induction evs as [|ev evs IH]; intros c Hf H; [exact H|].
  inversion Hf as [|? ? Hev Hevs]; subst. cbn. apply IH; [exact Hevs|].
  destruct ev; cbn [Vehicle.step bullets]; [exact H|exact H|].
  apply useFrame_inFlight; [exact Hev|exact H].
Qed.

Lemma held_keyDown_other (k : Keys) (code key : string) :
  code <> key -> held (keyDown code k) key = held k key.
Proof.
  intros H. unfold held, keyDown, Keys in *. now rewrite lookup_insert_ne.
Qed.

Lemma held_keyUp (k : Keys) (code key : string) :
  held k key = false -> held (keyUp code k) key = false.
Proof.
  intros H. unfold held, keyUp, Keys in *.
  destruct (decide (code = key)) as [->|Hne].
  - now rewrite lookup_insert_eq.
  - now rewrite lookup_insert_ne.
Qed.

Lemma useFrame_idle_trigger (dt now lo : Q) (c : Controller) :
  agv c <> None -> held (keys c) "Space" = false ->
  List.Forall (fun b => life b <= lo) (bullets c) ->
  agv (useFrame dt now c) <> None
  /\ keys (useFrame dt now c) = keys c
  /\ List.Forall (fun b => 0 < life b /\ life b <= lo - dt)
       (bullets (useFrame dt now c)).
Proof.
  intros Ha Hk H. unfold Vehicle.useFrame.
  destruct (agv c) as [a|]; [|congruence]. rewrite Hk.
  cbn [agv keys bullets andb]. repeat split; [discriminate|].
  apply (Forall_life_weaken
           (fun b => 0 < life b /\ life b <= lo - dt /\ groundY + 0.25 <= vy (pos b)));
    [tauto|].
  apply updateBullets_Forall, H.
Qed.

Lemma run_idle_trigger (evs : list Event) (c : Controller) (lo : Q) :
  agv c <> None -> held (keys c) "Space" = false ->
  List.forallb noTrigger evs = true ->
  List.Forall (fun b => 0 < life b /\ life b <= lo) (bullets c) ->
  List.Forall (fun b => 0 < life b /\ life b <= lo - elapsed evs)
    (bullets (run c evs)).
Proof.
  revert c lo. induction evs as [|ev evs IH]; intros c lo Ha Hk Hn H.
  - cbn. revert H. apply Forall_life_weaken. intros b [? ?]. split; [auto|lra].
  - cbn in Hn. apply andb_prop in Hn as [Hev Hn]. destruct ev.
    + cbn. apply IH; auto. cbn [keys].
      rewrite held_keyDown_other; [exact Hk|].
      cbn in Hev. intros ->. discriminate.
    + cbn. apply IH; auto. cbn [keys]. apply held_keyUp, Hk.
    + assert (Hle : List.Forall (fun b => life b <= lo) (bullets c)).
      { revert H. apply Forall_life_weaken. tauto. }
      destruct (useFrame_idle_trigger dt now lo c Ha Hk Hle) as (Ha' & Hk' & H').
      change (run c (Frame dt now :: evs)) with (run (useFrame dt now c) evs).
      change (elapsed (Frame dt now :: evs)) with (dt + elapsed evs).
      apply (Forall_life_weaken
               (fun b => 0 < life b /\ life b <= lo - dt - elapsed evs)).
      { intros b [? ?]. split; [auto|lra]. }
      apply IH; auto. now rewrite Hk'.
Qed.

(** X14. Once the trigger is released, no bullet outlives its 1.2 s: after
    frames that add up to 1.2 s or more, with Space not pressed again, the
    bullet list is empty. *)
Theorem bullets_gone_after_their_life (evs : list Event) (c : Controller) :
  agv c <> None -> held (keys c) "Space" = false ->
  List.forallb noTrigger evs = true ->
  List.Forall inFlight (bullets c) ->
  1.2 <= elapsed evs ->
  bullets (run c evs) = [].
Proof.
  intros Ha Hk Hn H He.
  assert (H' : List.Forall (fun b => 0 < life b /\ life b <= 1.2) (bullets c)).
  { revert H. apply Forall_life_weaken. unfold inFlight. tauto. }
  pose proof (run_idle_trigger evs c 1.2 Ha Hk Hn H') as Hend.
  destruct (bullets (run c evs)) as [|b bs]; [reflexivity|].
  inversion Hend as [|? ? [H1 H2] _]; subst. lra.
Qed.

Lemma useFrame_rate (dt now : Q) (c : Controller) :
  inject_Z (Z.of_nat (List.length (bullets c))) * shootCooldown <= lastShotAt c ->
  inject_Z (Z.of_nat (List.length (bullets (useFrame dt now c)))) * shootCooldown
  <= lastShotAt (useFrame dt now c)
  /\ (List.length (bullets (useFrame dt now c)) <= S (List.length (bullets c)))%nat.
Proof.
  intros H. unfold Vehicle.useFrame. destruct (agv c) as [a|]; [|split; [exact H|lia]].
  cbn [bullets lastShotAt].
  match goal with |- context [updateBullets dt ?l] =>
    pose proof (updateBullets_length dt l) as Hlen; set (fired := l) in * end.
  destruct (held (keys c) "Space" && Qle_bool shootCooldown (now - lastShotAt c))
    eqn:E; subst fired.
  - apply andb_prop in E as [_ E]. apply Qle_bool_iff in E.
    rewrite List.length_app in Hlen. cbn [List.length] in Hlen.
    split; [|lia].
    set (n := List.length (updateBullets dt _)) in *.
    assert (Hn : inject_Z (Z.of_nat n)
                 <= inject_Z (Z.of_nat (List.length (bullets c))) + 1).
    { rewrite <- (inject_Z_plus _ 1). rewrite <- Zle_Qle. lia. }
    unfold shootCooldown in *. nra.
  - split; [|lia].
    set (n := List.length (updateBullets dt _)) in *.
    assert (Hn : inject_Z (Z.of_nat n)
                 <= inject_Z (Z.of_nat (List.length (bullets c)))).
    { rewrite <- Zle_Qle. lia. }
    unfold shootCooldown in *. nra.
Qed.

(** X15. The gun is rate limited by the clock: a frame adds at most one
    bullet, and the bullets in the list never number more than one per 0.08 s
    of the clock time of the last shot. *)
Theorem fire_rate_limited (evs : list Event) (c : Controller) (dt now : Q) :
  inject_Z (Z.of_nat (List.length (bullets c))) * shootCooldown <= lastShotAt c ->
  inject_Z (Z.of_nat (List.length (bullets (run c evs)))) * shootCooldown
  <= lastShotAt (run c evs)
  /\ (List.length (bullets (useFrame dt now (run c evs)))
      <= S (List.length (bullets (run c evs))))%nat.
Proof.
  intros H.
  assert (Hinv : inject_Z (Z.of_nat (List.length (bullets (run c evs)))) * shootCooldown
                 <= lastShotAt (run c evs)).
  { revert c H. induction evs as [|ev evs IH]; intros c H; [exact H|].
    cbn. apply IH. destruct ev; cbn [Vehicle.step bullets lastShotAt]; auto.
    apply useFrame_rate, H. }
  split; [exact Hinv|]. apply useFrame_rate, Hinv.
Qed.

End Host.

(** X16. Outside fly mode the vehicle keeps its height: whatever is pressed
    and however the frames run, it only turns and moves over the ground. *)
Theorem height_fixed_without_fly_mode
  (cos sin : Q -> Q) (normalize : Vec3 -> Vec3) (nozzleLocal : Vec3)
  (evs : list Event) (c : Controller) (a : Agv) :
  agv c = Some a ->
  exists a',
    agv (Vehicle.run cos sin normalize false nozzleLocal c evs) = Some a'
    /\ vy (agvPosition a') == vy (agvPosition a).
Proof.
  revert c a. induction evs as [|ev evs IH]; intros c a Ha.
  - exists a. split; [exact Ha|reflexivity].
  - cbn [Vehicle.run List.fold_left]. destruct ev.
    + apply (IH _ a). exact Ha.
    + apply (IH _ a). exact Ha.
    + cbn [Vehicle.step]. unfold Vehicle.useFrame at 1. rewrite Ha.
      match goal with |- context [mkController (Some ?b)] => set (a1 := b) end.
      destruct (IH (Vehicle.useFrame cos sin normalize false nozzleLocal dt now c) a1)
        as (a' & Ha' & Hy).
      { unfold Vehicle.useFrame. rewrite Ha. reflexivity. }
      exists a'. split.
      * rewrite <- Ha'. unfold Vehicle.run. f_equal.
        unfold Vehicle.useFrame. rewrite Ha. reflexivity.
      * rewrite Hy. subst a1. cbn [agvPosition vy addScaledVector rotateY]. ring.
Qed.

(** X17. In fly mode, while exactly one of R and F is held, every frame
    leaves the vehicle at a height that is a whole number of hundredths, the
    nearest one to where the climb took it: never more than 0.005 away. *)
Theorem fly_mode_snaps_height_to_hundredths
  (cos sin : Q -> Q) (normalize : Vec3 -> Vec3) (nozzleLocal : Vec3)
  (dt now : Q) (c : Controller) (a : Agv) :
  agv c = Some a ->
  held (keys c) "KeyR" = negb (held (keys c) "KeyF") ->
  let c' := Vehicle.useFrame cos sin normalize true nozzleLocal dt now c in
  exists a' n,
    agv c' = Some a'
    /\ vy (agvPosition a') == inject_Z n / 100
    /\ Qabs (vy (agvPosition a') - (vy (agvPosition a) + rise c' * dt)) <= 0.005.
Proof.
  intros Ha Hk. cbv zeta. unfold Vehicle.useFrame. rewrite Ha.
  assert (Hu : Qeq_bool (axis (keys c) "KeyR" "KeyF") 0 = false).
  { unfold axis. rewrite Hk. destruct (held (keys c) "KeyF"); reflexivity. }
  rewrite Hu. eexists. eexists. split; [reflexivity|].
  cbn [agvPosition vy rise addScaledVector rotateY].
  set (r := mlerp (rise c) (axis (keys c) "KeyR" "KeyF" * 2) 0.1).
  set (y := vy (agvPosition a) + 0 * _ + r * dt).
  unfold round. split; [reflexivity|].
  pose proof (Qfloor_le (y * 100 + 0.5)) as H1.
  pose proof (Qlt_floor (y * 100 + 0.5)) as H2.
  rewrite inject_Z_plus in H2. change (inject_Z 1) with 1 in H2.
  set (n := inject_Z (Qfloor (y * 100 + 0.5))) in *.
  assert (Ey : vy (agvPosition a) + r * dt == y) by (subst y; ring).
  rewrite Ey. apply Qabs_Qle_condition.
  assert (En : n / 100 == n * 0.01) by (field).
  rewrite En. split; lra.
Qed.

Import Samples.

Lemma vehicle_speed_and_turn_rate_bounded_witness :
  withinLimits driver
  /\ withinLimits
       (Vehicle.run cosAtZero sinAtZero normalizeUnit false nozzle driver
          [KeyDown "KeyW"; KeyDown "KeyD"; Frame 0.016 1; Frame 0.016 1.016]).
Proof.
  assert (Ht : forall t, cosAtZero t * cosAtZero t + sinAtZero t * sinAtZero t == 1)
    by (intros t; reflexivity).
  assert (Hl : withinLimits driver)
    by (unfold withinLimits; cbn; repeat split; discriminate).
  split; [exact Hl|].
  destruct (agv (Vehicle.run cosAtZero sinAtZero normalizeUnit false nozzle driver
                   [KeyDown "KeyW"; KeyDown "KeyD"; Frame 0.016 1; Frame 0.016 1.016]))
    as [a|] eqn:Ea; [|vm_compute in Ea; discriminate].
  exact (proj1 (vehicle_speed_and_turn_rate_bounded cosAtZero sinAtZero normalizeUnit
                  false nozzle _ driver 0.016 1.032 a Ht Hl Ea)).
Defined.

Lemma bullets_stay_in_flight_witness :
  List.Forall inFlight (bullets gunner)
  /\ List.Forall inFlight
       (bullets (Vehicle.run cosAtZero sinAtZero normalizeUnit false nozzle gunner
                   [KeyDown "Space"; Frame 0.5 2; Frame 0.6 2.6])).
Proof.
  assert (H : List.Forall inFlight (bullets gunner)).
  { constructor; [|constructor]. unfold inFlight. cbn.
    repeat split; vm_compute; congruence. }
  split; [exact H|].
  apply (bullets_stay_in_flight cosAtZero sinAtZero normalizeUnit false nozzle
           [KeyDown "Space"; Frame 0.5 2; Frame 0.6 2.6] gunner); [|exact H].
  repeat constructor; cbn; discriminate.
Defined.

Lemma bullets_gone_after_their_life_witness :
  List.Forall inFlight (bullets gunner)
  /\ 1.2 <= elapsed [Frame 0.7 2; KeyUp "Space"; KeyDown "KeyW"; Frame 0.6 2.7]
  /\ bullets (Vehicle.run cosAtZero sinAtZero normalizeUnit false nozzle gunner
                [Frame 0.7 2; KeyUp "Space"; KeyDown "KeyW"; Frame 0.6 2.7]) = [].
Proof.
  assert (H : List.Forall inFlight (bullets gunner)).
  { constructor; [|constructor]. unfold inFlight. cbn.
    repeat split; vm_compute; congruence. }
  assert (He : 1.2 <= elapsed [Frame 0.7 2; KeyUp "Space"; KeyDown "KeyW"; Frame 0.6 2.7])
    by (vm_compute; discriminate).
  split; [exact H|]. split; [exact He|].
  apply (bullets_gone_after_their_life cosAtZero sinAtZero normalizeUnit false nozzle
           _ gunner); [discriminate|reflexivity|reflexivity|exact H|exact He].
Defined.

Lemma fire_rate_limited_witness :
  inject_Z (Z.of_nat (List.length (bullets gunner))) * shootCooldown <= lastShotAt gunner
  /\ inject_Z
       (Z.of_nat
          (List.length
             (bullets (Vehicle.run cosAtZero sinAtZero normalizeUnit false nozzle gunner
                         [KeyDown "Space"; Frame 0.016 2; Frame 0.016 2.016]))))
     * shootCooldown
     <= lastShotAt (Vehicle.run cosAtZero sinAtZero normalizeUnit false nozzle gunner
                      [KeyDown "Space"; Frame 0.016 2; Frame 0.016 2.016]).
Proof.
  assert (H : inject_Z (Z.of_nat (List.length (bullets gunner))) * shootCooldown
              <= lastShotAt gunner) by (vm_compute; discriminate).
  split; [exact H|].
  exact (proj1 (fire_rate_limited cosAtZero sinAtZero normalizeUnit false nozzle
                  [KeyDown "Space"; Frame 0.016 2; Frame 0.016 2.016] gunner 0 0 H)).
Defined.

Lemma height_fixed_without_fly_mode_witness :
  exists a',
    agv (Vehicle.run cosAtZero sinAtZero normalizeUnit false nozzle climbing
           [KeyDown "KeyW"; Frame 0.5 1; Frame 0.5 1.5]) = Some a'
    /\ vy (agvPosition a') == 10.94.
Proof.
  exact (height_fixed_without_fly_mode cosAtZero sinAtZero normalizeUnit nozzle
           [KeyDown "KeyW"; Frame 0.5 1; Frame 0.5 1.5] climbing
           (mkAgv (mkVec3 8.01 10.94 (-28.61)) 0) eq_refl).
Defined.

Lemma fly_mode_snaps_height_to_hundredths_witness :
  held (keys climbing) "KeyR" = negb (held (keys climbing) "KeyF")
  /\ exists a' n,
       agv (Vehicle.useFrame cosAtZero sinAtZero normalizeUnit true nozzle 0.016 1 climbing)
       = Some a'
       /\ vy (agvPosition a') == inject_Z n / 100.
Proof.
  split; [reflexivity|].
  destruct (fly_mode_snaps_height_to_hundredths cosAtZero sinAtZero normalizeUnit nozzle
              0.016 1 climbing (mkAgv (mkVec3 8.01 10.94 (-28.61)) 0) eq_refl eq_refl)
    as (a' & n & Ha & Hn & _).
  exists a', n. split; [exact Ha|exact Hn].
Defined.

End VehicleFacts.

(** ** Telemetry *)

Module TelemetryFacts.

Import Geometry Telemetry GeometryFacts.
Local Open Scope Q_scope.

Lemma useFrame_budget (dt : Q) (agv : option Vec3) (s : State) :
  0 <= dt -> 0 <= acc s ->
  0 <= acc (useFrame dt agv s)
  /\ acc (useFrame dt agv s) < 0.1
  /\ inject_Z (Z.of_nat (List.length (published (useFrame dt agv s)))) * 0.1
     + acc (useFrame dt agv s)
     <= inject_Z (Z.of_nat (List.length (published s))) * 0.1 + acc s + dt
  /\ (forall p, In p (published (useFrame dt agv s)) ->
                In p (published s) \/ agv = Some p).
Proof.
  intros Hdt Hacc. unfold useFrame. destruct (Qltb (acc s + dt) 0.1) eqn:E.
  - apply Qltb_lt in E. cbn [acc published]. repeat split; try lra. auto.
  - apply Qltb_nlt in E.
    destruct agv as [p|]; cbn [acc published List.length].
    + repeat split; try lra.
      * rewrite Nat2Z.inj_succ, <- Z.add_1_r, inject_Z_plus.
        change (inject_Z 1) with 1. lra.
      * intros q [<- | Hq]; auto.
    + repeat split; try lra. auto.
Qed.

(** X18. Telemetry is throttled: over frames that take [t] seconds in all it
    hands at most [t / 0.1] positions to the page, each of them a position the
    vehicle had at one of these frames, and it never holds back more than
    0.1 s of frame time. *)
Theorem telemetry_at_most_ten_updates_per_second
  (frames : list (Q * option Vec3)) (s : State) :
  List.Forall (fun fr => 0 <= fst fr) frames -> 0 <= acc s -> acc s < 0.1 ->
  let s' := run s frames in
  inject_Z (Z.of_nat (List.length (published s'))) * 0.1
  <= inject_Z (Z.of_nat (List.length (published s))) * 0.1 + acc s + elapsed frames
  /\ 0 <= acc s' /\ acc s' < 0.1
  /\ (forall p, In p (published s') ->
                In p (published s) \/ In (Some p) (List.map snd frames)).
Proof.
  cbv zeta. revert s. induction frames as [|[dt agv] frames IH]; intros s Hf H0 H1.
  - cbn. repeat split; auto; lra.
  - inversion Hf as [|? ? Hdt Hfs]; subst. cbn [fst] in Hdt.
    destruct (useFrame_budget dt agv s Hdt H0) as (A0 & A1 & A2 & A3).
    destruct (IH (useFrame dt agv s) Hfs A0 A1) as (B1 & B2 & B3 & B4).
    change (run s ((dt, agv) :: frames)) with (run (useFrame dt agv s) frames).
    change (elapsed ((dt, agv) :: frames)) with (dt + elapsed frames).
    repeat split; auto; try lra.
    intros p Hp. destruct (B4 p Hp) as [Hq|Hq].
    + destruct (A3 p Hq) as [Hr | ->]; [now left|right; now left].
    + right. now right.
Qed.

Lemma telemetry_at_most_ten_updates_per_second_witness :
  inject_Z
    (Z.of_nat
       (List.length
          (published
             (run (mkState 0 [])
                [(0.06, Some (mkVec3 0 0 0)); (0.06, Some (mkVec3 1 0 0));
                 (0.06, Some (mkVec3 2 0 0))])))) * 0.1
  <= inject_Z 0 * 0.1 + 0
     + elapsed [(0.06, Some (mkVec3 0 0 0)); (0.06, Some (mkVec3 1 0 0));
                (0.06, Some (mkVec3 2 0 0))].
Proof.
  apply (telemetry_at_most_ten_updates_per_second
           [(0.06, Some (mkVec3 0 0 0)); (0.06, Some (mkVec3 1 0 0));
            (0.06, Some (mkVec3 2 0 0))] (mkState 0 [])).
  - repeat constructor; cbn; discriminate.
  - cbn. discriminate.
  - cbn. reflexivity.
Defined.

End TelemetryFacts.

(** ** The toggle, the advisory and Add Rule together *)

Module AttachMoreFacts.

Import Geometry PageState Attach Advisory Samples AttachFacts.
Local Open Scope Q_scope.

Lemma movedOnly_refl (ids : list string) (u : UploadedGlb) : movedOnly ids u u.
Proof. unfold movedOnly. auto 10. Qed.

Lemma movedOnly_trans (ids : list string) (a b c : UploadedGlb) :
  movedOnly ids a b -> movedOnly ids b c -> movedOnly ids a c.
Proof.
  unfold movedOnly. intros (A1&A2&A3&A4&A5) (B1&B2&B3&B4&B5).
  repeat split; try congruence.
  intros Hd. rewrite <- (A5 Hd). apply B5. now rewrite A1.
Qed.

Lemma movedOnly_mono (ids ids' : list string) (a b : UploadedGlb) :
  (forall i, In i ids -> In i ids') -> movedOnly ids a b -> movedOnly ids' a b.
Proof.
  unfold movedOnly. intros Hsub (A1&A2&A3&A4&A5). repeat split; auto.
Qed.

Lemma Forall2_moved_refl (ids : list string) (l : list UploadedGlb) :
  List.Forall2 (movedOnly ids) l l.
Proof. induction l; constructor; auto using movedOnly_refl. Qed.

Lemma Forall2_moved_trans (ids : list string) (a b c : list UploadedGlb) :
  List.Forall2 (movedOnly ids) a b -> List.Forall2 (movedOnly ids) b c ->
  List.Forall2 (movedOnly ids) a c.
Proof.
  intros H. revert c. induction H as [|x y a b Hxy Hab IH]; intros c Hc.
  - inversion Hc. constructor.
  - inversion Hc as [|? z ? c' Hyz Hbc]; subst. constructor; eauto using movedOnly_trans.
Qed.

Lemma Forall2_moved_mono (ids ids' : list string) (a b : list UploadedGlb) :
  (forall i, In i ids -> In i ids') ->
  List.Forall2 (movedOnly ids) a b -> List.Forall2 (movedOnly ids') a b.
Proof.
  intros Hsub. induction 1; constructor; eauto using movedOnly_mono.
Qed.

Lemma moveUpload_moved (i : string) (pos : Vec3) (l : list UploadedGlb) :
  List.Forall2 (movedOnly [i]) l (moveUpload i pos l).
Proof.
  induction l as [|u l IH]; cbn; constructor; [|exact IH].
  destruct (String.eqb_spec (id u) i) as [E|E]; [|apply movedOnly_refl].
  unfold movedOnly. cbn. repeat split. intros H. exfalso. apply H. now left.
Qed.

Lemma setHas_In (s : list string) (a : string) : setHas s a = true <-> In a s.
Proof.
  unfold setHas. rewrite List.existsb_exists. split.
  - intros (x & Hx & E). apply String.eqb_eq in E. now subst.
  - intros H. exists a. split; [exact H|apply String.eqb_refl].
Qed.

Lemma setAdd_NoDup (s : list string) (a : string) :
  List.NoDup s -> List.NoDup (setAdd s a).
Proof.
  intros H. unfold setAdd. destruct (setHas s a) eqn:E; [exact H|].
  apply List.NoDup_app; [exact H|repeat constructor; intros []|].
  intros x Hx [<-|[]]. apply setHas_In in Hx. congruence.
Qed.

Lemma setFrom_NoDup (l : list string) : List.NoDup (setFrom l).
Proof.
  unfold setFrom. assert (H : List.NoDup (@nil string)) by constructor.
  revert H. generalize (@nil string). induction l as [|a l IH]; intros acc H; [exact H|].
  cbn. apply IH, setAdd_NoDup, H.
Qed.

Section Trig.

Variables cos sin : Q -> Q.

Abbreviation toggleRule := (Attach.toggleRule cos sin).
Abbreviation getWorldPosition := (Attach.getWorldPosition cos sin).
Abbreviation onKeyQ := (Attach.onKeyQ cos sin).
Abbreviation nearRule := (Advisory.nearRule cos sin).
Abbreviation near := (Advisory.near cos sin).
Abbreviation pickupNotice := (Advisory.pickupNotice cos sin).
Abbreviation ruleFor := (Attach.ruleFor cos sin).
Abbreviation onAddRule := (Attach.onAddRule cos sin).

Lemma toggleRule_frame (agv : Agv) (agvPos : Vec3) (st : Loop) (r : AttachRule) :
  List.Forall2 (movedOnly [rule_id r]) (nextUploads st)
    (nextUploads (toggleRule agv agvPos st r))
  /\ (List.NoDup (nextCarried st) ->
      List.NoDup (nextCarried (toggleRule agv agvPos st r))).
Proof.
  unfold Attach.toggleRule.
  destruct (objects st !! rule_id r) as [obj|];
    [|split; [apply Forall2_moved_refl|auto]].
  destruct (setHas (nextCarried st) (rule_id r)).
  - cbn [nextUploads nextCarried]. split; [apply moveUpload_moved|].
    intros H. apply List.NoDup_filter, H.
  - destruct (tooFar _ _); [split; [apply Forall2_moved_refl|auto]|].
    cbn [nextUploads nextCarried]. split; [apply moveUpload_moved|].
    apply setAdd_NoDup.
Qed.

Lemma fold_toggle_frame (agv : Agv) (agvPos : Vec3) (rules : list AttachRule)
  (st : Loop) :
  List.Forall2 (movedOnly (List.map rule_id rules)) (nextUploads st)
    (nextUploads (List.fold_left (toggleRule agv agvPos) rules st))
  /\ (List.NoDup (nextCarried st) ->
      List.NoDup (nextCarried (List.fold_left (toggleRule agv agvPos) rules st))).
Proof.
  revert st. induction rules as [|r rules IH]; intros st.
  - split; [apply Forall2_moved_refl|auto].
  - cbn [List.fold_left List.map].
    destruct (toggleRule_frame agv agvPos st r) as [H1 H2].
    destruct (IH (toggleRule agv agvPos st r)) as [H3 H4].
    split; [|auto].
    eapply Forall2_moved_trans.
    + eapply Forall2_moved_mono; [|exact H1]. intros i [<-|[]]. now left.
    + eapply Forall2_moved_mono; [|exact H3]. intros i Hi. now right.
Qed.

(** X19. The toggle touches nothing but the assets that have a rule: every
    upload keeps its place in the list, its id, name, url and scale, and an
    upload without a rule is exactly what it was; an asset without a rule
    keeps its scene object and its carried status; the rules, the telemetry
    position, the undo stack and the vehicle stay as they are.  This holds
    for every key, mounted vehicle or not. *)
Theorem toggle_touches_only_ruled_assets (code : string) (p : Page) (sc : Scene) :
  let r := onKeyQ code p sc in
  List.Forall2 (movedOnly (List.map rule_id (attachRules p)))
    (uploads p) (uploads (fst r))
  /\ (forall i, ~ In i (List.map rule_id (attachRules p)) ->
        uploadObjectMapRef (snd r) !! i = uploadObjectMapRef sc !! i
        /\ setHas (carriedIds (fst r)) i = setHas (carriedIds p) i)
  /\ attachRules (fst r) = attachRules p
  /\ agvPos (fst r) = agvPos p
  /\ uploadHistoryRef (fst r) = uploadHistoryRef p
  /\ agvRef (snd r) = agvRef sc.
Proof.
  cbv zeta. unfold Attach.onKeyQ.
  destruct (negb (code =? "KeyQ")%string);
    [cbn [fst snd]; repeat split; auto using Forall2_moved_refl|].
  destruct (agvRef sc) as [agv|] eqn:Ha;
    [|cbn [fst snd]; repeat split; auto using Forall2_moved_refl].
  cbn [loopEnd fst snd uploads carriedIds attachRules agvPos uploadHistoryRef
       setCarriedIds setUploads agvRef uploadObjectMapRef].
  destruct (fold_toggle_frame agv (agvPos p) (attachRules p) (loopStart p sc))
    as [H1 _].
  repeat split; auto.
  - now apply fold_toggle_other.
  - destruct (fold_toggle_other cos sin agv (agvPos p) (attachRules p) (loopStart p sc) i H)
      as [_ H2].
    rewrite H2. cbn [loopStart nextCarried]. apply setHas_from.
Qed.

Lemma toggleRule_carried_from (agv : Agv) (agvPos : Vec3) (st : Loop)
  (r : AttachRule) (i : string) :
  In i (nextCarried (toggleRule agv agvPos st r)) ->
  In i (nextCarried st) \/ i = rule_id r.
Proof.
  intros H. destruct (String.eqb_spec (rule_id r) i) as [E|E]; [now right|left].
  apply setHas_In. apply setHas_In in H.
  now rewrite (proj2 (toggleRule_other cos sin agv agvPos st r i E)) in H.
Qed.

Lemma fold_toggle_carried_from (agv : Agv) (agvPos : Vec3) (rules : list AttachRule)
  (st : Loop) (i : string) :
  In i (nextCarried (List.fold_left (toggleRule agv agvPos) rules st)) ->
  In i (nextCarried st) \/ In i (List.map rule_id rules).
Proof.
  revert st. induction rules as [|r rules IH]; intros st H; [now left|].
  cbn [List.fold_left] in H. destruct (IH _ H) as [H1|H1]; [|right; now right].
  destruct (toggleRule_carried_from agv agvPos st r i H1) as [H2|H2];
    [now left|right; left; congruence].
Qed.

(** X20. The carried list never lists an asset twice, and the toggle never
    puts an asset in it that was neither carried before nor named by a
    rule. *)
Theorem carried_list_stays_duplicate_free (code : string) (p : Page) (sc : Scene) :
  List.NoDup (carriedIds p) ->
  List.NoDup (carriedIds (fst (onKeyQ code p sc)))
  /\ forall i, In i (carriedIds (fst (onKeyQ code p sc))) ->
               In i (carriedIds p) \/ In i (List.map rule_id (attachRules p)).
Proof.
  intros Hnd. unfold Attach.onKeyQ.
  destruct (negb (code =? "KeyQ")%string); [cbn [fst]; auto|].
  destruct (agvRef sc) as [agv|]; [|cbn [fst]; auto].
  cbn [loopEnd fst carriedIds setCarriedIds]. split.
  - apply fold_toggle_frame. cbn [loopStart nextCarried]. apply setFrom_NoDup.
  - intros i Hi.
    destruct (fold_toggle_carried_from agv (agvPos p) _ _ i Hi) as [H|H]; [left|now right].
    cbn [loopStart nextCarried] in H. apply setHas_In in H.
    rewrite setHas_from in H. now apply setHas_In.
Qed.

(** *** The advisory and the toggle agree *)

Lemma toggle_blocked (agv : Agv) (agvPos : Vec3) (st : Loop) (r : AttachRule) :
  (setHas (nextCarried st) (rule_id r) = true
   \/ objects st !! rule_id r = None
   \/ exists obj, objects st !! rule_id r = Some obj
                  /\ tooFar (getWorldPosition agv obj) agvPos = true) ->
  forall i, setHas (nextCarried (toggleRule agv agvPos st r)) i = true ->
            setHas (nextCarried st) i = true.
Proof.
  intros Hb i. unfold Attach.toggleRule.
  destruct (objects st !! rule_id r) as [obj|] eqn:Ho; [|auto].
  destruct (setHas (nextCarried st) (rule_id r)) eqn:Hc.
  - cbn [nextCarried]. rewrite setHas_delete. intros H.
    now apply andb_prop in H as [H _].
  - destruct Hb as [Hb|[Hb|(obj' & Hb & Hfar)]]; try congruence.
    assert (obj' = obj) by congruence. subst obj'. now rewrite Hfar.
Qed.

Lemma fold_blocked (agv : Agv) (agvPos : Vec3) (rules : list AttachRule) (st : Loop) :
  List.NoDup (List.map rule_id rules) ->
  (forall r, In r rules ->
     setHas (nextCarried st) (rule_id r) = true
     \/ objects st !! rule_id r = None
     \/ exists obj, objects st !! rule_id r = Some obj
                    /\ tooFar (getWorldPosition agv obj) agvPos = true) ->
  forall i, setHas (nextCarried (List.fold_left (toggleRule agv agvPos) rules st)) i = true ->
            setHas (nextCarried st) i = true.
Proof.
  revert st. induction rules as [|r rules IH]; intros st Hnd Hb i H; [exact H|].
  cbn [List.map] in Hnd. inversion Hnd as [|? ? Hni Hnd']; subst.
  cbn [List.fold_left] in H.
  apply (toggle_blocked agv agvPos st r); [apply Hb; now left|].
  apply (IH (toggleRule agv agvPos st r) Hnd'); [|exact H].
  intros r' Hr'.
  assert (Hne : rule_id r <> rule_id r').
  { intros E. apply Hni. rewrite E. now apply List.in_map. }
  destruct (toggleRule_other cos sin agv agvPos st r (rule_id r') Hne) as [H1 H2].
  rewrite H1, H2. apply Hb. now right.
Qed.

Lemma nearRule_mounted (p : Page) (sc : Scene) (agv : Agv) (r : AttachRule)
  (obj : Group) :
  agvRef sc = Some agv -> uploadObjectMapRef sc !! rule_id r = Some obj ->
  nearRule p sc r
  = negb (setHas (carriedIds p) (rule_id r))
    && negb (tooFar (getWorldPosition agv obj) (agvPos p)).
Proof.
  intros Ha Ho. unfold Advisory.nearRule, Advisory.worldOf. rewrite Ho, Ha.
  change (includes (carriedIds p) (rule_id r)) with (setHas (carriedIds p) (rule_id r)).
  destruct (setHas (carriedIds p) (rule_id r)); [reflexivity|].
  unfold tooFar, Qltb. cbn [negb andb]. now rewrite negb_involutive.
Qed.

Lemma notice_take_iff_near (p : Page) (sc : Scene) :
  pickupNotice p sc = takeNotice <-> near p sc = true.
Proof.
  unfold Advisory.pickupNotice. destruct (near p sc); [tauto|].
  destruct (carriedIds p); split; discriminate.
Qed.

(** X21. The advisory and the toggle agree: with the vehicle mounted, one
    rule per asset and every ruled asset's object in the scene, the notice
    that offers to take an object is shown exactly when pressing Q would
    attach one, that is, when some asset not carried before the key press is
    carried after it. *)
Theorem advisory_shown_iff_toggle_attaches (p : Page) (sc : Scene) (agv : Agv) :
  agvRef sc = Some agv ->
  List.NoDup (List.map rule_id (attachRules p)) ->
  (forall r, In r (attachRules p) -> uploadObjectMapRef sc !! rule_id r <> None) ->
  pickupNotice p sc = takeNotice
  <-> exists i, setHas (carriedIds p) i = false
                /\ setHas (carriedIds (fst (onKeyQ "KeyQ" p sc))) i = true.
Proof.
  intros Ha Hnd Hall. rewrite notice_take_iff_near.
  rewrite (onKeyQ_unfold cos sin p sc agv Ha).
  cbn [loopEnd fst carriedIds setCarriedIds]. split.
  - intros Hn. apply List.existsb_exists in Hn as (r & Hr & Hn).
    destruct (uploadObjectMapRef sc !! rule_id r) as [obj|] eqn:Ho;
      [|now apply Hall in Hr].
    rewrite (nearRule_mounted p sc agv r obj Ha Ho) in Hn.
    apply andb_prop in Hn as [Hc Hd].
    apply negb_true_iff in Hc. apply negb_true_iff in Hd.
    exists (rule_id r). split; [exact Hc|].
    apply (fold_attach cos sin agv (agvPos p) (attachRules p) (loopStart p sc) r obj);
      auto.
    cbn [loopStart nextCarried]. now rewrite setHas_from.
  - intros (i & Hc & Hi). destruct (near p sc) eqn:Hn; [reflexivity|exfalso].
    assert (Hc' : setHas (nextCarried (loopStart p sc)) i = true).
    { apply (fold_blocked agv (agvPos p) (attachRules p) (loopStart p sc) Hnd);
        [|exact Hi].
      intros r Hr. cbn [loopStart nextCarried objects]. rewrite setHas_from.
      destruct (setHas (carriedIds p) (rule_id r)) eqn:Hcr; [now left|right].
      destruct (uploadObjectMapRef sc !! rule_id r) as [obj|] eqn:Ho; [right|now left].
      exists obj. split; [reflexivity|].
      assert (Hnr : nearRule p sc r = false).
      { destruct (nearRule p sc r) eqn:E; [|reflexivity].
        assert (Ht : near p sc = true)
          by (apply List.existsb_exists; exists r; auto).
        congruence. }
      rewrite (nearRule_mounted p sc agv r obj Ha Ho), Hcr in Hnr.
      cbn [negb andb] in Hnr. now apply negb_false_iff in Hnr. }
    cbn [loopStart nextCarried] in Hc'. rewrite setHas_from in Hc'. congruence.
Qed.

(** *** What Add Rule records *)

Lemma mapSet_In (m : list AttachRule) (r x : AttachRule) :
  List.NoDup (List.map rule_id m) ->
  In x (mapSet m r) <-> x = r \/ (In x m /\ rule_id x <> rule_id r).
Proof.
  induction m as [|r' m IH]; intros Hnd.
  - cbn. intuition.
  - cbn [List.map] in Hnd. inversion Hnd as [|? ? Hni Hnd']; subst.
    cbn [mapSet]. destruct (String.eqb_spec (rule_id r') (rule_id r)) as [E|E].
    + cbn [In]. split.
      * intros [H|H]; [left; congruence|right]. split; [now right|].
        intros E'. apply Hni. rewrite E, <- E'. now apply List.in_map.
      * intros [H|[[H|H] Hne]]; [left; congruence|congruence|now right].
    + cbn [In]. rewrite (IH Hnd'). split.
      * intros [H|[H|[H Hne]]]; [right|now left|right].
        -- subst x. split; [now left|exact E].
        -- split; [now right|exact Hne].
      * intros [H|[[H|H] Hne]]; [right; now left|now left|right; right; auto].
Qed.

Lemma fold_mapSet_In (rules acc : list AttachRule) (x : AttachRule) :
  List.NoDup (List.map rule_id acc) ->
  (forall r1 r2, In r1 rules -> In r2 rules -> rule_id r1 = rule_id r2 -> r1 = r2) ->
  In x (List.fold_left mapSet rules acc)
  <-> In x rules \/ (In x acc /\ ~ In (rule_id x) (List.map rule_id rules)).
Proof.
  revert acc. induction rules as [|r rules IH]; intros acc Hnd Hcons.
  - cbn. tauto.
  - cbn [List.fold_left]. rewrite IH.
    + rewrite (mapSet_In acc r x Hnd). cbn [In List.map]. split.
      * intros [H|[[H|[H Hne]] Hni]]; [left; now right|left; now left|right].
        split; [exact H|]. intros [E|E]; [congruence|contradiction].
      * intros [[H|H]|[H Hni]].
        -- subst x.
           destruct (List.in_dec String.string_dec (rule_id r) (List.map rule_id rules))
             as [Hin|Hin]; [left|right; split; [now left|exact Hin]].
           apply List.in_map_iff in Hin as (r2 & E & Hr2).
           rewrite <- (Hcons r2 r); [exact Hr2|now right|now left|exact E].
        -- now left.
        -- right. split; [right; split; [exact H|]|]; intros E; apply Hni; auto.
    + now apply mapSet_NoDup.
    + intros r1 r2 H1 H2. apply Hcons; now right.
Qed.

Lemma NoDup_ids_consistent (l : list AttachRule) (r1 r2 : AttachRule) :
  List.NoDup (List.map rule_id l) -> In r1 l -> In r2 l ->
  rule_id r1 = rule_id r2 -> r1 = r2.
Proof.
  induction l as [|r l IH]; intros Hnd H1 H2 E; [destruct H1|].
  cbn [List.map] in Hnd. inversion Hnd as [|? ? Hni Hnd']; subst.
  destruct H1 as [H1|H1], H2 as [H2|H2]; subst; auto.
  - exfalso. apply Hni. rewrite E. now apply List.in_map.
  - exfalso. apply Hni. rewrite <- E. now apply List.in_map.
Qed.

Lemma ruleFor_id (agvPos : Vec3) (sc : Scene) (i : string) (r : AttachRule) :
  ruleFor agvPos sc i = Some r -> rule_id r = i.
Proof.
  unfold Attach.ruleFor.
  destruct (agvRef sc), (uploadObjectMapRef sc !! i); intros [= <-]; reflexivity.
Qed.

Lemma ruleFor_mounted (agvPos : Vec3) (sc : Scene) (i : string) :
  ruleFor agvPos sc i <> None <-> uploadObjectMapRef sc !! i <> None.
Proof.
  unfold Attach.ruleFor.
  destruct (agvRef sc), (uploadObjectMapRef sc !! i); split; congruence.
Qed.

Lemma new_rules_In (agvPos : Vec3) (sc : Scene) (sel : list string) (x : AttachRule) :
  In x (List.concat
          (List.map (fun i => match ruleFor agvPos sc i with
                              | Some r => [r]
                              | None => []
                              end) sel))
  <-> In (rule_id x) sel /\ ruleFor agvPos sc (rule_id x) = Some x.
Proof.
  rewrite List.in_concat. split.
  - intros (l & Hl & Hx). apply List.in_map_iff in Hl as (i & <- & Hi).
    destruct (ruleFor agvPos sc i) as [r|] eqn:E; [|destruct Hx].
    destruct Hx as [<-|[]]. rewrite (ruleFor_id _ _ _ _ E). auto.
  - intros [Hi E]. exists [x]. split; [|now left].
    apply List.in_map_iff. exists (rule_id x). now rewrite E.
Qed.

(** X22. Add Rule records, for every selected asset whose object is in the
    scene, its present offset from the telemetry position (world position
    minus vehicle position), in place of any older rule for that asset; the
    rules of all other assets are kept, and nothing else is added.  There is
    still one rule per asset afterwards. *)
Theorem add_rule_records_current_offsets (p : Page) (sc : Scene) :
  List.NoDup (List.map rule_id (attachRules p)) ->
  List.NoDup (List.map rule_id (attachRules (onAddRule p sc)))
  /\ (forall x,
        In x (attachRules (onAddRule p sc))
        <-> (In (rule_id x) (selectedUploadIds p)
             /\ ruleFor (agvPos p) sc (rule_id x) = Some x)
            \/ (In x (attachRules p)
                /\ ~ (In (rule_id x) (selectedUploadIds p)
                      /\ uploadObjectMapRef sc !! rule_id x <> None)))
  /\ (forall i agv obj,
        agvRef sc = Some agv -> uploadObjectMapRef sc !! i = Some obj ->
        ruleFor (agvPos p) sc i
        = Some (mkRule i
                  (mkVec3 (vx (getWorldPosition agv obj) - vx (agvPos p))
                          (vy (getWorldPosition agv obj) - vy (agvPos p))
                          (vz (getWorldPosition agv obj) - vz (agvPos p))))).
Proof.
  intros Hnd. split; [now apply onAddRule_NoDup|]. split.
  - intros x.
    pose proof (new_rules_In (agvPos p) sc (selectedUploadIds p)) as Hnew.
    assert (Hids : forall j,
               In j (List.map rule_id
                       (List.concat
                          (List.map (fun i => match ruleFor (agvPos p) sc i with
                                              | Some r => [r]
                                              | None => []
                                              end) (selectedUploadIds p))))
               <-> In j (selectedUploadIds p) /\ uploadObjectMapRef sc !! j <> None).
    { intros j. rewrite List.in_map_iff. split.
      - intros (r & <- & Hr). apply Hnew in Hr as [H1 H2]. split; [exact H1|].
        apply (ruleFor_mounted (agvPos p)). congruence.
      - intros [H1 H2]. apply (ruleFor_mounted (agvPos p)) in H2.
        destruct (ruleFor (agvPos p) sc j) as [r|] eqn:E; [|congruence].
        exists r. split; [now apply ruleFor_id in E|].
        apply Hnew. rewrite (ruleFor_id _ _ _ _ E). auto. }
    unfold Attach.onAddRule.
    set (new := List.concat _) in *.
    rewrite <- (Hnew x), <- (Hids (rule_id x)).
    destruct new as [|r0 new'] eqn:En.
    + cbn. tauto.
    + cbn [attachRules setAttachRules]. rewrite <- En in *.
      rewrite fold_mapSet_In.
      * rewrite fold_mapSet_In; [cbn; tauto|constructor|].
        intros r1 r2. now apply NoDup_ids_consistent.
      * apply fold_mapSet_NoDup. constructor.
      * intros r1 r2 H1 H2 E. apply Hnew in H1 as [_ H1]. apply Hnew in H2 as [_ H2].
        rewrite E in H1. congruence.
  - intros i agv obj Ha Ho. unfold Attach.ruleFor. now rewrite Ha, Ho.
Qed.

End Trig.

Lemma advisory_shown_iff_toggle_attaches_witness :
  agvRef sceneB = Some (mkAgv (mkVec3 1 0 1) 0)
  /\ (Advisory.pickupNotice cosAtZero sinAtZero pageB sceneB = takeNotice
      <-> exists i, setHas (carriedIds pageB) i = false
                    /\ setHas (carriedIds
                                 (fst (Attach.onKeyQ cosAtZero sinAtZero "KeyQ"
                                         pageB sceneB))) i = true).
Proof.
  split; [reflexivity|].
  apply (advisory_shown_iff_toggle_attaches cosAtZero sinAtZero pageB sceneB
           (mkAgv (mkVec3 1 0 1) 0) eq_refl).
  - vm_compute. repeat constructor. intros [].
  - intros r Hr. vm_compute in Hr. destruct Hr as [<-|[]]. vm_compute. discriminate.
Defined.

Lemma add_rule_records_current_offsets_witness :
  List.NoDup (List.map rule_id (attachRules pageA))
  /\ List.NoDup
       (List.map rule_id (attachRules (Attach.onAddRule cosAtZero sinAtZero pageA sceneA))).
Proof.
  assert (H : List.NoDup (List.map rule_id (attachRules pageA)))
    by (vm_compute; constructor).
  split; [exact H|].
  exact (proj1 (add_rule_records_current_offsets cosAtZero sinAtZero pageA sceneA H)).
Defined.

Lemma carried_list_stays_duplicate_free_witness :
  List.NoDup (carriedIds pageB)
  /\ List.NoDup (carriedIds (fst (Attach.onKeyQ cosAtZero sinAtZero "KeyQ" pageB sceneB))).
Proof.
  assert (H : List.NoDup (carriedIds pageB)) by (vm_compute; constructor).
  split; [exact H|].
  exact (proj1 (carried_list_stays_duplicate_free cosAtZero sinAtZero "KeyQ"
                  pageB sceneB H)).
Defined.

End AttachMoreFacts.

(** ** The camera rig over several frames *)

Module CameraMoreFacts.

Import Geometry CameraRig Samples.
Local Open Scope Q_scope.

Lemma lerp_error (c t k : Q) : c + (t - c) * (1 - k) - t == k * (c - t).
Proof. ring. Qed.

Lemma lerp_twice (c t k1 k2 k : Q) :
  k == k1 * k2 ->
  c + (t - c) * (1 - k1) + (t - (c + (t - c) * (1 - k1))) * (1 - k2)
  == c + (t - c) * (1 - k).
Proof. intros ->. ring. Qed.

Section Host.

Variable pow : Q -> Q -> Q.
Variable orbitUpdate : Vec3 -> Vec3.

Abbreviation tick := (CameraRig.tick pow orbitUpdate).

(** X23. FOLLOW and FPV smoothing is exponential and does not depend on the
    frame rate: a tick leaves the camera's offset from the target at the
    previous offset times [0.001 ^ dt] (FOLLOW) and, while the vehicle stands
    still, two ticks of [dt1] and [dt2] leave the camera where one tick of
    [dt1 + dt2] leaves it.  [Math.pow] enters through its law
    [k ^ (a + b) = k ^ a * k ^ b] only. *)
Theorem camera_smoothing_composes_over_frames
  (agv : AgvNode) (camera : Vec3) (dt1 dt2 : Q) (mode : CamMode) :
  pow 0.001 (dt1 + dt2) == pow 0.001 dt1 * pow 0.001 dt2 ->
  pow 0.0001 (dt1 + dt2) == pow 0.0001 dt1 * pow 0.0001 dt2 ->
  mode <> ORBIT ->
  veq (tick mode (Some agv) (tick mode (Some agv) camera dt1) dt2)
      (tick mode (Some agv) camera (dt1 + dt2))
  /\ (let t := followTarget agv in
      let c' := tick FOLLOW (Some agv) camera dt1 in
      vx c' - vx t == pow 0.001 dt1 * (vx camera - vx t)
      /\ vy c' - vy t == pow 0.001 dt1 * (vy camera - vy t)
      /\ vz c' - vz t == pow 0.001 dt1 * (vz camera - vz t)).
Proof.
  intros H1 H2 Hm. split.
  - destruct mode; [congruence| |]; cbn [CameraRig.tick].
    + unfold veq, lerp. cbn [vx vy vz]. repeat split; now apply lerp_twice.
    + destruct (fpvTarget agv) as [v|]; [|unfold veq; repeat split; reflexivity].
      unfold veq, lerp. cbn [vx vy vz]. repeat split; now apply lerp_twice.
  - cbv zeta. cbn [CameraRig.tick]. unfold lerp. cbn [vx vy vz].
    repeat split; apply lerp_error.
Qed.

End Host.

Lemma camera_smoothing_composes_over_frames_witness :
  powWhole 0.001 (1 + 1) == powWhole 0.001 1 * powWhole 0.001 1
  /\ veq (CameraRig.tick powWhole orbitOff FOLLOW (Some flyingLow)
            (CameraRig.tick powWhole orbitOff FOLLOW (Some flyingLow) cameraBelow 1) 1)
         (CameraRig.tick powWhole orbitOff FOLLOW (Some flyingLow) cameraBelow (1 + 1)).
Proof.
  assert (H1 : powWhole 0.001 (1 + 1) == powWhole 0.001 1 * powWhole 0.001 1)
    by reflexivity.
  assert (H2 : powWhole 0.0001 (1 + 1) == powWhole 0.0001 1 * powWhole 0.0001 1)
    by reflexivity.
  split; [exact H1|].
  apply (camera_smoothing_composes_over_frames powWhole orbitOff flyingLow cameraBelow
           1 1 FOLLOW H1 H2).
  discriminate.
Defined.

End CameraMoreFacts.

(** ** Hiding and restoring scene objects *)

Module VisibilityFacts.

Import Advisory Visibility.
Local Open Scope string_scope.

Lemma includes_In (l : list string) (a : string) : includes l a = true <-> In a l.
Proof.
  unfold includes. rewrite List.existsb_exists. split.
  - intros (x & Hx & E). apply String.eqb_eq in E. now subst.
  - intros H. exists a. split; [exact H|apply String.eqb_refl].
Qed.

Lemma includes_app (l : list string) (a b : string) :
  includes (l ++ [a]) b = includes l b || String.eqb b a.
Proof. unfold includes. rewrite List.existsb_app. cbn. now rewrite orb_false_r. Qed.

Lemma setVisible_lookup (v : bool) (a u : string) (objs : Objects) :
  setVisible v a objs !! u
  = if String.eqb u a then (fun _ => v) <$> objs !! u else objs !! u.
Proof.
  unfold setVisible. destruct (String.eqb_spec u a) as [->|Hne].
  - apply lookup_alter_eq.
  - apply lookup_alter_ne. congruence.
Qed.

Lemma setAllVisible_lookup (v : bool) (l : list string) (u : string) (objs : Objects) :
  setAllVisible v l objs !! u
  = if includes l u then (fun _ => v) <$> objs !! u else objs !! u.
Proof.
  unfold setAllVisible. revert objs. induction l as [|a l IH]; intros objs; [reflexivity|].
  cbn [List.fold_left]. rewrite IH, setVisible_lookup.
  change (includes (a :: l) u) with (String.eqb u a || includes l u).
  destruct (String.eqb u a), (includes l u); cbn [orb]; try reflexivity.
  now destruct (objs !! u).
Qed.

(** What a hide does, when it does anything: the object is hidden, the uuid
    is in the list, once. *)
Lemma hideNow_lookup (hovered u : string) (s : State) :
  ledgerSound s ->
  ledgerSound (hideNow hovered s)
  /\ sceneRef (hideNow hovered s) = sceneRef s
  /\ (forall a, In a (hiddenUuids (hideNow hovered s)) ->
                In a (hiddenUuids s) \/ a = hovered)
  /\ (forall a, In a (hiddenUuids s) -> In a (hiddenUuids (hideNow hovered s)))
  /\ objects (hideNow hovered s) !! u
     = (if sceneRef s && String.eqb u hovered
        then (fun _ => false) <$> objects s !! u
        else objects s !! u).
Proof.
  intros [Hnd Hh]. unfold hideNow, ledgerSound.
  destruct (sceneRef s) eqn:Hs; cbn [negb andb];
    [|repeat split; auto].
  destruct (objects s !! hovered) as [v0|] eqn:Ho.
  - destruct (includes (hiddenUuids s) hovered) eqn:Hi.
    + cbn [hiddenUuids objects sceneRef]. repeat split; auto.
      * intros a v Ha. rewrite setVisible_lookup.
        destruct (String.eqb a hovered).
        -- destruct (objects s !! a); cbn; congruence.
        -- now apply Hh.
      * apply setVisible_lookup.
    + unfold hiddenEffect. cbn [hiddenUuids objects sceneRef].
      assert (Hni : ~ In hovered (hiddenUuids s)).
      { intros H. apply includes_In in H. congruence. }
      repeat split.
      * apply List.NoDup_app; [exact Hnd|repeat constructor; intros []|].
        intros x Hx [<-|[]]. contradiction.
      * intros a v Ha. rewrite setAllVisible_lookup.
        apply includes_In in Ha. rewrite Ha.
        destruct (setVisible false hovered (objects s) !! a); cbn; congruence.
      * intros a Ha. apply List.in_app_iff in Ha as [Ha|[<-|[]]]; auto.
      * intros a Ha. apply List.in_app_iff. now left.
      * rewrite setAllVisible_lookup, includes_app, setVisible_lookup.
        destruct (String.eqb_spec u hovered) as [->|Hne].
        -- rewrite orb_true_r, Ho. reflexivity.
        -- rewrite orb_false_r. destruct (includes (hiddenUuids s) u) eqn:Hu;
             [|reflexivity].
           apply includes_In in Hu. destruct (objects s !! u) as [v|] eqn:Hv;
             [|reflexivity].
           cbn. now rewrite (Hh u v Hu Hv).
  - repeat split; auto.
    destruct (String.eqb_spec u hovered) as [->|Hne]; [|reflexivity].
    now rewrite Ho.
Qed.

Lemma step_lookup (ev : Event) (u : string) (s : State) :
  ledgerSound s ->
  ledgerSound (step s ev)
  /\ sceneRef (step s ev) = sceneRef s
  /\ (forall a, In a (hiddenUuids (step s ev)) ->
                In a (hiddenUuids s) \/ a = hoveredAt ev)
  /\ (forall a, In a (hiddenUuids s) -> In a (hiddenUuids (step s ev)))
  /\ (objects (step s ev) !! u = objects s !! u
      \/ (u = hoveredAt ev /\ objects s !! u <> None
          /\ objects (step s ev) !! u = Some false
          /\ In u (hiddenUuids (step s ev)))).
Proof.
  intros Hs.
  assert (Hid : ledgerSound s /\ sceneRef s = sceneRef s
                /\ (forall a, In a (hiddenUuids s) ->
                              In a (hiddenUuids s) \/ a = hoveredAt ev)
                /\ (forall a, In a (hiddenUuids s) -> In a (hiddenUuids s))
                /\ (objects s !! u = objects s !! u
                    \/ (u = hoveredAt ev /\ objects s !! u <> None
                        /\ objects s !! u = Some false
                        /\ In u (hiddenUuids s)))).
  { split; [exact Hs|]. split; [reflexivity|]. split; [intros a Ha; now left|].
    split; [auto|now left]. }
  assert (Hhide : forall hovered, hoveredAt ev = hovered ->
            ledgerSound (hideNow hovered s)
            /\ sceneRef (hideNow hovered s) = sceneRef s
            /\ (forall a, In a (hiddenUuids (hideNow hovered s)) ->
                          In a (hiddenUuids s) \/ a = hoveredAt ev)
            /\ (forall a, In a (hiddenUuids s) -> In a (hiddenUuids (hideNow hovered s)))
            /\ (objects (hideNow hovered s) !! u = objects s !! u
                \/ (u = hoveredAt ev /\ objects s !! u <> None
                    /\ objects (hideNow hovered s) !! u = Some false
                    /\ In u (hiddenUuids (hideNow hovered s))))).
  { intros hovered <-. destruct (hideNow_lookup (hoveredAt ev) u s Hs)
      as (H1 & H2 & H3 & H4 & H5).
    split; [exact H1|]. split; [exact H2|]. split; [exact H3|]. split; [exact H4|].
    destruct (sceneRef s && String.eqb u (hoveredAt ev)) eqn:E; [|now left].
    apply andb_prop in E as [E1 E2]. apply String.eqb_eq in E2. subst u.
    destruct (objects s !! hoveredAt ev) as [v|] eqn:Ho; [right|now left].
    split; [reflexivity|]. split; [discriminate|]. split; [exact H5|].
    unfold hideNow. rewrite E1, Ho. cbn [negb].
    destruct (includes (hiddenUuids s) (hoveredAt ev)) eqn:Hi.
    - cbn [hiddenUuids]. now apply includes_In.
    - cbn [hiddenEffect hiddenUuids]. apply List.in_app_iff. right. now left. }
  destruct ev as [code hovered|hovered]; cbn [step]; [|now apply Hhide].
  unfold onHide.
  destruct (negb (code =? "Delete") && negb (code =? "KeyX")); [exact Hid|].
  destruct (negb (sceneRef s)); [exact Hid|].
  destruct (negb (Upload.nonempty hovered)); [exact Hid|].
  now apply Hhide.
Qed.

Lemma step_keeps_listed (ev : Event) (s : State) (a : string) :
  In a (hiddenUuids s) -> In a (hiddenUuids (step s ev)).
Proof.
  intros K.
  assert (Hh : forall hovered, In a (hiddenUuids (hideNow hovered s))).
  { intros hovered. unfold hideNow. destruct (negb (sceneRef s)); [exact K|].
    destruct (objects s !! hovered); [|exact K].
    destruct (includes (hiddenUuids s) hovered); cbn; [exact K|].
    apply List.in_app_iff. now left. }
  destruct ev as [code hovered|hovered]; cbn [step]; [|apply Hh].
  unfold onHide.
  destruct (negb (code =? "Delete") && negb (code =? "KeyX")); [exact K|].
  destruct (negb (sceneRef s)); [exact K|].
  destruct (negb (Upload.nonempty hovered)); [exact K|apply Hh].
Qed.

Lemma run_keeps_listed (evs : list Event) (s : State) (a : string) :
  In a (hiddenUuids s) -> In a (hiddenUuids (run s evs)).
Proof.
  revert s. induction evs as [|ev evs IH]; intros s K; [exact K|].
  cbn. apply IH, step_keeps_listed, K.
Qed.


(** X24. The hidden list stays sound under Delete, X and Hide Now: it names
    no uuid twice, it names hidden objects only, and it grows only by uuids
    that were under the pointer.  An object changes only by being hidden, and
    then it was under the pointer and is in the list; every other object keeps
    its visibility. *)
Theorem hidden_list_names_hidden_objects_once
  (evs : list Event) (s : State) (u : string) :
  ledgerSound s ->
  ledgerSound (run s evs)
  /\ (forall a, In a (hiddenUuids (run s evs)) ->
                In a (hiddenUuids s) \/ In a (List.map hoveredAt evs))
  /\ (objects (run s evs) !! u = objects s !! u
      \/ (In u (List.map hoveredAt evs) /\ objects s !! u <> None
          /\ objects (run s evs) !! u = Some false
          /\ In u (hiddenUuids (run s evs)))).
Proof.
  revert s. induction evs as [|ev evs IH]; intros s Hs.
  - cbn. repeat split; auto; apply Hs.
  - destruct (step_lookup ev u s Hs) as (H1 & H2 & H3 & H4 & H5).
    destruct (IH (step s ev) H1) as (I1 & I2 & I3).
    change (run s (ev :: evs)) with (run (step s ev) evs).
    split; [exact I1|]. split.
    + intros a Ha. destruct (I2 a Ha) as [H|H]; [|right; now right].
      destruct (H3 a H) as [H'|H']; [now left|right; left; congruence].
    + destruct I3 as [I3|(J1 & J2 & J3 & J4)].
      * destruct H5 as [H5|(K1 & K2 & K3 & K4)]; [left; congruence|right].
        repeat split; [left; congruence|exact K2|congruence|].
        now apply run_keeps_listed.
      * right. repeat split; [now right| |exact J3|exact J4].
        destruct H5 as [H5|(K1 & K2 & K3 & K4)]; [congruence|exact K2].
Qed.


Import Samples.

Lemma hidden_list_names_hidden_objects_once_witness :
  ledgerSound showroom
  /\ ledgerSound
       (run showroom [KeyDown "Delete" "m1"; HideNow "m2"; KeyDown "KeyX" "m1"]).
Proof.
  assert (H : ledgerSound showroom).
  { split; [constructor|intros u v []]. }
  split; [exact H|].
  exact (proj1 (hidden_list_names_hidden_objects_once
                  [KeyDown "Delete" "m1"; HideNow "m2"; KeyDown "KeyX" "m1"]
                  showroom "m1" H)).
Defined.


End VisibilityFacts.

(** ** The import panel and the two routes together *)

Module LibraryFacts.

Import Geometry PageState Upload Library UploadFacts RouteFacts.
Local Open Scope string_scope.

Lemma proper_directly_inside (dir seg : string) :
  proper seg = true -> directly_inside dir (dir ++ String "/" seg).
Proof.
  intros Hp. exists seg. split; [reflexivity|].
  unfold proper in Hp.
  apply andb_prop in Hp as [[[H1 H2]%andb_prop H3]%andb_prop H4].
  split; [exact H4|].
  apply negb_true_iff in H2, H3.
  repeat split; intros E; rewrite E in *; discriminate.
Qed.

Lemma proper_slash_free (seg : string) : proper seg = true -> slash_free seg = true.
Proof. unfold proper. now intros [_ H]%andb_prop. Qed.

(** The file Hapus unlinks for an upload made by Import GLB. *)
Lemma unlink_imported (cwd : string) (u : UploadedGlb) :
  imported u ->
  DeleteRoute.unlinked (DeleteRoute.POST cwd (DeleteRoute.Url (url u)))
  = Some (uploadDir cwd ++ String "/" (name u)).
Proof.
  intros [Hu Hp]. rewrite Hu.
  pose proof (proper_slash_free _ Hp) as Hf.
  pose proof (kept_nonempty _ (proper_kept _ Hp)) as Hn.
  unfold DeleteRoute.POST.
  change (nonempty ("/uploads/" ++ name u)) with true. cbn [negb DeleteRoute.unlinked].
  change ("/uploads/" ++ name u) with ("/uploads" ++ String "/" (name u)).
  rewrite (basename_last_segment "/uploads" (name u) Hf Hn).
  destruct (delete_path cwd (name u) Hf) as (H & _). now rewrite (H Hp).
Qed.

Lemma onImport_file (cwd : string) (serverNow clientNow : Z) (fname : string)
  (buf : list Byte.byte) (c : Client) :
  let name := safeName serverNow fname in
  let entry := mkUpload (name ++ "-" ++ show_number clientNow) name ("/uploads/" ++ name)
                 (match agvPosition c with Some p => p | None => cursorPosRef c end) 1 in
  onImport cwd serverNow clientNow (Some (fname, buf)) c
  = mkClient (setUploads (fun prev => prev ++ [entry])%list (page c))
      (cursorPosRef c) (agvPosition c) "Upload success"
      (<[uploadDir cwd ++ String "/" name := buf]> (disk c)).
Proof.
  cbv zeta. unfold onImport, Upload.POST. cbn [written response].
  now rewrite (join_uploadDir_segment cwd _ (safeName_proper serverNow fname)).
Qed.

Lemma filter_other_ids (i : string) (l : list UploadedGlb) :
  List.Forall (fun u => id u <> i) l ->
  List.filter (fun p => negb (String.eqb (id p) i)) l = l.
Proof.
  induction 1 as [|u l Hu _ IH]; [reflexivity|]. cbn.
  destruct (String.eqb_spec (id u) i); [contradiction|]. cbn. now rewrite IH.
Qed.

(** X26. Importing a model and then pressing Hapus on the new entry is a
    round trip for the page and for the server: the import appends one entry
    (scale 1, at the vehicle or else at the cursor's ground point) and writes
    one file; Hapus takes that entry off the list and unlinks that very file,
    so the list and the disk are as before, provided the entry's id was not
    in use and the file did not exist. *)
Theorem import_then_remove_restores_list_and_disk
  (cwd : string) (serverNow clientNow : Z) (fname : string) (buf : list Byte.byte)
  (c : Client) :
  let name := safeName serverNow fname in
  let entry := mkUpload (name ++ "-" ++ show_number clientNow) name ("/uploads/" ++ name)
                 (match agvPosition c with Some p => p | None => cursorPosRef c end) 1 in
  let c1 := onImport cwd serverNow clientNow (Some (fname, buf)) c in
  List.Forall (fun u => id u <> id entry) (uploads (page c)) ->
  disk c !! (uploadDir cwd ++ String "/" name) = None ->
  uploads (page c1) = (uploads (page c) ++ [entry])%list
  /\ disk c1 = <[uploadDir cwd ++ String "/" name := buf]> (disk c)
  /\ uploads (page (onRemove cwd entry c1)) = uploads (page c)
  /\ disk (onRemove cwd entry c1) = disk c.
Proof.
  intros name entry c1 Hfresh Hnew.
  assert (E : c1 = mkClient (setUploads (fun prev => prev ++ [entry])%list (page c))
                     (cursorPosRef c) (agvPosition c) "Upload success"
                     (<[uploadDir cwd ++ String "/" name := buf]> (disk c)))
    by apply onImport_file.
  assert (Hi : imported entry).
  { split; [reflexivity|]. apply safeName_proper. }
  split; [now rewrite E|]. split; [now rewrite E|].
  assert (Hup : uploads (page (onRemove cwd entry c1)) = uploads (page c)).
  { unfold onRemove. cbn [page].
    assert (Hf : uploads (setUploads
                            (List.filter (fun p => negb (String.eqb (id p) (id entry))))
                            (page c1)) = uploads (page c)).
    { rewrite E. cbn [page setUploads uploads]. rewrite List.filter_app.
      rewrite (filter_other_ids _ _ Hfresh). cbn [List.filter].
      rewrite String.eqb_refl. cbn [negb]. apply List.app_nil_r. }
    destruct (draggedUploadId (page c1)) as [d|]; [|exact Hf].
    destruct (String.eqb d (id entry)); exact Hf. }
  split; [exact Hup|].
  unfold onRemove. cbn [disk]. rewrite (unlink_imported cwd entry Hi).
  rewrite E. cbn [disk name]. now apply delete_insert_id.
Qed.

Lemma step_imported (cwd : string) (ev : Event) (c : Client) (path : string) :
  List.Forall imported (uploads (page c)) ->
  match ev with Remove u => In u (uploads (page c)) | _ => True end ->
  ~ directly_inside (uploadDir cwd) path ->
  List.Forall imported (uploads (page (step cwd c ev)))
  /\ disk (step cwd c ev) !! path = disk c !! path.
Proof.
  intros Hall Hl Hout. destruct ev as [r|sNow cNow [[fname buf]|]|u next|u]; cbn [step].
  - unfold onCursorMove. destruct (intersectPlane r groundY); auto.
  - rewrite onImport_file. cbn [page disk setUploads uploads]. split.
    + apply List.Forall_app. split; [exact Hall|]. constructor; [|constructor].
      split; [reflexivity|apply safeName_proper].
    + apply lookup_insert_ne. intros <-. apply Hout.
      apply proper_directly_inside, safeName_proper.
  - auto.
  - cbn [onScale page disk setUploads uploads]. split; [|reflexivity].
    apply List.Forall_map. revert Hall. apply List.Forall_impl.
    intros p Hp. destruct (String.eqb (id p) (id u)); exact Hp.
  - assert (Hu : imported u).
    { rewrite List.Forall_forall in Hall. now apply Hall. }
    unfold onRemove. cbn [page disk]. split.
    + assert (Hf : List.Forall imported
                     (uploads (setUploads
                                 (List.filter (fun p => negb (String.eqb (id p) (id u))))
                                 (page c)))).
      { cbn [setUploads uploads]. rewrite List.Forall_forall in *.
        intros x Hx. apply List.filter_In in Hx as [Hx _]. now apply Hall. }
      destruct (draggedUploadId (page c)) as [d|]; [|exact Hf].
      destruct (String.eqb d (id u)); exact Hf.
    + rewrite (unlink_imported cwd u Hu). apply lookup_delete_ne. intros <-.
      apply Hout. apply proper_directly_inside, Hu.
Qed.

(** X27. Hapus cannot reach beyond the uploads directory: as long as the
    list holds uploads made by Import GLB, whatever is imported, rescaled and
    removed afterwards, the list still holds such uploads only, and every
    file that does not lie directly inside public/uploads is on the disk as
    it was. *)
Theorem session_touches_uploads_directory_only
  (cwd : string) (evs : list Event) (c : Client) (path : string) :
  List.Forall imported (uploads (page c)) -> listed cwd c evs ->
  ~ directly_inside (uploadDir cwd) path ->
  List.Forall imported (uploads (page (run cwd c evs)))
  /\ disk (run cwd c evs) !! path = disk c !! path.
Proof.
  revert c. induction evs as [|ev evs IH]; intros c Hall Hl Hout; [auto|].
  destruct Hl as [Hev Hl].
  destruct (step_imported cwd ev c path Hall Hev Hout) as [H1 H2].
  destruct (IH (step cwd c ev) H1 Hl Hout) as [H3 H4].
  change (run cwd c (ev :: evs)) with (run cwd (step cwd c ev) evs).
  split; [exact H3|congruence].
Qed.

Import Samples.

Lemma import_then_remove_restores_list_and_disk_witness :
  disk newcomer !! (uploadDir "/srv/app" ++ String "/" (safeName 17 "crate.glb")) = None
  /\ uploads (page (onRemove "/srv/app" crateEntry
                      (onImport "/srv/app" 17 18 (Some ("crate.glb", [])) newcomer)))
     = uploads (page newcomer).
Proof.
  split; [reflexivity|].
  destruct (import_then_remove_restores_list_and_disk "/srv/app" 17 18 "crate.glb" []
              newcomer (List.Forall_nil _) eq_refl) as (_ & _ & H & _).
  exact H.
Defined.

Lemma session_touches_uploads_directory_only_witness :
  listed "/srv/app" newcomer
    [Import 17 18 (Some ("crate.glb", [])); Scale crateEntry 2; Remove crateRescaled]
  /\ disk (run "/srv/app" newcomer
             [Import 17 18 (Some ("crate.glb", [])); Scale crateEntry 2;
              Remove crateRescaled]) !! "/etc/passwd"
     = disk newcomer !! "/etc/passwd".
Proof.
  assert (Hl : listed "/srv/app" newcomer
                 [Import 17 18 (Some ("crate.glb", [])); Scale crateEntry 2;
                  Remove crateRescaled]).
  { cbn [listed]. split; [exact I|]. split; [exact I|]. split; [|exact I].
    vm_compute. left. reflexivity. }
  split; [exact Hl|].
  apply (session_touches_uploads_directory_only "/srv/app" _ newcomer "/etc/passwd"
           (List.Forall_nil _) Hl).
  intros (seg & E & _). vm_compute in E. discriminate E.
Defined.

End LibraryFacts.

(** ** The group manager *)

Module GroupsFacts.

Import Visibility Groups AttachFacts AttachMoreFacts VisibilityFacts.
Local Open Scope string_scope.

Lemma someId_In (its : list Item) (x : string) :
  someId its x = true <-> In x (List.map item_id its).
Proof.
  unfold someId. rewrite List.existsb_exists, List.in_map_iff. split.
  - intros (i & Hi & E). apply String.eqb_eq in E. eauto.
  - intros (i & E & Hi). exists i. split; [exact Hi|]. now apply String.eqb_eq.
Qed.

Lemma addItem_tidy (k : Kind) (sel x : string) (prev : list Group) :
  tidy prev -> tidy (addItem k sel x prev).
Proof.
  unfold tidy, addItem. intros H. apply List.Forall_map. revert H.
  apply List.Forall_impl. intros g Hg.
  destruct (negb (id g =? sel)); [exact Hg|].
  destruct (someId (items g) x) eqn:E; [exact Hg|].
  cbn [items]. rewrite List.map_app. cbn [List.map item_id].
  apply List.NoDup_app; [exact Hg|repeat constructor; intros []|].
  intros y Hy [<-|[]]. apply someId_In in Hy. congruence.
Qed.

Lemma pushed_ids (existing ids : list string) (acc : list Item) :
  List.map item_id
    (List.fold_left
       (fun acc x => if negb (Attach.setHas existing x)
                     then (acc ++ [mkItem KindUpload x])%list else acc)
       ids acc)
  = (List.map item_id acc
     ++ List.filter (fun x => negb (Attach.setHas existing x)) ids)%list.
Proof.
  revert acc. induction ids as [|x ids IH]; intros acc; cbn [List.fold_left List.filter].
  - now rewrite List.app_nil_r.
  - rewrite IH. destruct (negb (Attach.setHas existing x)); [|reflexivity].
    rewrite List.map_app. cbn [List.map item_id]. now rewrite <- List.app_assoc.
Qed.

Lemma addSelected_tidy (sel : string) (ids : list string) (prev : list Group) :
  List.NoDup ids -> tidy prev -> tidy (addSelected sel ids prev).
Proof.
  unfold tidy, addSelected. intros Hids H. apply List.Forall_map. revert H.
  apply List.Forall_impl. intros g Hg.
  destruct (negb (id g =? sel)); [exact Hg|].
  cbn [items]. rewrite pushed_ids.
  apply List.NoDup_app; [exact Hg|now apply List.NoDup_filter|].
  intros y Hy Hy'. apply List.filter_In in Hy' as [_ Hy'].
  apply negb_true_iff in Hy'. rewrite setHas_from in Hy'.
  apply setHas_In in Hy. congruence.
Qed.

Lemma showItem_lookup (m : gmap string string) (h : bool) (objs : Objects)
  (it : Item) (u : string) :
  showItem m h objs it !! u
  = if match resolve m it with Some a => String.eqb a u | None => false end
    then (fun _ => negb h) <$> objs !! u
    else objs !! u.
Proof.
  unfold showItem. destruct (resolve m it) as [a|]; [|reflexivity].
  rewrite setVisible_lookup. now rewrite String.eqb_sym.
Qed.

Lemma showGroup_lookup (m : gmap string string) (objs : Objects) (g : Group)
  (u : string) :
  showGroup m objs g !! u
  = if touches m u g then (fun _ => negb (hidden g)) <$> objs !! u else objs !! u.
Proof.
  unfold showGroup, touches. generalize (hidden g) as h. intros h.
  revert objs. induction (items g) as [|it its IH]; intros objs; [reflexivity|].
  cbn [List.fold_left List.existsb]. rewrite IH, showItem_lookup.
  destruct (match resolve m it with Some a => a =? u | None => false end);
    destruct (List.existsb _ its); cbn [orb]; try reflexivity.
  now destruct (objs !! u).
Qed.

Lemma showGroups_untouched (m : gmap string string) (gs : list Group)
  (objs : Objects) (u : string) :
  List.Forall (fun g => touches m u g = false) gs ->
  List.fold_left (showGroup m) gs objs !! u = objs !! u.
Proof.
  intros H. revert objs. induction H as [|g gs Hg _ IH]; intros objs; [reflexivity|].
  cbn [List.fold_left]. now rewrite IH, showGroup_lookup, Hg.
Qed.

Lemma showGroups_owner (m : gmap string string) (pre post : list Group) (g : Group)
  (objs : Objects) (u : string) :
  touches m u g = true ->
  List.Forall (fun g' => touches m u g' = false) (pre ++ post) ->
  List.fold_left (showGroup m) (pre ++ g :: post) objs !! u
  = (fun _ => negb (hidden g)) <$> objs !! u.
Proof.
  intros Hg H. apply List.Forall_app in H as [Hpre Hpost].
  rewrite List.fold_left_app. cbn [List.fold_left].
  rewrite (showGroups_untouched m post _ u Hpost), showGroup_lookup, Hg.
  now rewrite (showGroups_untouched m pre _ u Hpre).
Qed.

Section Host.

Variable trim : string -> string.

Abbreviation step := (Groups.step trim).
Abbreviation run := (Groups.run trim).

Lemma step_tidy (s : State) (ev : Event) :
  cleanSelection ev -> tidy (groups s) -> tidy (groups (step s ev)).
Proof.
  intros Hc H. destruct ev; cbn [Groups.step groups]; try exact H.
  - destruct (negb (Upload.nonempty (trim (groupName s)))); [exact H|].
    cbn [groups setGroups groupsEffect]. apply List.Forall_app. split; [exact H|].
    repeat constructor.
  - destruct (selectedGroupId s) as [sel|]; [|exact H].
    destruct (negb (Upload.nonempty sel) || negb (Upload.nonempty hoveredUuid));
      [exact H|].
    cbn [groups setGroups groupsEffect]. now apply addItem_tidy.
  - destruct (selectedGroupId s) as [sel|], hoverUploadId as [x|]; try exact H.
    destruct (negb (Upload.nonempty sel) || negb (Upload.nonempty x)); [exact H|].
    cbn [groups setGroups groupsEffect]. now apply addItem_tidy.
  - destruct (selectedGroupId s) as [sel|], selectedUploadIds as [|x ids]; try exact H.
    destruct (negb (Upload.nonempty sel)); [exact H|].
    cbn [groups setGroups groupsEffect]. now apply addSelected_tidy.
  - unfold tidy in *. apply List.Forall_map. revert H. apply List.Forall_impl.
    intros x Hx. destruct (id x =? g); exact Hx.
  - unfold tidy in *. rewrite List.Forall_forall in *.
    intros x Hx. apply List.filter_In in Hx as [Hx _]. now apply H.
Qed.

(** X28. No group ever lists an id twice: whatever the order in which
    groups are created, selected, filled from the hovered mesh, the hovered
    upload or the selected uploads, shown, hidden and deleted, the ids of a
    group's items stay distinct, as long as the selection handed to Add
    Selected Uploads names no upload twice.  This is about ids, not objects:
    an upload's object can be listed twice, once under its scene uuid and
    once under its upload id (see [same_object_under_two_ids]). *)
Theorem group_items_stay_distinct (evs : list Event) (s : State) :
  List.Forall cleanSelection evs -> tidy (groups s) -> tidy (groups (run s evs)).
Proof.
  revert s. induction evs as [|ev evs IH]; intros s Hc H; [exact H|].
  inversion Hc as [|? ? Hev Hevs]; subst. cbn. apply IH; [exact Hevs|].
  now apply step_tidy.
Qed.

(** X29. A group's switch rules its objects: when one group alone holds items
    that stand for an object of the scene, the groups effect leaves that
    object shown exactly when the group is not hidden, and pressing the
    group's Hide/Show button flips it: the object is then shown exactly when
    the group was hidden before. *)
Theorem group_switch_rules_its_objects
  (s : State) (pre post : list Group) (g : Group) (u : string) :
  sceneRef s = true ->
  groups s = (pre ++ g :: post)%list ->
  touches (uploadObjectMapRef s) u g = true ->
  List.Forall (fun g' => touches (uploadObjectMapRef s) u g' = false) (pre ++ post) ->
  objects (groupsEffect s) !! u = (fun _ => negb (hidden g)) <$> objects s !! u
  /\ objects (step s (ToggleHidden (id g))) !! u = (fun _ => hidden g) <$> objects s !! u.
Proof.
  intros Hs Hg Ht Ho. split.
  - unfold groupsEffect. cbn [objects]. rewrite Hs, Hg. now apply showGroups_owner.
  - cbn [Groups.step]. unfold setGroups, groupsEffect.
    cbn [objects sceneRef groups uploadObjectMapRef]. rewrite Hs, Hg.
    rewrite List.map_app. cbn [List.map]. rewrite String.eqb_refl.
    set (flip := fun x : Group => if id x =? id g
                                  then mkGroup (id x) (name x) (negb (hidden x)) (items x)
                                  else x).
    assert (Hsame : forall x, touches (uploadObjectMapRef s) u (flip x)
                              = touches (uploadObjectMapRef s) u x).
    { intros x. unfold flip. now destruct (id x =? id g). }
    rewrite (showGroups_owner (uploadObjectMapRef s) (List.map flip pre)
               (List.map flip post)
               (mkGroup (id g) (name g) (negb (hidden g)) (items g)) (objects s) u).
    + cbn [hidden]. now rewrite negb_involutive.
    + exact Ht.
    + rewrite <- List.map_app. apply List.Forall_map. revert Ho.
      apply List.Forall_impl. intros x Hx. now rewrite Hsame.
Qed.

End Host.

Import Samples.

(** The object g7 of the upload, added once as a hovered mesh and once as a
    hovered upload: two items with different ids for the same object. *)
Example same_object_under_two_ids :
  let s := Groups.run trimNothing studio
             [TypeName "shelves"; CreateGroup 5; Select "shelves-5";
              AddHoveredScene "g7"; AddHoveredUpload (Some "17-crate.glb-18")] in
  List.map (fun g => List.map (resolve (uploadObjectMapRef s)) (items g)) (groups s)
  = [[Some "g7"; Some "g7"]].
Proof. reflexivity. Qed.

Lemma group_items_stay_distinct_witness :
  tidy (groups studio)
  /\ tidy (groups (Groups.run trimNothing studio
                     [TypeName "shelves"; CreateGroup 5; Select "shelves-5";
                      AddHoveredScene "m1"; AddHoveredScene "m1";
                      AddSelectedUploads ["17-crate.glb-18"];
                      ToggleHidden "shelves-5"])).
Proof.
  assert (H : tidy (groups studio)) by constructor.
  split; [exact H|].
  apply (group_items_stay_distinct trimNothing _ studio); [|exact H].
  repeat constructor. intros [].
Defined.

Lemma group_switch_rules_its_objects_witness :
  touches (uploadObjectMapRef gallery) "m1" shelves = true
  /\ objects (Groups.step trimNothing gallery (ToggleHidden "shelves-5")) !! "m1"
     = Some false.
Proof.
  split; [reflexivity|].
  exact (proj2 (group_switch_rules_its_objects trimNothing gallery [] [] shelves "m1"
                  eq_refl eq_refl eq_refl (List.Forall_nil _))).
Defined.

End GroupsFacts.

(** ** The pickup box *)

Module PickupFacts.

Import Geometry Attach PickupBox Samples.
Local Open Scope Q_scope.

Section Trig.

Variables cos sin : Q -> Q.

Abbreviation run := (PickupBox.run cos sin).
Abbreviation step := (PickupBox.step cos sin).

Lemma frames_while_carried (props : Props) (box : N) (mid : list Event) (s : State) :
  carried s = true -> List.forallb isFrame mid = true ->
  carried (run props box s mid) = true
  /\ carriedRef (run props box s mid) = carriedRef s
  /\ boxPosition (run props box s mid) = boxPosition s
  /\ dropped (run props box s mid) = dropped s
  /\ (mid <> [] -> prompt (run props box s mid) = "Press Q to drop"%string
                   /\ canPickRef (run props box s mid) = false).
Proof.
  revert s. induction mid as [|ev mid IH]; intros s Hc Hm.
  - cbn. repeat split; auto; congruence.
  - cbn in Hm. apply andb_prop in Hm as [Hev Hm].
    destruct ev as [|[a|] hovered]; try discriminate.
    change (run props box s (Frame (Some a) hovered :: mid))
      with (run props box (useFrame props (Some a) hovered s) mid).
    assert (E : useFrame props (Some a) hovered s
                = mkState true false (carriedRef s) (boxPosition s)
                    "Press Q to drop" (dropped s)).
    { unfold useFrame. rewrite Hc. reflexivity. }
    rewrite E.
    destruct (IH (mkState true false (carriedRef s) (boxPosition s)
                    "Press Q to drop" (dropped s)) eq_refl Hm)
      as (H1 & H2 & H3 & H4 & H5).
    repeat split; auto; destruct mid as [|ev' mid']; try (apply H5; discriminate);
      reflexivity.
Qed.

(** X30. A carried object is dropped on the floor under the hold point: after
    Q picks something up, whatever frames follow and wherever the vehicle
    drives or flies, the next Q leaves the clone in the scene at the x and z
    of the vehicle's hold point (the vehicle position plus its turned hold
    offset) and at height ground + 0.3, and the box is free again.  In
    between the prompt reads [Press Q to drop] and nothing can be picked. *)
Theorem dropped_object_lands_on_floor
  (props : Props) (box agvUuid uuid2 : N) (a1 a2 : Agv)
  (target1 target2 : option (Node * list Node)) (mid : list Event) (s : State) :
  carried s = false -> canPickRef s = true ->
  match target1 with
  | Some (obj, ancestors) => uuid (resolvePickTarget obj ancestors)
  | None => box
  end <> agvUuid ->
  List.forallb isFrame mid = true ->
  let held := run props box s (Key "KeyQ" (Some (agvUuid, a1)) target1 :: mid) in
  let s' := step props box held (Key "KeyQ" (Some (uuid2, a2)) target2) in
  carried held = true
  /\ (mid <> [] -> prompt held = "Press Q to drop"%string /\ canPickRef held = false)
  /\ carried s' = false
  /\ carriedRef s' = None
  /\ dropped s'
     = (dropped s
        ++ [mkVec3 (vx (localToWorld cos sin a2 holdOffset)) (groundY + 0.3)
              (vz (localToWorld cos sin a2 holdOffset))])%list.
Proof.
  intros Hc Hp Ht Hm. cbv zeta.
  change (run props box s (Key "KeyQ" (Some (agvUuid, a1)) target1 :: mid))
    with (run props box (onKey cos sin "KeyQ" (Some (agvUuid, a1)) box target1 s) mid).
  assert (E : onKey cos sin "KeyQ" (Some (agvUuid, a1)) box target1 s
              = mkState true (canPickRef s) (Some holdOffset) (boxPosition s)
                  (prompt s) (dropped s)).
  { unfold onKey. change (("KeyQ" =? "KeyQ")%string) with true. cbn [negb].
    rewrite Hc, Hp. cbn [negb andb].
    destruct (N.eqb_spec
                (match target1 with
                 | Some (obj, ancestors) => uuid (resolvePickTarget obj ancestors)
                 | None => box
                 end) agvUuid) as [E|E]; [contradiction|reflexivity]. }
  rewrite E.
  destruct (frames_while_carried props box mid
              (mkState true (canPickRef s) (Some holdOffset) (boxPosition s)
                 (prompt s) (dropped s)) eq_refl Hm) as (H1 & H2 & H3 & H4 & H5).
  split; [exact H1|]. split; [exact H5|].
  cbn [PickupBox.step]. unfold onKey.
  change (("KeyQ" =? "KeyQ")%string) with true. cbn [negb].
  rewrite H1, H2. cbn [negb andb carriedRef carried dropped].
  rewrite H4. auto.
Qed.

End Trig.

Lemma dropped_object_lands_on_floor_witness :
  carried atBox = false
  /\ dropped
       (PickupBox.run cosAtZero sinAtZero (pageProps 15) 90 atBox
          [Key "KeyQ" (Some (2%N, mkAgv (mkVec3 7.21 10.94 15) 0)) None;
           Frame (Some (mkAgv (mkVec3 3 12 4) 0)) None;
           Key "KeyQ" (Some (2%N, mkAgv (mkVec3 3 12 4) 0)) None])
     = [mkVec3 (vx (localToWorld cosAtZero sinAtZero (mkAgv (mkVec3 3 12 4) 0) holdOffset))
          (groundY + 0.3)
          (vz (localToWorld cosAtZero sinAtZero (mkAgv (mkVec3 3 12 4) 0) holdOffset))].
Proof.
  split; [reflexivity|].
  destruct (dropped_object_lands_on_floor cosAtZero sinAtZero (pageProps 15) 90 2 2
              (mkAgv (mkVec3 7.21 10.94 15) 0) (mkAgv (mkVec3 3 12 4) 0) None None
              [Frame (Some (mkAgv (mkVec3 3 12 4) 0)) None] atBox eq_refl eq_refl)
    as (_ & _ & _ & _ & H); [discriminate|reflexivity|].
  exact H.
Defined.

End PickupFacts.

(** ** The toggle, asset by asset *)

Module ToggleFacts.

Import Geometry PageState Attach Samples DragFacts AttachFacts AttachMoreFacts.
Local Open Scope Q_scope.

Lemma moveUpload_filter_other (i j : string) (pos : Vec3) (l : list UploadedGlb) :
  j <> i ->
  List.filter (fun u => String.eqb (id u) i) (moveUpload j pos l)
  = List.filter (fun u => String.eqb (id u) i) l.
Proof.
  intros Hne. induction l as [|u l IH]; [reflexivity|].
  cbn [moveUpload List.map List.filter].
  change (List.map _ l) with (moveUpload j pos l).
  destruct (String.eqb_spec (id u) j) as [E|E].
  - cbn [withPosition id]. destruct (String.eqb_spec (id u) i) as [E'|E'];
      [congruence|exact IH].
  - destruct (String.eqb (id u) i); [now rewrite IH|exact IH].
Qed.

Lemma moveUpload_filter_same (i : string) (pos : Vec3) (l : list UploadedGlb) :
  List.Forall (fun u => position u = pos)
    (List.filter (fun u => String.eqb (id u) i) (moveUpload i pos l)).
Proof.
  apply List.Forall_forall. intros u Hu. apply List.filter_In in Hu as [Hu Hi].
  apply String.eqb_eq in Hi. now apply (moveUpload_position i pos l).
Qed.

Section Trig.

Variables cos sin : Q -> Q.

Abbreviation toggleRule := (Attach.toggleRule cos sin).
Abbreviation getWorldPosition := (Attach.getWorldPosition cos sin).
Abbreviation onKeyQ := (Attach.onKeyQ cos sin).

Lemma toggleRule_uploads_other (agv : Agv) (agvPos : Vec3) (st : Loop)
  (r : AttachRule) (i : string) :
  rule_id r <> i ->
  List.filter (fun u => String.eqb (id u) i) (nextUploads (toggleRule agv agvPos st r))
  = List.filter (fun u => String.eqb (id u) i) (nextUploads st).
Proof.
  intros Hne. unfold Attach.toggleRule.
  destruct (objects st !! rule_id r) as [obj|]; [|reflexivity].
  destruct (setHas (nextCarried st) (rule_id r)).
  - cbn [nextUploads]. now apply moveUpload_filter_other.
  - destruct (tooFar _ _); [reflexivity|]. cbn [nextUploads].
    now apply moveUpload_filter_other.
Qed.

Lemma fold_toggle_uploads_other (agv : Agv) (agvPos : Vec3) (rules : list AttachRule)
  (st : Loop) (i : string) :
  ~ In i (List.map rule_id rules) ->
  List.filter (fun u => String.eqb (id u) i)
    (nextUploads (List.fold_left (toggleRule agv agvPos) rules st))
  = List.filter (fun u => String.eqb (id u) i) (nextUploads st).
Proof.
  revert st. induction rules as [|r rules IH]; intros st Hni; [reflexivity|].
  cbn in Hni. cbn [List.fold_left]. rewrite IH by tauto.
  apply toggleRule_uploads_other. tauto.
Qed.

(** The loop, seen from one rule: the rules before and after it leave its
    asset alone. *)
Lemma fold_toggle_one (agv : Agv) (agvPos : Vec3) (rules : list AttachRule)
  (st : Loop) (r : AttachRule) :
  In r rules -> List.NoDup (List.map rule_id rules) ->
  exists before,
    objects before !! rule_id r = objects st !! rule_id r
    /\ setHas (nextCarried before) (rule_id r) = setHas (nextCarried st) (rule_id r)
    /\ List.filter (fun u => String.eqb (id u) (rule_id r)) (nextUploads before)
       = List.filter (fun u => String.eqb (id u) (rule_id r)) (nextUploads st)
    /\ objects (List.fold_left (toggleRule agv agvPos) rules st) !! rule_id r
       = objects (toggleRule agv agvPos before r) !! rule_id r
    /\ setHas (nextCarried (List.fold_left (toggleRule agv agvPos) rules st)) (rule_id r)
       = setHas (nextCarried (toggleRule agv agvPos before r)) (rule_id r)
    /\ List.filter (fun u => String.eqb (id u) (rule_id r))
         (nextUploads (List.fold_left (toggleRule agv agvPos) rules st))
       = List.filter (fun u => String.eqb (id u) (rule_id r))
           (nextUploads (toggleRule agv agvPos before r)).
Proof.
  intros Hin Hnd.
  destruct (rule_split rules r Hin Hnd) as (pre & post & -> & Hpre & Hpost).
  exists (List.fold_left (toggleRule agv agvPos) pre st).
  destruct (fold_toggle_other cos sin agv agvPos pre st _ Hpre) as [H1 H2].
  rewrite List.fold_left_app. cbn [List.fold_left].
  destruct (fold_toggle_other cos sin agv agvPos post
              (toggleRule agv agvPos (List.fold_left (toggleRule agv agvPos) pre st) r)
              _ Hpost) as [H3 H4].
  repeat split; auto using fold_toggle_uploads_other.
Qed.

(** C1, as the code has it.  In an invocation of the toggle with the vehicle
    mounted and one rule per asset, take any rule whose asset's object is in
    the scene, and look at the page and the scene the handler leaves.  If the
    asset was not carried: when its horizontal distance to the position the
    telemetry last reported is at most the pick radius 2 (stated on the
    squares), it hangs under the vehicle with the rule's offset as its local
    position, it is in the carried list and its stored position is the
    offset; otherwise its object, its stored position and its carried status
    are what they were; so it is attached exactly when that distance is at
    most 2.  If the asset was carried, it hangs under the scene root at the
    world position it had, it is out of the carried list and its stored
    position is that world position.  The reported position is the vehicle's
    own whenever the telemetry is current, and then the distance is the
    distance to the vehicle. *)
Theorem toggle_settles_each_ruled_asset
  (p : Page) (sc : Scene) (agv : Agv) (r : AttachRule) (obj : Group) :
  agvRef sc = Some agv ->
  In r (attachRules p) -> List.NoDup (List.map rule_id (attachRules p)) ->
  uploadObjectMapRef sc !! rule_id r = Some obj ->
  let world := getWorldPosition agv obj in
  let dx := vx world - vx (agvPos p) in
  let dz := vz world - vz (agvPos p) in
  let after := onKeyQ "KeyQ" p sc in
  let mine := fun u => String.eqb (id u) (rule_id r) in
  (setHas (carriedIds p) (rule_id r) = false ->
     (dx * dx + dz * dz <= 2 * 2 ->
        uploadObjectMapRef (snd after) !! rule_id r = Some (mkGroup Vehicle (offset r))
        /\ setHas (carriedIds (fst after)) (rule_id r) = true
        /\ List.Forall (fun u => position u = offset r)
             (List.filter mine (uploads (fst after))))
     /\ (~ dx * dx + dz * dz <= 2 * 2 ->
           uploadObjectMapRef (snd after) !! rule_id r = Some obj
           /\ setHas (carriedIds (fst after)) (rule_id r) = false
           /\ List.filter mine (uploads (fst after)) = List.filter mine (uploads p))
     /\ (setHas (carriedIds (fst after)) (rule_id r) = true
         <-> dx * dx + dz * dz <= 2 * 2))
  /\ (setHas (carriedIds p) (rule_id r) = true ->
        uploadObjectMapRef (snd after) !! rule_id r = Some (mkGroup SceneRoot world)
        /\ getWorldPosition agv (mkGroup SceneRoot world) = world
        /\ setHas (carriedIds (fst after)) (rule_id r) = false
        /\ List.Forall (fun u => position u = world)
             (List.filter mine (uploads (fst after))))
  /\ (veq (agvPosition agv) (agvPos p) ->
        (dx * dx + dz * dz <= 2 * 2
         <-> (vx world - vx (agvPosition agv)) * (vx world - vx (agvPosition agv))
             + (vz world - vz (agvPosition agv)) * (vz world - vz (agvPosition agv))
             <= 2 * 2)).
Proof.
  intros Hagv Hin Hnd Ho world dx dz after mine.
  subst after. rewrite (onKeyQ_unfold cos sin p sc agv Hagv).
  cbn [loopEnd fst snd carriedIds uploads setCarriedIds setUploads uploadObjectMapRef].
  destruct (fold_toggle_one agv (agvPos p) (attachRules p) (loopStart p sc) r Hin Hnd)
    as (before & B1 & B2 & B3 & F1 & F2 & F3).
  cbn [loopStart objects nextCarried nextUploads] in B1, B2, B3.
  rewrite setHas_from in B2. rewrite Ho in B1.
  fold mine in B3, F3. rewrite F1, F2, F3.
  split; [|split].
  - intros Hc. rewrite Hc in B2.
    assert (Hnear : dx * dx + dz * dz <= 2 * 2 ->
              objects (toggleRule agv (agvPos p) before r) !! rule_id r
              = Some (mkGroup Vehicle (offset r))
              /\ setHas (nextCarried (toggleRule agv (agvPos p) before r)) (rule_id r)
                 = true
              /\ List.Forall (fun u => position u = offset r)
                   (List.filter mine (nextUploads (toggleRule agv (agvPos p) before r)))).
    { intros Hd. apply tooFar_spec in Hd.
      destruct (toggleRule_attach cos sin agv (agvPos p) before r obj B1 B2 Hd)
        as [H1 H2].
      split; [exact H1|]. split; [exact H2|].
      unfold Attach.toggleRule. rewrite B1, B2. fold world. rewrite Hd.
      cbn [nextUploads]. apply moveUpload_filter_same. }
    assert (Hfar : ~ dx * dx + dz * dz <= 2 * 2 ->
              toggleRule agv (agvPos p) before r = before).
    { intros Hd. apply (toggleRule_skip cos sin agv (agvPos p) before r obj B1 B2).
      destruct (tooFar world (agvPos p)) eqn:E; [exact E|].
      apply tooFar_spec in E. contradiction. }
    split; [exact Hnear|]. split.
    + intros Hd. rewrite (Hfar Hd). auto.
    + split.
      * intros Hcar.
        destruct (Qlt_le_dec (2 * 2) (dx * dx + dz * dz)) as [Hlt|Hle]; [|exact Hle].
        rewrite Hfar in Hcar; [congruence|].
        intros Hle. exact (Qlt_not_le _ _ Hlt Hle).
      * intros Hd. now apply Hnear.
  - intros Hc. rewrite Hc in B2.
    destruct (toggleRule_detach cos sin agv (agvPos p) before r obj B1 B2) as [H1 H2].
    split; [exact H1|]. split; [reflexivity|]. split; [exact H2|].
    unfold Attach.toggleRule. rewrite B1, B2. cbn [nextUploads].
    apply moveUpload_filter_same.
  - intros (Hx & _ & Hz). subst dx dz. rewrite Hx, Hz. tauto.
Qed.

End Trig.

Lemma toggle_settles_each_ruled_asset_witness :
  agvRef sceneB = Some (mkAgv (mkVec3 1 0 1) 0)
  /\ attachRules pageB = [mkRule "box.glb-1" (mkVec3 (1 - 0) (0 - 0) (0 - 0))]
  /\ worldAt "box.glb-1" (mkVec3 1 0 0) sceneB = true
  /\ setHas (carriedIds pageB) "box.glb-1" = false
  /\ uploadObjectMapRef (snd (pressQ (pageB, sceneB))) !! "box.glb-1"%string
     = Some (mkGroup Vehicle (mkVec3 (1 - 0) (0 - 0) (0 - 0)))
  /\ setHas (carriedIds (fst (pressQ (pageB, sceneB)))) "box.glb-1" = true.
Proof.
  split; [reflexivity|]. split; [reflexivity|]. split; [reflexivity|].
  split; [reflexivity|].
  assert (Hnd : List.NoDup (List.map rule_id (attachRules pageB))).
  { vm_compute. repeat constructor. intros []. }
  destruct (toggle_settles_each_ruled_asset cosAtZero sinAtZero
              pageB sceneB (mkAgv (mkVec3 1 0 1) 0)
              (mkRule "box.glb-1" (mkVec3 (1 - 0) (0 - 0) (0 - 0)))
              (mkGroup SceneRoot (mkVec3 1 0 0)) eq_refl
              (or_introl eq_refl) Hnd eq_refl)
    as (Hfree & _).
  destruct (Hfree eq_refl) as (Hnear & _).
  destruct Hnear as (H1 & H2 & _); [vm_compute; discriminate|].
  split; [exact H1|exact H2].
Defined.

(** C1, as the spec has it, fails: the radius is measured from the position
    the telemetry last reported, not from the vehicle.  The vehicle has
    driven on since the report; the box is within 2 of the vehicle and more
    than 2 from the reported position, and Q leaves it where it is. *)
Lemma toggle_measures_from_reported_position :
  agvRef sceneLag = Some (mkAgv (mkVec3 1 0 0.8) 0)
  /\ agvPos pageLag = mkVec3 1 0 1
  /\ worldAt "box.glb-1" (mkVec3 1 0 (-1.1)) sceneLag = true
  /\ setHas (carriedIds pageLag) "box.glb-1" = false
  /\ Qle_bool ((1 - 1) * (1 - 1) + (-1.1 - 0.8) * (-1.1 - 0.8)) (2 * 2) = true
  /\ Qle_bool ((1 - 1) * (1 - 1) + (-1.1 - 1) * (-1.1 - 1)) (2 * 2) = false
  /\ setHas (carriedIds (fst (pressQ (pageLag, sceneLag)))) "box.glb-1" = false
  /\ uploadObjectMapRef (snd (pressQ (pageLag, sceneLag))) !! "box.glb-1"%string
     = Some (mkGroup SceneRoot (mkVec3 1 0 (-1.1))).
Proof. vm_compute. repeat split. Qed.

End ToggleFacts.

(** ** Dragging, seen in the scene *)

Module StageFacts.

Import Geometry PageState DragMove DragNotions Attach Advisory Stage Samples.
Import GeometryFacts DragFacts DragMoreFacts AttachFacts AttachMoreFacts.
Local Open Scope Q_scope.

Lemma veq_refl (a : Vec3) : veq a a.
Proof. unfold veq. repeat split; reflexivity. Qed.

Lemma veq_sym (a b : Vec3) : veq a b -> veq b a.
Proof. unfold veq. intros (H1 & H2 & H3). repeat split; now symmetry. Qed.

Lemma veq_trans (a b c : Vec3) : veq a b -> veq b c -> veq a c.
Proof.
  unfold veq. intros (H1 & H2 & H3) (K1 & K2 & K3).
  repeat split; etransitivity; eassumption.
Qed.

Lemma veqb_veq (a b : Vec3) : veqb a b = true <-> veq a b.
Proof.
  unfold veqb, veq. rewrite !andb_true_iff, !Qeq_bool_iff. tauto.
Qed.

(** *** What a render does to one object *)

Lemma applyProps_other (old : list UploadedGlb) (objs : gmap string Group)
  (u : UploadedGlb) (i : string) :
  id u <> i -> applyProps old objs u !! i = objs !! i.
Proof.
  intros Hne. unfold applyProps.
  destruct (List.find _ old) as [o|].
  - destruct (veqb (position o) (position u)); [reflexivity|].
    now apply lookup_alter_ne.
  - now apply lookup_insert_ne.
Qed.

(** The object of [i] after a render in which every entry of [i] asks for
    [target]: it is where it hung, and at [target] as soon as an entry of [i]
    is rendered or it was there already. *)
Lemma render_places (old : list UploadedGlb) (i : string) (target : Vec3)
  (new : list UploadedGlb) :
  forall (objs : gmap string Group) (obj : Group),
    objs !! i = Some obj -> parent obj = SceneRoot ->
    (forall u, In u new -> id u = i -> veq (position u) target) ->
    (forall o, List.find (fun o => String.eqb (id o) i) old = Some o ->
               veq (position o) target -> veq (localPosition obj) target) ->
    exists obj',
      List.fold_left (applyProps old) new objs !! i = Some obj'
      /\ parent obj' = SceneRoot
      /\ (veq (localPosition obj) target \/ (exists u, In u new /\ id u = i) ->
          veq (localPosition obj') target).
Proof.
  induction new as [|u new IH]; intros objs obj Ho Hp Hnew Hold.
  - exists obj. cbn. split; [exact Ho|]. split; [exact Hp|].
    intros [H|(u & [] & _)]. exact H.
  - cbn [List.fold_left].
    destruct (String.eqb_spec (id u) i) as [E|E].
    + assert (Ht : veq (position u) target) by (apply Hnew; [now left|exact E]).
      assert (H1 : exists obj1,
                 applyProps old objs u !! i = Some obj1
                 /\ parent obj1 = SceneRoot /\ veq (localPosition obj1) target).
      { unfold applyProps. rewrite E.
        destruct (List.find _ old) as [o|] eqn:Ef.
        - destruct (veqb (position o) (position u)) eqn:Ev.
          + exists obj. split; [exact Ho|]. split; [exact Hp|].
            apply (Hold o eq_refl). apply veqb_veq in Ev.
            eapply veq_trans; eassumption.
          + exists (mkGroup (parent obj) (position u)).
            rewrite lookup_alter_eq, Ho. cbn. auto.
        - exists (mkGroup SceneRoot (position u)).
          rewrite lookup_insert_eq. cbn. auto. }
      destruct H1 as (obj1 & Ho1 & Hp1 & Hl1).
      destruct (IH _ obj1 Ho1 Hp1) as (obj' & Ho' & Hp' & Hl').
      * intros v Hv. apply Hnew. now right.
      * intros _ _ _. exact Hl1.
      * exists obj'. split; [exact Ho'|]. split; [exact Hp'|].
        intros _. apply Hl'. now left.
    + destruct (IH (applyProps old objs u) obj) as (obj' & Ho' & Hp' & Hl').
      * now rewrite applyProps_other.
      * exact Hp.
      * intros v Hv. apply Hnew. now right.
      * exact Hold.
      * exists obj'. split; [exact Ho'|]. split; [exact Hp'|].
        intros [H|(v & [<-|Hv] & Hi)]; [apply Hl'; now left|contradiction|].
        apply Hl'. right. now exists v.
Qed.

(** *** What the listeners leave alone *)

Lemma onUndo_frame (e : KeyboardEvent) (p : Page) :
  draggedUploadId (onUndo e p) = draggedUploadId p
  /\ pendingUndoRef (onUndo e p) = pendingUndoRef p
  /\ agvPos (onUndo e p) = agvPos p
  /\ attachRules (onUndo e p) = attachRules p.
Proof.
  unfold onUndo. destruct (negb (ctrlKey e) || negb (code e =? "KeyZ")%string); [auto|].
  destruct (pop (uploadHistoryRef p)) as [[last|] rest]; cbn; auto.
Qed.

Lemma onUndo_other (e : KeyboardEvent) (p : Page) :
  isUndo e = false -> onUndo e p = p.
Proof.
  unfold isUndo, onUndo. intros H.
  destruct (ctrlKey e); cbn in *; [now rewrite H|reflexivity].
Qed.

Lemma onKeyDown_frame (c : string) (w : World) :
  page (onKeyDown c w) = page w
  /\ draggingRef (refs (onKeyDown c w)) = draggingRef (refs w)
  /\ dragYRef (refs (onKeyDown c w)) = dragYRef (refs w)
  /\ dragPosRef (refs (onKeyDown c w)) = dragPosRef (refs w)
  /\ lastPointerRef (refs (onKeyDown c w)) = lastPointerRef (refs w)
  /\ dragModeRef (refs (onKeyDown c w)) = dragModeRef (refs w)
  /\ dragOffsetRef (refs (onKeyDown c w)) = dragOffsetRef (refs w).
Proof. exact (step_key_frame w (KeyDown c) eq_refl). Qed.

Section Trig.

Variables cos sin : Q -> Q.

Abbreviation onKeyQ := (Attach.onKeyQ cos sin).
Abbreviation step := (Stage.step cos sin).
Abbreviation run := (Stage.run cos sin).
Abbreviation handle := (Stage.handle cos sin).
Abbreviation entityWorld := (Stage.entityWorld cos sin).
Abbreviation grabbed := (Stage.grabbed cos sin).
Abbreviation missed := (Stage.missed cos sin).
Abbreviation validCycle := (Stage.validCycle cos sin).
Abbreviation validCycles := (Stage.validCycles cos sin).

Lemma onKeyQ_other (c : string) (p : Page) (sc : Scene) :
  String.eqb c "KeyQ" = false -> onKeyQ c p sc = (p, sc).
Proof. intros H. unfold Attach.onKeyQ. now rewrite H. Qed.

Lemma onKeyQ_frame (c : string) (p : Page) (sc : Scene) :
  uploadHistoryRef (fst (onKeyQ c p sc)) = uploadHistoryRef p
  /\ pendingUndoRef (fst (onKeyQ c p sc)) = pendingUndoRef p
  /\ draggedUploadId (fst (onKeyQ c p sc)) = draggedUploadId p
  /\ agvPos (fst (onKeyQ c p sc)) = agvPos p
  /\ attachRules (fst (onKeyQ c p sc)) = attachRules p
  /\ agvRef (snd (onKeyQ c p sc)) = agvRef sc
  /\ List.Forall2 (movedOnly (List.map rule_id (attachRules p)))
       (uploads p) (uploads (fst (onKeyQ c p sc))).
Proof.
  unfold Attach.onKeyQ.
  destruct (negb (c =? "KeyQ")%string);
    [cbn [fst snd]; repeat split; auto using Forall2_moved_refl|].
  destruct (agvRef sc) as [agv|] eqn:Ha;
    [|cbn [fst snd]; repeat split; auto using Forall2_moved_refl].
  cbn [loopEnd fst snd]. repeat split; auto.
  apply (fold_toggle_frame cos sin agv (agvPos p) (attachRules p) (loopStart p sc)).
Qed.

Lemma run_events_app (s : State) (a b : list Stage.Event) :
  run s (a ++ b) = run (run s a) b.
Proof. unfold Stage.run. apply List.fold_left_app. Qed.

(** The page and the refs after an event are those its handlers leave: the
    render writes to the scene only. *)
Lemma step_drag (s : State) (ev : Stage.Event) :
  drag (step s ev) = drag (handle s ev).
Proof. reflexivity. Qed.

Lemma press_page (s : State) (e : KeyboardEvent) :
  page (drag (step s (Press e)))
  = onUndo e (fst (onKeyQ (code e) (page (drag s)) (scene s)))
  /\ refs (drag (step s (Press e))) = refs (onKeyDown (code e) (drag s)).
Proof.
  cbn [Stage.step Stage.render Stage.handle drag]. unfold onWindowKeyDown.
  cbn [drag page refs].
  now rewrite (proj1 (onKeyDown_frame (code e) (drag s))).
Qed.

Lemma step_sameGrip (s : State) (ev : Stage.Event) :
  midSession ev = true -> sameGrip (drag s) (drag (step s ev)).
Proof.
  destruct ev; try discriminate; intros _.
  - destruct (press_page s e) as [Hp Hr]. unfold sameGrip. rewrite Hp, Hr.
    destruct (onUndo_frame e (fst (onKeyQ (code e) (page (drag s)) (scene s))))
      as (H1 & _).
    destruct (onKeyQ_frame (code e) (page (drag s)) (scene s)) as (_ & _ & H2 & _).
    destruct (onKeyDown_frame (code e) (drag s)) as (_ & K1 & K2 & _ & _ & _ & K3).
    repeat split; congruence.
  - destruct (step_sameSession (drag s) (KeyUp c) eq_refl) as (_ & _ & H1 & H2 & H3 & H4).
    unfold sameGrip. auto.
  - destruct (step_sameSession (drag s) (PointerMove e) eq_refl)
      as (_ & _ & H1 & H2 & H3 & H4).
    unfold sameGrip. auto.
Qed.

Lemma sameGrip_refl (w : World) : sameGrip w w.
Proof. unfold sameGrip. auto. Qed.

Lemma sameGrip_trans (a b c : World) :
  sameGrip a b -> sameGrip b c -> sameGrip a c.
Proof.
  unfold sameGrip. intros (?&?&?&?) (?&?&?&?). repeat split; congruence.
Qed.

Lemma run_sameGrip (evs : list Stage.Event) (s : State) :
  List.forallb midSession evs = true -> sameGrip (drag s) (drag (run s evs)).
Proof.
  revert s. induction evs as [|ev evs IH]; intros s H; [apply sameGrip_refl|].
  cbn in H. apply andb_prop in H as [H1 H2]. cbn [Stage.run List.fold_left].
  eapply sameGrip_trans; [apply step_sameGrip; exact H1|]. apply IH, H2.
Qed.

Lemma step_keepsHistory (s : State) (ev : Stage.Event) :
  keepsHistory ev = true -> sameSession (drag s) (drag (step s ev)).
Proof.
  destruct ev; try discriminate; cbn [keepsHistory]; intros H.
  - apply negb_true_iff in H.
    destruct (press_page s e) as [Hp Hr]. unfold sameSession.
    rewrite Hp, Hr, (onUndo_other e _ H).
    destruct (onKeyQ_frame (code e) (page (drag s)) (scene s))
      as (H1 & H2 & H3 & _).
    destruct (onKeyDown_frame (code e) (drag s)) as (_ & K1 & K2 & _ & _ & _ & K3).
    repeat split; congruence.
  - exact (step_sameSession (drag s) (KeyUp c) eq_refl).
  - exact (step_sameSession (drag s) (PointerMove e) eq_refl).
Qed.

Lemma run_keepsHistory (evs : list Stage.Event) (s : State) :
  List.forallb keepsHistory evs = true -> sameSession (drag s) (drag (run s evs)).
Proof.
  revert s. induction evs as [|ev evs IH]; intros s H; [apply sameSession_refl|].
  cbn in H. apply andb_prop in H as [H1 H2]. cbn [Stage.run List.fold_left].
  eapply sameSession_trans; [apply step_keepsHistory; exact H1|]. apply IH, H2.
Qed.

Lemma keepsHistory_mid (evs : list Stage.Event) :
  List.forallb keepsHistory evs = true -> List.forallb midSession evs = true.
Proof.
  induction evs as [|ev evs IH]; [reflexivity|]. cbn. intros H.
  apply andb_prop in H as [H1 H2]. rewrite (IH H2).
  destruct ev; try discriminate; reflexivity.
Qed.

(** *** What a pointer-down grabs *)

Lemma findUpload_chain (sc : Scene) (t : Target) (i : string) (wp : Vec3) :
  findUpload (agvOf sc) (chainOf cos sin sc t) = Some (i, wp) ->
  t = OnUpload i /\ truthy (Some i) = true
  /\ exists obj, uploadObjectMapRef sc !! i = Some obj
                 /\ wp = Advisory.worldOf cos sin sc obj.
Proof.
  destruct t as [j| |]; cbn [chainOf].
  - destruct (uploadObjectMapRef sc !! j) as [obj|] eqn:Ho; [|discriminate].
    cbn [findUpload uploadId worldPosition].
    assert (Hn : isAgv (agvOf sc) (mkObject otherUuid None (Advisory.worldOf cos sin sc obj))
                 = false).
    { unfold isAgv, agvOf. now destruct (agvRef sc). }
    assert (Hj : isAgv (agvOf sc)
                   (mkObject otherUuid (Some j) (Advisory.worldOf cos sin sc obj))
                 = false).
    { unfold isAgv, agvOf. now destruct (agvRef sc). }
    rewrite Hn, Hj. destruct (truthy (Some j)) eqn:Ht.
    + intros [= <- <-]. split; [reflexivity|]. split; [exact Ht|]. now exists obj.
    + destruct (parent obj), (agvRef sc) as [agv|] eqn:Ha; cbn [findUpload];
        try discriminate.
      unfold isAgv, agvOf. rewrite Ha. discriminate.
  - destruct (agvRef sc) as [agv|] eqn:Ha; [|discriminate].
    cbn [findUpload uploadId truthy]. unfold isAgv, agvOf. rewrite Ha.
    cbn. discriminate.
  - cbn [findUpload uploadId truthy]. unfold isAgv, agvOf.
    destruct (agvRef sc); cbn; discriminate.
Qed.

Lemma firstUpload_hits (sc : Scene) (targets : list Target) (i : string) (wp : Vec3) :
  firstUpload (agvOf sc) (hitsOf cos sin sc targets) = Some (i, wp) ->
  In (OnUpload i) targets /\ truthy (Some i) = true
  /\ exists obj, uploadObjectMapRef sc !! i = Some obj
                 /\ wp = Advisory.worldOf cos sin sc obj.
Proof.
  induction targets as [|t targets IH]; cbn; [discriminate|].
  destruct (findUpload (agvOf sc) (chainOf cos sin sc t)) as [[j wq]|] eqn:E.
  - intros [= <- <-]. destruct (findUpload_chain sc t j wq E) as (-> & Ht & Ho).
    split; [now left|]. split; [exact Ht|exact Ho].
  - intros H. destruct (IH H) as (Hin & Ht & Ho). split; [now right|]. auto.
Qed.

Lemma grabbed_step (s : State) (ev : Stage.Event) (i : string) (wp : Vec3) :
  grabbed s ev = Some (i, wp) ->
  exists e targets,
    ev = Down e targets
    /\ truthy (Some i) = true
    /\ entityWorld s i = Some wp
    /\ drag (step s ev)
       = mkWorld (onPick (Some i) (page (drag s)))
           (mkRefs true (Some (vy wp)) (Some wp) (Some (clientX e, clientY e))
              (arrowDownRef (refs (drag s))) None (Some (grabOffset wp (ray e)))).
Proof.
  destruct ev; try discriminate. cbn [Stage.grabbed].
  destruct (Z.eqb (button e) 0) eqn:Hb; [|discriminate]. intros Hf.
  destruct (firstUpload_hits (scene s) targets i wp Hf) as (_ & Ht & obj & Ho & ->).
  exists e, targets. split; [reflexivity|]. split; [exact Ht|]. split.
  - unfold Stage.entityWorld. now rewrite Ho.
  - cbn [Stage.step Stage.render Stage.handle drag]. unfold onPointerDown.
    now rewrite Hb, Hf.
Qed.


(** *** An asset under the scene root stays where its stored position puts it *)

Lemma free_world (s : State) (i : string) :
  free s i ->
  exists q, entityWorld s i = Some q
            /\ forall u, In u (uploads (page (drag s))) -> id u = i ->
                         veq q (position u).
Proof.
  intros (obj & Ho & Hp & _ & Hs). exists (localPosition obj). split; [|exact Hs].
  unfold Stage.entityWorld, Advisory.worldOf, getWorldPosition.
  rewrite Ho, Hp. now destruct (agvRef (scene s)).
Qed.

Lemma moveUpload_In_other (j : string) (pos : Vec3) (l : list UploadedGlb)
  (u : UploadedGlb) :
  In u (moveUpload j pos l) -> id u <> j -> In u l.
Proof.
  unfold moveUpload. intros Hin Hne. apply List.in_map_iff in Hin as (v & E & Hv).
  destruct (String.eqb_spec (id v) j) as [Ej|Ej]; [|now subst].
  subst u. cbn in Hne. contradiction.
Qed.

Lemma moveUpload_keeps_ids (j : string) (pos : Vec3) (l : list UploadedGlb)
  (i : string) :
  (exists u, In u l /\ id u = i) -> exists u, In u (moveUpload j pos l) /\ id u = i.
Proof.
  intros (u & Hin & Hi).
  exists (if String.eqb (id u) j then withPosition pos u else u). split.
  - unfold moveUpload. apply List.in_map_iff. now exists u.
  - now destruct (String.eqb (id u) j).
Qed.

(** The render after an event that left the object of [i] alone and whose
    uploads all ask for [target] for [i]. *)
Lemma render_free (s s' : State) (i : string) (target : Vec3) :
  free s i ->
  uploadObjectMapRef (scene s') !! i = uploadObjectMapRef (scene s) !! i ->
  (forall u, In u (uploads (page (drag s'))) -> id u = i -> veq (position u) target) ->
  (exists u, In u (uploads (page (drag s'))) /\ id u = i) ->
  free (render (uploads (page (drag s))) s') i.
Proof.
  intros (obj & Ho & Hp & Hex & Hs) Hsame Hnew Hex'.
  rewrite <- Hsame in Ho.
  destruct (render_places (uploads (page (drag s))) i target
              (uploads (page (drag s'))) _ obj Ho Hp Hnew)
    as (obj' & Ho' & Hp' & Hl').
  { intros o Hf Ht. apply List.find_some in Hf as [Hin Hi].
    apply String.eqb_eq in Hi. eapply veq_trans; [apply Hs; eassumption|exact Ht]. }
  exists obj'. cbn [Stage.render scene uploadObjectMapRef drag].
  split; [exact Ho'|]. split; [exact Hp'|]. split; [exact Hex'|].
  intros u Hu Hi. eapply veq_trans; [apply Hl'; now right|].
  apply veq_sym. now apply Hnew.
Qed.

Lemma onPick_uploads (picked : option string) (p : Page) :
  uploads (onPick picked p) = uploads p.
Proof.
  unfold onPick. destruct picked as [i|]; [|reflexivity].
  destruct (truthy (Some i)); [|reflexivity].
  match goal with |- context [List.find ?f ?l] => destruct (List.find f l) end;
    reflexivity.
Qed.

Lemma onDrop_uploads (p : Page) : uploads (onDrop p) = uploads p.
Proof. unfold onDrop. now destruct (pendingUndoRef p). Qed.

Lemma onMove_uploads (pos : Vec3) (p : Page) :
  uploads (onMove pos p) = uploads p
  \/ exists j, uploads (onMove pos p) = moveUpload j pos (uploads p).
Proof.
  unfold onMove. destruct (draggedUploadId p) as [j|]; [|now left].
  destruct (truthy (Some j)); [right; now exists j|now left].
Qed.

(** Every event but Q and Ctrl+Z leaves the scene to the render, and the
    uploads as they are or with one of them moved. *)
Lemma handle_calm (s : State) (ev : Stage.Event) :
  (forall e, ev = Press e -> isUndo e = false /\ isToggle e = false) ->
  scene (handle s ev) = scene s
  /\ (uploads (page (drag (handle s ev))) = uploads (page (drag s))
      \/ exists j pos, uploads (page (drag (handle s ev)))
                       = moveUpload j pos (uploads (page (drag s)))).
Proof.
  intros Hcalm. destruct ev; cbn [Stage.handle scene drag].
  - destruct (Hcalm e eq_refl) as [Hu Hq]. unfold onWindowKeyDown, isToggle in *.
    rewrite (proj1 (onKeyDown_frame (code e) (drag s))).
    rewrite (onKeyQ_other _ _ _ Hq). cbn [fst snd scene drag page].
    rewrite (onUndo_other e _ Hu). auto.
  - change (onKeyUp c (drag s)) with (DragMove.step (drag s) (KeyUp c)).
    rewrite (proj1 (step_key_frame (drag s) (KeyUp c) eq_refl)). auto.
  - unfold onPointerDown. destruct (negb (Z.eqb (button e) 0)); [auto|].
    destruct (firstUpload _ _) as [[i wp]|]; cbn [page]; rewrite onPick_uploads; auto.
  - unfold onPointerMove. destruct (negb (draggingRef (refs (drag s)))); [auto|].
    split; [reflexivity|].
    destruct (moveAxis _ _); cbn [page].
    + match goal with |- context [onMove ?pos ?p] =>
        destruct (onMove_uploads pos p) as [H|(j & H)] end; [now left|right; eauto].
    + destruct (intersectPlane _ _); cbn [page]; [|now left].
      match goal with |- context [onMove ?pos ?p] =>
        destruct (onMove_uploads pos p) as [H|(j & H)] end; [now left|right; eauto].
  - unfold onPointerUp. destruct (draggingRef _); cbn [page];
      [rewrite onDrop_uploads|]; auto.
  - unfold onPointerUp. destruct (draggingRef _); cbn [page];
      [rewrite onDrop_uploads|]; auto.
Qed.

Lemma step_free (s : State) (ev : Stage.Event) (i : string) :
  (forall e, ev = Press e -> isUndo e = false /\ isToggle e = false) ->
  free s i -> free (step s ev) i.
Proof.
  intros Hcalm Hfree. destruct (handle_calm s ev Hcalm) as [Hsc Hup].
  pose proof Hfree as (obj & Ho & Hp & Hex & Hs).
  unfold Stage.step.
  destruct Hup as [Hup|(j & pos & Hup)].
  - apply (render_free s (handle s ev) i (localPosition obj) Hfree).
    + now rewrite Hsc.
    + rewrite Hup. intros u Hu Hi. apply veq_sym. now apply Hs.
    + now rewrite Hup.
  - destruct (String.eqb_spec j i) as [E|E].
    + subst j. apply (render_free s (handle s ev) i pos Hfree).
      * now rewrite Hsc.
      * rewrite Hup. intros u Hu Hi.
        rewrite (moveUpload_position i pos _ u Hu Hi). apply veq_refl.
      * rewrite Hup. now apply moveUpload_keeps_ids.
    + apply (render_free s (handle s ev) i (localPosition obj) Hfree).
      * now rewrite Hsc.
      * rewrite Hup. intros u Hu Hi. apply veq_sym. apply Hs; [|exact Hi].
        apply (moveUpload_In_other j pos _ u Hu). congruence.
      * rewrite Hup. now apply moveUpload_keeps_ids.
Qed.

Lemma quiet_calm (ev : Stage.Event) :
  quiet ev = true ->
  forall e, ev = Press e -> isUndo e = false /\ isToggle e = false.
Proof.
  intros H e ->. cbn in H. apply andb_prop in H as [H1 H2].
  now rewrite negb_true_iff in H1, H2.
Qed.

Lemma run_free (evs : list Stage.Event) (s : State) (i : string) :
  List.forallb quiet evs = true -> free s i -> free (run s evs) i.
Proof.
  revert s. induction evs as [|ev evs IH]; intros s H Hf; [exact Hf|].
  cbn in H. apply andb_prop in H as [H1 H2]. cbn [Stage.run List.fold_left].
  apply IH; [exact H2|]. apply step_free; [now apply quiet_calm|exact Hf].
Qed.

Lemma quiet_mid (evs : list Stage.Event) :
  List.forallb quiet evs = true -> List.forallb midSession evs = true.
Proof.
  induction evs as [|ev evs IH]; [reflexivity|]. cbn. intros H.
  apply andb_prop in H as [H1 H2]. rewrite (IH H2).
  destruct ev; try discriminate; reflexivity.
Qed.

(** One horizontal move of an asset that is not carried. *)
Lemma horizontal_places (s : State) (e : PointerEvent) (i : string) (h : Q)
  (point : Vec3) :
  draggingRef (refs (drag s)) = true -> dragYRef (refs (drag s)) = Some h ->
  draggedUploadId (page (drag s)) = Some i -> truthy (Some i) = true ->
  free s i ->
  moveAxis (refs (drag s)) e = ModeXZ -> intersectPlane (ray e) h = Some point ->
  let off := match dragOffsetRef (refs (drag s)) with
             | Some o => o
             | None => mkVec3 0 0 0
             end in
  exists q,
    entityWorld (step s (Move e)) i = Some q
    /\ veq q (mkVec3 (vx point + vx off) h (vz point + vz off))
    /\ free (step s (Move e)) i.
Proof.
  intros Hd Hy Hi Ht Hfree Hax Hpt off.
  assert (Hf' : free (step s (Move e)) i).
  { apply step_free; [discriminate|exact Hfree]. }
  destruct (free_world _ i Hf') as (q & Hq & Hs).
  exists q. split; [exact Hq|]. split; [|exact Hf'].
  destruct Hf' as (_ & _ & _ & (u & Hu & Hiu) & _).
  apply (veq_trans _ _ _ (Hs u Hu Hiu)).
  assert (Hpos : position u = mkVec3 (vx point + vx off) h (vz point + vz off)).
  { revert Hu. cbn [Stage.step Stage.render Stage.handle drag].
    pose proof (horizontal_move e (drag s) h point Hd Hax Hy Hpt) as Hm.
    cbv zeta in Hm. rewrite Hm. cbn [page].
    rewrite (onMove_dragged _ _ i Hi Ht). cbn [setSelectedPos setUploads uploads].
    intros Hu. now apply (moveUpload_position i _ _ u Hu). }
  rewrite Hpos. apply veq_refl.
Qed.


(** *** One snapshot per pointer-down that grabbed *)

Lemma grab_then_session (s : State) (down : Stage.Event) (mid : list Stage.Event)
  (i : string) (wp : Vec3) :
  grabbed s down = Some (i, wp) -> List.forallb keepsHistory mid = true ->
  uploadHistoryRef (page (drag (run s (down :: mid)))) = uploadHistoryRef (page (drag s))
  /\ pendingUndoRef (page (drag (run s (down :: mid)))) = Some (uploads (page (drag s)))
  /\ draggingRef (refs (drag (run s (down :: mid)))) = true.
Proof.
  intros Hg Hmid.
  destruct (grabbed_step s down i wp Hg) as (e0 & targets & -> & Ht & _ & Hs).
  change (run s (Down e0 targets :: mid)) with (run (step s (Down e0 targets)) mid).
  destruct (run_keepsHistory mid (step s (Down e0 targets)) Hmid)
    as (H1 & H2 & _ & H4 & _).
  rewrite H1, H2, H4, Hs. cbn [page refs draggingRef].
  destruct (onPick_some i (page (drag s)) Ht) as (_ & Hh & Hp & _). auto.
Qed.

Lemma drop_is_pointer_up (s : State) (drop : Stage.Event) :
  isDrop drop = true -> drag (step s drop) = onPointerUp (drag s).
Proof. destruct drop; try discriminate; reflexivity. Qed.

Lemma cycle_pushes (s : State) (down : Stage.Event) (mid : list Stage.Event)
  (drop : Stage.Event) (i : string) (wp : Vec3) :
  grabbed s down = Some (i, wp) -> List.forallb keepsHistory mid = true ->
  isDrop drop = true ->
  uploadHistoryRef (page (drag (run s (dragCycle (down, mid, drop)))))
  = push (uploadHistoryRef (page (drag s))) (uploads (page (drag s)))
  /\ pendingUndoRef (page (drag (run s (dragCycle (down, mid, drop))))) = None
  /\ draggingRef (refs (drag (run s (dragCycle (down, mid, drop))))) = false.
Proof.
  intros Hg Hmid Hdrop.
  destruct (grab_then_session s down mid i wp Hg Hmid) as (Hh & Hp & Hd).
  cbn [dragCycle]. rewrite List.app_comm_cons, run_events_app.
  set (s1 := run s (down :: mid)) in *.
  change (run s1 [drop]) with (step s1 drop).
  rewrite (drop_is_pointer_up s1 drop Hdrop). unfold onPointerUp.
  rewrite Hd. cbn [page refs draggingRef].
  destruct (onDrop_pending (page (drag s1)) _ Hp) as (H1 & H2 & _).
  now rewrite H1, H2, Hh.
Qed.

Lemma press_undo (s : State) :
  page (drag (step s (Press ctrlZ))) = onUndo ctrlZ (page (drag s)).
Proof.
  rewrite (proj1 (press_page s ctrlZ)).
  now rewrite (onKeyQ_other (code ctrlZ) (page (drag s)) (scene s) eq_refl).
Qed.

Lemma undo_after_cycle (s : State) (below : list (list UploadedGlb))
  (top : list UploadedGlb) :
  uploadHistoryRef (page (drag s)) = push below top ->
  uploads (page (drag (step s (Press ctrlZ)))) = top
  /\ uploadHistoryRef (page (drag (step s (Press ctrlZ)))) = below.
Proof.
  intros H. rewrite press_undo. unfold onUndo. cbn [ctrlKey code ctrlZ negb orb].
  change (("KeyZ" =? "KeyZ")%string) with true. cbn [negb].
  rewrite H, pop_push. cbn. auto.
Qed.

Lemma cycle_and_undo (s : State) (down : Stage.Event) (mid : list Stage.Event)
  (drop : Stage.Event) (i : string) (wp : Vec3) :
  grabbed s down = Some (i, wp) -> List.forallb keepsHistory mid = true ->
  isDrop drop = true ->
  uploads (page (drag (run s (dragCycle (down, mid, drop) ++ [Press ctrlZ]))))
  = uploads (page (drag s))
  /\ uploadHistoryRef
       (page (drag (run s (dragCycle (down, mid, drop) ++ [Press ctrlZ]))))
     = uploadHistoryRef (page (drag s)).
Proof.
  intros Hg Hmid Hdrop.
  destruct (cycle_pushes s down mid drop i wp Hg Hmid Hdrop) as (Hh & _).
  rewrite run_events_app. apply undo_after_cycle. exact Hh.
Qed.

Lemma validCycle_parts (s : State) (down : Stage.Event) (mid : list Stage.Event)
  (drop : Stage.Event) :
  validCycle s (down, mid, drop) = true ->
  (exists i wp, grabbed s down = Some (i, wp))
  /\ List.forallb keepsHistory mid = true /\ isDrop drop = true.
Proof.
  unfold Stage.validCycle. intros H.
  apply andb_prop in H as [[Hg Hmid]%andb_prop Hdrop].
  destruct (grabbed s down) as [[i wp]|]; [|discriminate]. eauto.
Qed.

Lemma cycles_push (cs : list (Stage.Event * list Stage.Event * Stage.Event))
  (s : State) :
  validCycles [] s cs = true ->
  List.length (uploadHistoryRef
                 (page (drag (run s (List.concat (List.map dragCycle cs))))))
  = (List.length (uploadHistoryRef (page (drag s))) + List.length cs)%nat.
Proof.
  revert s. induction cs as [|[[down mid] drop] cs IH]; intros s H.
  - cbn. lia.
  - cbn [Stage.validCycles] in H. apply andb_prop in H as [Hc Hcs].
    rewrite List.app_nil_r in Hcs.
    destruct (validCycle_parts s down mid drop Hc) as ((i & wp & Hg) & Hmid & Hdrop).
    cbn [List.map List.concat]. rewrite run_events_app, IH by assumption.
    destruct (cycle_pushes s down mid drop i wp Hg Hmid Hdrop) as (Hh & _).
    rewrite Hh. unfold push. rewrite List.length_app. cbn. lia.
Qed.

Lemma cycles_undone (cs : list (Stage.Event * list Stage.Event * Stage.Event))
  (s : State) :
  validCycles [Press ctrlZ] s cs = true ->
  uploads (page (drag (run s (List.concat
                                 (List.map (fun c => dragCycle c ++ [Press ctrlZ]) cs)))))
  = uploads (page (drag s))
  /\ uploadHistoryRef
       (page (drag (run s (List.concat
                             (List.map (fun c => dragCycle c ++ [Press ctrlZ]) cs)))))
     = uploadHistoryRef (page (drag s)).
Proof.
  revert s. induction cs as [|[[down mid] drop] cs IH]; intros s H; [cbn; auto|].
  cbn [Stage.validCycles] in H. apply andb_prop in H as [Hc Hcs].
  destruct (validCycle_parts s down mid drop Hc) as ((i & wp & Hg) & Hmid & Hdrop).
  cbn [List.map List.concat]. rewrite run_events_app.
  destruct (cycle_and_undo s down mid drop i wp Hg Hmid Hdrop) as (Hu & Hh).
  destruct (IH _ Hcs) as (Hu' & Hh'). now rewrite Hu', Hh', Hu, Hh.
Qed.

Lemma missed_click (s : State) (down : Stage.Event) (mid : list Stage.Event)
  (drop : Stage.Event) :
  draggingRef (refs (drag s)) = false -> missed s down = true ->
  List.forallb keepsHistory mid = true -> isDrop drop = true ->
  uploadHistoryRef (page (drag (run s (down :: mid ++ [drop]))))
  = uploadHistoryRef (page (drag s)).
Proof.
  intros Hd Hm Hmid Hdrop.
  destruct down; try discriminate. cbn [Stage.missed] in Hm.
  apply andb_prop in Hm as [Hb Hf].
  destruct (firstUpload _ _) eqn:Ef; [discriminate|].
  assert (Hs : drag (step s (Down e targets))
               = mkWorld (onPick None (page (drag s))) (refs (drag s))).
  { cbn [Stage.step Stage.render Stage.handle drag]. unfold onPointerDown.
    now rewrite Hb, Ef. }
  rewrite List.app_comm_cons, run_events_app.
  change (run s (Down e targets :: mid)) with (run (step s (Down e targets)) mid).
  destruct (run_keepsHistory mid (step s (Down e targets)) Hmid)
    as (H1 & _ & _ & H4 & _).
  set (s1 := run (step s (Down e targets)) mid) in *.
  change (run s1 [drop]) with (step s1 drop).
  rewrite (drop_is_pointer_up s1 drop Hdrop). unfold onPointerUp.
  rewrite H4, Hs. cbn [refs page]. rewrite Hd.
  rewrite H1, Hs. cbn [page]. apply onPick_none.
Qed.

Lemma isDrop_calm (ev : Stage.Event) :
  isDrop ev = true ->
  forall e, ev = Press e -> isUndo e = false /\ isToggle e = false.
Proof. intros H e ->. discriminate. Qed.

(** Ctrl+Z after a cycle without Q: an asset that was not carried is back
    where it was, in the world too. *)
Lemma cycle_and_undo_in_scene (s : State) (down : Stage.Event)
  (mid : list Stage.Event) (drop : Stage.Event) (i j : string) (wp : Vec3) :
  grabbed s down = Some (i, wp) -> List.forallb quiet mid = true ->
  isDrop drop = true -> free s j ->
  exists q q',
    entityWorld s j = Some q
    /\ entityWorld (run s (dragCycle (down, mid, drop) ++ [Press ctrlZ])) j = Some q'
    /\ veq q' q.
Proof.
  intros Hg Hmid Hdrop Hfree.
  assert (Hk : List.forallb keepsHistory mid = true).
  { clear - Hmid. induction mid as [|ev mid IH]; [reflexivity|]. cbn in *.
    apply andb_prop in Hmid as [H1 H2]. rewrite (IH H2).
    destruct ev; try discriminate; cbn in *; [|reflexivity|reflexivity].
    apply andb_prop in H1 as [H1 _]. now rewrite H1. }
  destruct (cycle_and_undo s down mid drop i wp Hg Hk Hdrop) as (Hu & _).
  destruct (grabbed_step s down i wp Hg) as (e0 & targets & -> & _).
  rewrite run_events_app in *. cbn [dragCycle] in *.
  set (s2 := run s (Down e0 targets :: mid ++ [drop])) in *.
  assert (Hf2 : free s2 j).
  { subst s2. rewrite List.app_comm_cons, run_events_app.
    change (run s (Down e0 targets :: mid)) with (run (step s (Down e0 targets)) mid).
    change (run ?x [drop]) with (step x drop).
    apply step_free; [now apply isDrop_calm|].
    apply run_free; [exact Hmid|]. apply step_free; [discriminate|exact Hfree]. }
  pose proof Hfree as (obj & Ho & Hp & Hex & Hs).
  change (run s2 [Press ctrlZ]) with (step s2 (Press ctrlZ)) in *.
  assert (Hf3 : free (step s2 (Press ctrlZ)) j).
  { unfold Stage.step.
    apply (render_free s2 (handle s2 (Press ctrlZ)) j (localPosition obj) Hf2).
    - cbn [Stage.handle]. unfold onWindowKeyDown. cbn [scene].
      now rewrite (onKeyQ_other (code ctrlZ) _ _ eq_refl).
    - change (drag (handle s2 (Press ctrlZ))) with (drag (step s2 (Press ctrlZ))).
      rewrite Hu. intros u Hin Hi. apply veq_sym. now apply Hs.
    - change (drag (handle s2 (Press ctrlZ))) with (drag (step s2 (Press ctrlZ))).
      now rewrite Hu. }
  destruct (free_world s j Hfree) as (q & Hq & Hqs).
  destruct (free_world _ j Hf3) as (q' & Hq' & Hqs').
  exists q, q'. split; [exact Hq|]. split; [exact Hq'|].
  destruct Hex as (u & Hin & Hi).
  eapply veq_trans; [apply (Hqs' u); [now rewrite Hu|exact Hi]|].
  apply veq_sym. now apply Hqs.
Qed.

(** C6, as the code has it.  A pointer-down that grabs an entity arms the
    session at once; whatever follows it short of Ctrl+Z (moves, keys, Q
    included, or nothing at all) pushes nothing, and the release (pointer-up
    or pointer-leave) pushes exactly one entry: the uploads as they were at
    the grab, whether or not a pointer-move came in between.  N consecutive
    grab-release cycles push exactly N entries; Ctrl+Z after a cycle restores
    the uploads and the stack to what they were before the grab, field for
    field, and, when Q was not pressed in the cycle, every asset that was not
    carried stands in the world where it stood before the grab; a release
    while no session is armed, and a click that grabbed nothing, push
    nothing. *)
Theorem release_pushes_one_snapshot_per_grab :
  (forall (s : State) (down : Stage.Event) (mid : list Stage.Event)
          (drop : Stage.Event) i wp,
      grabbed s down = Some (i, wp) -> List.forallb keepsHistory mid = true ->
      isDrop drop = true ->
      uploadHistoryRef (page (drag (run s (down :: mid))))
      = uploadHistoryRef (page (drag s))
      /\ uploadHistoryRef (page (drag (run s (dragCycle (down, mid, drop)))))
         = push (uploadHistoryRef (page (drag s))) (uploads (page (drag s)))
      /\ uploads (page (drag (run s (dragCycle (down, mid, drop) ++ [Press ctrlZ]))))
         = uploads (page (drag s))
      /\ uploadHistoryRef
           (page (drag (run s (dragCycle (down, mid, drop) ++ [Press ctrlZ]))))
         = uploadHistoryRef (page (drag s)))
  /\ (forall (s : State) (down : Stage.Event) (mid : list Stage.Event)
             (drop : Stage.Event) i wp j,
        grabbed s down = Some (i, wp) -> List.forallb quiet mid = true ->
        isDrop drop = true -> free s j ->
        exists q q',
          entityWorld s j = Some q
          /\ entityWorld (run s (dragCycle (down, mid, drop) ++ [Press ctrlZ])) j
             = Some q'
          /\ veq q' q)
  /\ (forall (cs : list (Stage.Event * list Stage.Event * Stage.Event)) (s : State),
        validCycles [] s cs = true ->
        List.length (uploadHistoryRef
                       (page (drag (run s (List.concat (List.map dragCycle cs))))))
        = (List.length (uploadHistoryRef (page (drag s))) + List.length cs)%nat)
  /\ (forall (cs : list (Stage.Event * list Stage.Event * Stage.Event)) (s : State),
        validCycles [Press ctrlZ] s cs = true ->
        let s' := run s (List.concat
                           (List.map (fun c => dragCycle c ++ [Press ctrlZ]) cs)) in
        uploads (page (drag s')) = uploads (page (drag s))
        /\ uploadHistoryRef (page (drag s')) = uploadHistoryRef (page (drag s)))
  /\ (forall (s : State) (drop : Stage.Event),
        draggingRef (refs (drag s)) = false -> isDrop drop = true ->
        uploadHistoryRef (page (drag (step s drop))) = uploadHistoryRef (page (drag s)))
  /\ (forall (s : State) (down : Stage.Event) (mid : list Stage.Event)
             (drop : Stage.Event),
        draggingRef (refs (drag s)) = false -> missed s down = true ->
        List.forallb keepsHistory mid = true -> isDrop drop = true ->
        uploadHistoryRef (page (drag (run s (down :: mid ++ [drop]))))
        = uploadHistoryRef (page (drag s))).
Proof.
  split.
  { intros s down mid drop i wp Hg Hmid Hdrop.
    destruct (grab_then_session s down mid i wp Hg Hmid) as (H1 & _).
    destruct (cycle_pushes s down mid drop i wp Hg Hmid Hdrop) as (H2 & _).
    destruct (cycle_and_undo s down mid drop i wp Hg Hmid Hdrop) as (H3 & H4).
    auto. }
  split.
  { intros s down mid drop i wp j. apply cycle_and_undo_in_scene. }
  split; [exact cycles_push|].
  split; [exact cycles_undone|].
  split; [|exact missed_click].
  intros s drop Hd Hdrop. rewrite (drop_is_pointer_up s drop Hdrop).
  unfold onPointerUp. now rewrite Hd.
Qed.

(** *** Vertical and horizontal moves, in the world *)




(** X7. Between two horizontal moves of a session an asset that is not
    carried travels in the world exactly as the plane point under the
    pointer does: the grab offset cancels, the height stays the grabbed one,
    and whatever happened between the two moves (vertical moves, key presses
    other than Q and Ctrl+Z) leaves no trace. *)
Theorem horizontal_drag_carries_free_asset_rigidly
  (s : State) (e1 e2 : PointerEvent) (mid : list Stage.Event) (i : string)
  (h : Q) (p1 p2 : Vec3) :
  draggingRef (refs (drag s)) = true -> dragYRef (refs (drag s)) = Some h ->
  draggedUploadId (page (drag s)) = Some i -> truthy (Some i) = true ->
  free s i ->
  List.forallb quiet mid = true ->
  moveAxis (refs (drag s)) e1 = ModeXZ -> intersectPlane (ray e1) h = Some p1 ->
  let sa := step s (Move e1) in
  let sb := run sa mid in
  moveAxis (refs (drag sb)) e2 = ModeXZ -> intersectPlane (ray e2) h = Some p2 ->
  exists qa qb,
    entityWorld sa i = Some qa
    /\ entityWorld (step sb (Move e2)) i = Some qb
    /\ vy qa == h /\ vy qb == h
    /\ vx qb - vx qa == vx p2 - vx p1
    /\ vz qb - vz qa == vz p2 - vz p1.
Proof.
  intros Hd Hy Hi Ht Hfree Hmid Hax1 Hp1. cbv zeta. intros Hax2 Hp2.
  destruct (horizontal_places s e1 i h p1 Hd Hy Hi Ht Hfree Hax1 Hp1)
    as (qa & Hqa & (Ax & Ay & Az) & Hfa).
  assert (Hall : List.forallb midSession (Move e1 :: mid) = true)
    by (cbn; now apply quiet_mid).
  destruct (run_sameGrip (Move e1 :: mid) s Hall) as (G1 & G2 & G3 & G4).
  change (run s (Move e1 :: mid)) with (run (step s (Move e1)) mid) in G1, G2, G3, G4.
  rewrite Hi in G1. rewrite Hd in G2. rewrite Hy in G3.
  pose proof (run_free mid _ i Hmid Hfa) as Hfb.
  destruct (horizontal_places _ e2 i h p2 G2 G3 G1 Ht Hfb Hax2 Hp2)
    as (qb & Hqb & (Bx & By & Bz) & _).
  rewrite G4 in Bx, Bz. cbn [vx vy vz] in *.
  exists qa, qb. split; [exact Hqa|]. split; [exact Hqb|].
  split; [exact Ay|]. split; [exact By|].
  split; [rewrite Bx, Ax|rewrite Bz, Az]; ring.
Qed.

(** *** What a session can move *)

Lemma movable_rules (p : Page) (i : string) :
  In i (List.map rule_id (attachRules p)) -> In i (movable p).
Proof. unfold movable. destruct (draggedUploadId p); [now right|auto]. Qed.

Lemma onMove_movable (pos : Vec3) (p : Page) :
  List.Forall2 (movedOnly (movable p)) (uploads p) (uploads (onMove pos p))
  /\ attachRules (onMove pos p) = attachRules p.
Proof.
  unfold onMove, movable. destruct (draggedUploadId p) as [i|] eqn:E;
    [|split; [apply Forall2_moved_refl|reflexivity]].
  destruct (truthy (Some i)); [|split; [apply Forall2_moved_refl|reflexivity]].
  cbn. split; [|reflexivity].
  eapply Forall2_moved_mono; [|apply moveUpload_moved].
  intros j [<-|[]]. now left.
Qed.

Lemma step_movable (s : State) (ev : Stage.Event) :
  keepsHistory ev = true ->
  List.Forall2 (movedOnly (movable (page (drag s))))
    (uploads (page (drag s))) (uploads (page (drag (step s ev))))
  /\ movable (page (drag (step s ev))) = movable (page (drag s)).
Proof.
  intros Hk.
  assert (Hm : attachRules (page (drag (step s ev))) = attachRules (page (drag s))
               -> movable (page (drag (step s ev))) = movable (page (drag s))).
  { intros Hr. unfold movable. rewrite Hr.
    destruct (step_keepsHistory s ev Hk) as (_ & _ & Hi & _). now rewrite Hi. }
  destruct ev; try discriminate; cbn [keepsHistory] in Hk.
  - apply negb_true_iff in Hk.
    destruct (onKeyQ_frame (code e) (page (drag s)) (scene s))
      as (_ & _ & _ & _ & Hr & _ & Hu).
    assert (Hp := proj1 (press_page s e)). rewrite (onUndo_other e _ Hk) in Hp.
    split; [|apply Hm; now rewrite Hp].
    rewrite Hp. eapply Forall2_moved_mono; [|exact Hu]. apply movable_rules.
  - assert (Hp : page (drag (step s (Release c))) = page (drag s))
      by exact (proj1 (step_key_frame (drag s) (KeyUp c) eq_refl)).
    split; [|apply Hm; now rewrite Hp]. rewrite Hp. apply Forall2_moved_refl.
  - assert (Hp : page (drag (step s (Move e))) = page (drag s)
                 \/ exists pos, page (drag (step s (Move e))) = onMove pos (page (drag s))).
    { cbn [Stage.step Stage.render Stage.handle drag]. unfold onPointerMove.
      destruct (negb (draggingRef (refs (drag s)))); [now left|].
      destruct (moveAxis _ _); cbn [page]; [right; eauto|].
      destruct (intersectPlane _ _); cbn [page]; [right; eauto|now left]. }
    destruct Hp as [Hp|(pos & Hp)].
    + split; [|apply Hm; now rewrite Hp]. rewrite Hp. apply Forall2_moved_refl.
    + destruct (onMove_movable pos (page (drag s))) as [H1 H2].
      split; [|apply Hm; now rewrite Hp]. now rewrite Hp.
Qed.

Lemma quiet_is_drag_step (s : State) (ev : Stage.Event) :
  quiet ev = true ->
  exists dev, midDrag dev = true /\ drag (step s ev) = DragMove.step (drag s) dev.
Proof.
  destruct ev; try discriminate; intros H.
  - destruct (quiet_calm _ H e eq_refl) as [Hu Hq]. exists (KeyDown (code e)).
    split; [reflexivity|].
    cbn [Stage.step Stage.render Stage.handle drag DragMove.step].
    unfold onWindowKeyDown, isToggle in *.
    rewrite (onKeyQ_other _ _ _ Hq). cbn [fst]. rewrite (onUndo_other e _ Hu).
    now destruct (onKeyDown (code e) (drag s)).
  - exists (KeyUp c). split; reflexivity.
  - exists (PointerMove e). split; reflexivity.
Qed.

(** X8. Between a grab and the drop, whatever the pointer and the keys do
    short of Ctrl+Z, the uploads stay in the same order with their ids,
    names, urls and scales, and an upload that is neither the dragged one
    nor named by an attach rule is exactly what it was; when Q is not
    pressed either, every upload but the dragged one is exactly what it
    was. *)
Theorem session_moves_only_dragged_and_ruled (s : State) (evs : list Stage.Event) :
  (List.forallb keepsHistory evs = true ->
   List.Forall2 (movedOnly (movable (page (drag s))))
     (uploads (page (drag s))) (uploads (page (drag (run s evs)))))
  /\ (List.forallb quiet evs = true ->
      List.Forall2 (keptExceptPosition (draggedUploadId (page (drag s))))
        (uploads (page (drag s))) (uploads (page (drag (run s evs))))).
Proof.
  split.
  - revert s. induction evs as [|ev evs IH]; intros s H; [apply Forall2_moved_refl|].
    cbn in H. apply andb_prop in H as [H1 H2]. cbn [Stage.run List.fold_left].
    destruct (step_movable s ev H1) as [Hs Hm].
    eapply Forall2_moved_trans; [exact Hs|]. rewrite <- Hm. apply IH, H2.
  - revert s. induction evs as [|ev evs IH]; intros s H; [apply Forall2_kept_refl|].
    cbn in H. apply andb_prop in H as [H1 H2]. cbn [Stage.run List.fold_left].
    destruct (quiet_is_drag_step s ev H1) as (dev & Hd & Hs).
    apply (Forall2_kept_trans _ _ (uploads (page (drag (step s ev))))).
    + rewrite Hs. apply step_kept, Hd.
    + destruct (step_sameSession (drag s) dev Hd) as (_ & _ & Hi & _).
      rewrite <- Hi, <- Hs. apply IH, H2.
Qed.

(** *** Events that grab nothing *)

Lemma no_upload_no_grab (sc : Scene) (targets : list Target) :
  List.forallb (fun t => match t with OnUpload _ => false | _ => true end) targets
  = true ->
  firstUpload (agvOf sc) (hitsOf cos sin sc targets) = None.
Proof.
  intros H. destruct (firstUpload _ _) as [[i wp]|] eqn:E; [|reflexivity].
  destruct (firstUpload_hits sc targets i wp E) as (Hin & _).
  rewrite List.forallb_forall in H. specialize (H _ Hin). discriminate.
Qed.

Lemma step_idle (s : State) (ev : Stage.Event) :
  draggingRef (refs (drag s)) = false -> Stage.grabsNothing ev = true ->
  uploads (page (drag (step s ev))) = uploads (page (drag s))
  /\ uploadHistoryRef (page (drag (step s ev))) = uploadHistoryRef (page (drag s))
  /\ draggingRef (refs (drag (step s ev))) = false.
Proof.
  intros Hd Hg. destruct ev; cbn [Stage.grabsNothing] in Hg.
  - destruct (quiet_is_drag_step s (Press e) Hg) as (dev & Hdev & Hs).
    rewrite Hs. destruct dev; try discriminate.
    + destruct (step_key_frame (drag s) (KeyDown c) eq_refl) as (Hp & Hdr & _).
      rewrite Hp, Hdr. auto.
    + destruct (step_key_frame (drag s) (KeyUp c) eq_refl) as (Hp & Hdr & _).
      rewrite Hp, Hdr. auto.
    + cbn [DragMove.step]. unfold onPointerMove. rewrite Hd. auto.
  - destruct (step_key_frame (drag s) (KeyUp c) eq_refl) as (Hp & Hdr & _).
    change (drag (step s (Release c))) with (DragMove.step (drag s) (KeyUp c)).
    rewrite Hp, Hdr. auto.
  - cbn [Stage.step Stage.render Stage.handle drag]. unfold onPointerDown.
    destruct (Z.eqb (button e) 0); cbn [negb orb] in *; [|auto].
    rewrite (no_upload_no_grab _ _ Hg). cbn [page refs].
    destruct (onPick_none (page (drag s))) as (H1 & H2 & _). auto.
  - cbn [Stage.step Stage.render Stage.handle drag]. unfold onPointerMove.
    rewrite Hd. auto.
  - cbn [Stage.step Stage.render Stage.handle drag]. unfold onPointerUp.
    rewrite Hd. auto.
  - cbn [Stage.step Stage.render Stage.handle drag]. unfold onPointerUp.
    rewrite Hd. auto.
Qed.

(** X9. From a state in which nothing is being dragged, events that grab no
    entity and are neither Q nor Ctrl+Z (other keys, moves, releases, clicks
    on empty space or on the vehicle, clicks with another button) change
    neither the uploads nor the undo stack, and leave the controller idle. *)
Theorem idle_events_change_nothing (s : State) (evs : list Stage.Event) :
  draggingRef (refs (drag s)) = false ->
  List.forallb Stage.grabsNothing evs = true ->
  uploads (page (drag (run s evs))) = uploads (page (drag s))
  /\ uploadHistoryRef (page (drag (run s evs))) = uploadHistoryRef (page (drag s))
  /\ draggingRef (refs (drag (run s evs))) = false.
Proof.
  revert s. induction evs as [|ev evs IH]; intros s Hd H; [auto|].
  cbn in H. apply andb_prop in H as [H1 H2]. cbn [Stage.run List.fold_left].
  destruct (step_idle s ev Hd H1) as (Hu & Hh & Hd').
  destruct (IH (step s ev) Hd' H2) as (Hu' & Hh' & Hd'').
  change (List.fold_left step evs (step s ev)) with (run (step s ev) evs).
  repeat split; congruence.
Qed.

End Trig.

Lemma box_free_in (s : State) (at_ : Vec3) :
  uploadObjectMapRef (scene s) !! "box.glb-1"%string = Some (mkGroup SceneRoot at_) ->
  List.forallb (fun u => negb (String.eqb (id u) "box.glb-1")
                         || veqb at_ (position u)) (uploads (page (drag s))) = true ->
  List.existsb (fun u => String.eqb (id u) "box.glb-1") (uploads (page (drag s))) = true ->
  free s "box.glb-1".
Proof.
  intros Ho Hall Hex. exists (mkGroup SceneRoot at_).
  split; [exact Ho|]. split; [reflexivity|]. split.
  - apply List.existsb_exists in Hex as (u & Hu & Hi). apply String.eqb_eq in Hi. eauto.
  - intros u Hu Hi. rewrite List.forallb_forall in Hall. specialize (Hall u Hu).
    rewrite Hi in Hall. cbn in Hall. now apply veqb_veq.
Qed.



Lemma release_pushes_one_snapshot_per_grab_witness :
  Stage.grabbed cosAtZero sinAtZero yard (onBox 230 520)
  = Some ("box.glb-1"%string, mkVec3 2 1 5)
  /\ uploadHistoryRef
       (page (drag (stageRun yard
                      (Stage.dragCycle (onBox 230 520,
                                        [Move (pointerAt 300 520); key "KeyQ"], Up)))))
     = [[box; crate]]
  /\ uploads
       (page (drag (stageRun yard
                      (Stage.dragCycle (onBox 230 520,
                                        [Move (pointerAt 300 520); key "KeyQ"], Up)
                       ++ [Press ctrlZ]))))
     = [box; crate]
  /\ (exists q q',
        Stage.entityWorld cosAtZero sinAtZero yard "box.glb-1" = Some q
        /\ Stage.entityWorld cosAtZero sinAtZero
             (stageRun yard
                (Stage.dragCycle (onBox 230 520, [Move (pointerAt 300 520)], Leave)
                 ++ [Press ctrlZ])) "box.glb-1"
           = Some q'
        /\ veq q' q)
  /\ uploadHistoryRef
       (page (drag (stageRun yard [Down (pointerAt 0 0) [OnVehicle]; Up]))) = [].
Proof.
  destruct (release_pushes_one_snapshot_per_grab cosAtZero sinAtZero)
    as (H1 & H2 & _ & _ & _ & H5).
  destruct (H1 yard (onBox 230 520) [Move (pointerAt 300 520); key "KeyQ"] Up
              _ _ eq_refl eq_refl eq_refl) as (_ & Ha & Hb & _).
  split; [reflexivity|]. split; [exact Ha|]. split; [exact Hb|]. split.
  { apply (H2 yard (onBox 230 520) [Move (pointerAt 300 520)] Leave
             "box.glb-1"%string (mkVec3 2 1 5) "box.glb-1"%string
             eq_refl eq_refl eq_refl).
    apply (box_free_in _ (mkVec3 2 1 5)); reflexivity. }
  exact (H5 yard (Down (pointerAt 0 0) [OnVehicle]) [] Up
           eq_refl eq_refl eq_refl eq_refl).
Defined.

(** C6, as the spec has it, fails: a snapshot is pushed also when no drag
    started.  A click on the box, released where it was pressed with no
    pointer-move in between, leaves the uploads and the box as they were and
    pushes one entry on the empty stack. *)
Lemma click_without_move_pushes_snapshot :
  uploadHistoryRef (page (drag yard)) = []
  /\ Stage.grabbed cosAtZero sinAtZero yard (onBox 230 520)
     = Some ("box.glb-1"%string, mkVec3 2 1 5)
  /\ uploads (page (drag (stageRun yard [onBox 230 520; Up]))) = uploads (page (drag yard))
  /\ standsAt "box.glb-1" (mkVec3 2 1 5) (stageRun yard [onBox 230 520; Up]) = true
  /\ uploadHistoryRef (page (drag (stageRun yard [onBox 230 520; Up]))) = [[box; crate]].
Proof. vm_compute. repeat split. Qed.


Lemma horizontal_drag_carries_free_asset_rigidly_witness :
  moveAxis (refs (drag (stageRun yard [onBox 230 520]))) (pointerAt 300 520) = ModeXZ
  /\ exists qa qb,
       Stage.entityWorld cosAtZero sinAtZero
         (stageRun yard [onBox 230 520; Move (pointerAt 300 520)]) "box.glb-1"
       = Some qa
       /\ Stage.entityWorld cosAtZero sinAtZero
            (stageRun yard [onBox 230 520; Move (pointerAt 300 520);
                            key "ArrowDown"; Move (pointerAt 300 100);
                            Release "ArrowDown"; Move (pointerAt 250 650)])
            "box.glb-1"
          = Some qb
       /\ vx qb - vx qa == 250 / 100 - 300 / 100
       /\ vz qb - vz qa == 650 / 100 - 520 / 100.
Proof.
  split; [reflexivity|].
  assert (Hfree : free (stageRun yard [onBox 230 520]) "box.glb-1")
    by (apply (box_free_in _ (mkVec3 2 1 5)); reflexivity).
  destruct (horizontal_drag_carries_free_asset_rigidly cosAtZero sinAtZero
              (stageRun yard [onBox 230 520])
              (pointerAt 300 520) (pointerAt 250 650)
              [key "ArrowDown"; Move (pointerAt 300 100); Release "ArrowDown"]
              "box.glb-1" 1 _ _ eq_refl eq_refl eq_refl eq_refl Hfree
              eq_refl eq_refl eq_refl eq_refl eq_refl)
    as (qa & qb & Ha & Hb & _ & _ & Hx & Hz).
  exists qa, qb. split; [exact Ha|]. split; [exact Hb|].
  split; [rewrite Hx|rewrite Hz]; vm_compute; reflexivity.
Defined.

Lemma session_moves_only_dragged_and_ruled_witness :
  List.forallb keepsHistory [Move (pointerAt 300 520); key "KeyQ"] = true
  /\ List.Forall2 (movedOnly ["box.glb-1"; "crate.glb-2"]%string) [box; crate]
       (uploads (page (drag (stageRun yard [onBox 230 520; Move (pointerAt 300 520);
                                            key "KeyQ"]))))
  /\ uploadAt "crate.glb-2" (mkVec3 0 1 1)
       (page (drag (stageRun yard [onBox 230 520; Move (pointerAt 300 520);
                                   key "KeyQ"]))) = true
  /\ List.forallb quiet [Move (pointerAt 300 520); key "ArrowDown"] = true
  /\ List.Forall2 (keptExceptPosition (Some "box.glb-1"%string)) [box; crate]
       (uploads (page (drag (stageRun yard [onBox 230 520; Move (pointerAt 300 520);
                                            key "ArrowDown"])))).
Proof.
  split; [reflexivity|]. split.
  { exact (proj1 (session_moves_only_dragged_and_ruled cosAtZero sinAtZero
                    (stageRun yard [onBox 230 520])
                    [Move (pointerAt 300 520); key "KeyQ"]) eq_refl). }
  split; [reflexivity|]. split; [reflexivity|].
  exact (proj2 (session_moves_only_dragged_and_ruled cosAtZero sinAtZero
                  (stageRun yard [onBox 230 520])
                  [Move (pointerAt 300 520); key "ArrowDown"]) eq_refl).
Defined.

Lemma idle_events_change_nothing_witness :
  draggingRef (refs (drag yard)) = false
  /\ uploads
       (page (drag (stageRun yard [Move (pointerAt 10 10);
                                   Down (pointerAt 10 10) [OnVehicle; OnOther];
                                   key "KeyR"; Move (pointerAt 300 500); Up; Leave])))
     = [box; crate].
Proof.
  split; [reflexivity|].
  exact (proj1 (idle_events_change_nothing cosAtZero sinAtZero yard
                  [Move (pointerAt 10 10);
                   Down (pointerAt 10 10) [OnVehicle; OnOther];
                   key "KeyR"; Move (pointerAt 300 500); Up; Leave]
                  eq_refl eq_refl)).
Defined.

End StageFacts.
